(** * GTMDeepDiver: the ROI scenario engine ([src/lib/roi-calculator.ts])

    A shallow embedding of the ROI calculator and the properties its
    specification states about it.

    JavaScript's [number] is an IEEE 754 binary64 value, so the embedding uses
    Rocq's primitive [float] (the same format, with the same correctly rounded
    operations) rather than an idealised field: every [*], [+], [-], [/] and
    comparison below is the hardware operation the JavaScript engine performs.
    [console.log] is the only effect of the module; it is modelled by a console
    that is threaded through the calls, and [throw] by an outcome type. *)

From Stdlib Require Import ZArith List String Bool Lia Znumtheory.
From Stdlib Require Import Uint63 Floats.
Import ListNotations.

(* Decimal literals such as [0.9] denote, as in JavaScript, the nearest double. *)
Set Warnings "-inexact-float".

Local Open Scope float_scope.

(** ** Numbers *)

Definition number := float.

Definition Infinity : number := infinity.
Definition NaN : number := nan.

(** The double nearest to the integer [n], for [|n| < 2^63] (the conversion is
    exact when [|n| <= 2^53]). *)
Definition Z2number (n : Z) : number :=
  if (n <? 0)%Z then - of_uint63 (of_Z (- n)) else of_uint63 (of_Z n).

(** [Number.isNaN]. *)
Definition Number_isNaN (x : number) : bool := is_nan x.

(** [Number.isFinite]. *)
Definition Number_isFinite (x : number) : bool := is_finite x.

(** [Number.isInteger]: a finite double [±m·2^e] without fractional bits. *)
Definition Number_isInteger (x : number) : bool :=
  match Prim2SF x with
  | S754_zero _ => true
  | S754_finite _ m e => (0 <=? e)%Z || (Zpos m mod 2 ^ (- e) =? 0)%Z
  | _ => false
  end.

(** [Math.round]: the integer nearest to [x], ties towards [+Infinity];
    [NaN], the infinities, the zeros and integral values are returned as they
    are, and a result of zero keeps the sign of [x] (so values in [[-0.5, 0)]
    round to [-0]).  For [x = ±m·2^e] with [e < 0] the result is
    [floor (x + 1/2)], computed on integers. *)
Definition Math_round (x : number) : number :=
  match Prim2SF x with
  | S754_finite s m e =>
      if (0 <=? e)%Z then x
      else
        let n := ((2 * cond_Zopp s (Zpos m) + 2 ^ (- e)) / 2 ^ (1 - e))%Z in
        if (n =? 0)%Z then (if s then neg_zero else zero) else Z2number n
  | _ => x
  end.

(** [Math.min] on two arguments: [NaN] if either is [NaN], and [-0] is below
    [+0]. *)
Definition Math_min (a b : number) : number :=
  if is_nan a || is_nan b then NaN
  else if a <? b then a
  else if b <? a then b
  else match classify a with NZero => a | _ => b end.

(** ** Effects: the console and exceptions *)

(** What the module writes with [console.log]; the interpolated numbers are
    kept as numbers. *)
Inductive console_line : Type :=
| LogStarting
| LogScenario (totalBenefit roiPct : number)
| LogCompleted.

Definition console := list console_line.

Inductive JsError : Type := Error (message : string).

Inductive outcome (A : Type) : Type :=
| Returned (a : A)
| Thrown (e : JsError).
Arguments Returned {A} a.
Arguments Thrown {A} e.

(** A computation reads the console written so far and returns its outcome
    with the console it leaves. *)
Definition Js (A : Type) : Type := console -> outcome A * console.

Definition ret {A} (a : A) : Js A := fun c => (Returned a, c).

Definition bind {A B} (m : Js A) (k : A -> Js B) : Js B :=
  fun c =>
    match m c with
    | (Returned a, c') => k a c'
    | (Thrown e, c') => (Thrown e, c')
    end.

Definition throw {A} (e : JsError) : Js A := fun c => (Thrown e, c).

Definition console_log (l : console_line) : Js unit :=
  fun c => (Returned tt, c ++ [l]).

Notation "x <- m ;; k" := (bind m (fun x => k))
  (at level 61, m at next level, right associativity).
Notation "m ;;; k" := (bind m (fun _ => k))
  (at level 61, right associativity).

(** The value a computation returns, and what it appends to the console. *)
Definition result_of {A} (m : Js A) (c : console) : outcome A := fst (m c).
Definition console_after {A} (m : Js A) (c : console) : console := snd (m c).

(** ** Data model ([src/lib/schemas.ts]) *)

Record RoiInputsType : Type := {
  nPeople : number;
  costPerHour : number;
  hoursSavedPerPersonPerMonth : number;
  errorCostAnnual : number;
  errorReductionPct : number;
  cloudSpendAnnual : number;
  cloudReductionPct : number;
  riskCostAnnual : number;
  riskReductionPct : number;
  licenseCostAnnual : number;
  implementationOneTime : number
}.

Record RoiScenarioType : Type := {
  totalBenefit : number;
  year1Net : number;
  roiPct : number;
  paybackMonths : number
}.

Record RoiOutputType : Type := {
  low : RoiScenarioType;
  mostLikely : RoiScenarioType;
  high : RoiScenarioType
}.

(** The zod schema [RoiInputs]: [z.number()] rejects [NaN], [.min(0)] and
    [.max(1)] are [>=] and [<=], [.int()] is [Number.isInteger]. *)
Definition RoiInputs_parse_ok (i : RoiInputsType) : bool :=
  Number_isInteger i.(nPeople) && (1 <=? i.(nPeople)) &&
  (0 <=? i.(costPerHour)) &&
  (0 <=? i.(hoursSavedPerPersonPerMonth)) &&
  (0 <=? i.(errorCostAnnual)) &&
  ((0 <=? i.(errorReductionPct)) && (i.(errorReductionPct) <=? 1)) &&
  (0 <=? i.(cloudSpendAnnual)) &&
  ((0 <=? i.(cloudReductionPct)) && (i.(cloudReductionPct) <=? 1)) &&
  (0 <=? i.(riskCostAnnual)) &&
  ((0 <=? i.(riskReductionPct)) && (i.(riskReductionPct) <=? 1)) &&
  (0 <=? i.(licenseCostAnnual)) &&
  (0 <=? i.(implementationOneTime)).

(** ** [calculateScenario] *)

(** The local constants of [calculateScenario], in the order of the source. *)
Module Scenario.

Definition laborSavings (inputs : RoiInputsType) : number :=
  inputs.(nPeople) * inputs.(hoursSavedPerPersonPerMonth) * 12 * inputs.(costPerHour).

Definition qualitySavings (inputs : RoiInputsType) : number :=
  inputs.(errorCostAnnual) * inputs.(errorReductionPct).

Definition cloudSavings (inputs : RoiInputsType) : number :=
  inputs.(cloudSpendAnnual) * inputs.(cloudReductionPct).

Definition riskAvoidance (inputs : RoiInputsType) : number :=
  inputs.(riskCostAnnual) * inputs.(riskReductionPct).

Definition totalBenefit (inputs : RoiInputsType) : number :=
  laborSavings inputs + qualitySavings inputs + cloudSavings inputs + riskAvoidance inputs.

Definition totalCosts (inputs : RoiInputsType) : number :=
  inputs.(licenseCostAnnual) + inputs.(implementationOneTime).

Definition year1Net (inputs : RoiInputsType) : number :=
  totalBenefit inputs - totalCosts inputs.

Definition roiPct (inputs : RoiInputsType) : number :=
  if 0 <? totalCosts inputs
  then ((totalBenefit inputs - totalCosts inputs) / totalCosts inputs) * 100
  else 0.

Definition monthlyBenefit (inputs : RoiInputsType) : number :=
  totalBenefit inputs / 12.

Definition paybackMonths (inputs : RoiInputsType) : number :=
  if 0 <? monthlyBenefit inputs
  then totalCosts inputs / monthlyBenefit inputs
  else Infinity.

End Scenario.

Definition calculateScenario (inputs : RoiInputsType) : Js RoiScenarioType :=
  console_log (LogScenario (Scenario.totalBenefit inputs) (Scenario.roiPct inputs)) ;;;
  ret {| totalBenefit := Math_round (Scenario.totalBenefit inputs);
         year1Net := Math_round (Scenario.year1Net inputs);
         roiPct := Math_round (Scenario.roiPct inputs * 10) / 10;
         paybackMonths := Math_round (Scenario.paybackMonths inputs * 10) / 10 |}.

(** ** [scaleInputs] *)

Definition scaleInputs (inputs : RoiInputsType) (scaleFactor : number) : RoiInputsType :=
  {| nPeople := inputs.(nPeople);
     costPerHour := inputs.(costPerHour);
     hoursSavedPerPersonPerMonth := inputs.(hoursSavedPerPersonPerMonth) * scaleFactor;
     errorCostAnnual := inputs.(errorCostAnnual);
     errorReductionPct := Math_min 1 (inputs.(errorReductionPct) * scaleFactor);
     cloudSpendAnnual := inputs.(cloudSpendAnnual);
     cloudReductionPct := Math_min 1 (inputs.(cloudReductionPct) * scaleFactor);
     riskCostAnnual := inputs.(riskCostAnnual);
     riskReductionPct := Math_min 1 (inputs.(riskReductionPct) * scaleFactor);
     licenseCostAnnual := inputs.(licenseCostAnnual);
     implementationOneTime := inputs.(implementationOneTime) |}.

(** ** [calculateRoiScenarios] *)

Definition calculateRoiScenarios (inputs : RoiInputsType) : Js RoiOutputType :=
  console_log LogStarting ;;;
  (if inputs.(nPeople) <=? 0
   then throw (Error "Number of people must be greater than 0")
   else ret tt) ;;;
  (if inputs.(costPerHour) <? 0
   then throw (Error "Cost per hour cannot be negative")
   else ret tt) ;;;
  lowScenario <- calculateScenario (scaleInputs inputs 0.75) ;;
  mostLikelyScenario <- calculateScenario inputs ;;
  highScenario <- calculateScenario (scaleInputs inputs 1.25) ;;
  let result := {| low := lowScenario;
                   mostLikely := mostLikelyScenario;
                   high := highScenario |} in
  console_log LogCompleted ;;;
  ret result.

(** ** [validateRoiInputs] *)

(** [warnings.push(w)] on the local array. *)
Definition push (warnings : list string) (w : string) : list string :=
  warnings ++ [w].

Definition validateRoiInputs (inputs : RoiInputsType) : list string :=
  let warnings := [] in
  let warnings :=
    if 160 <? inputs.(hoursSavedPerPersonPerMonth)
    then push warnings "Hours saved per month seems high (>160 hours)"
    else warnings in
  let warnings :=
    if 200 <? inputs.(costPerHour)
    then push warnings "Cost per hour seems high (>$200)"
    else warnings in
  let warnings :=
    if 0.9 <? inputs.(errorReductionPct)
    then push warnings "Error reduction >90% may be optimistic"
    else warnings in
  let warnings :=
    if 0.5 <? inputs.(cloudReductionPct)
    then push warnings "Cloud cost reduction >50% may be optimistic"
    else warnings in
  let warnings :=
    if 0.8 <? inputs.(riskReductionPct)
    then push warnings "Risk reduction >80% may be optimistic"
    else warnings in
  let totalPotentialBenefit :=
    inputs.(nPeople) * inputs.(hoursSavedPerPersonPerMonth) * 12 * inputs.(costPerHour) +
    inputs.(errorCostAnnual) * inputs.(errorReductionPct) +
    inputs.(cloudSpendAnnual) * inputs.(cloudReductionPct) +
    inputs.(riskCostAnnual) * inputs.(riskReductionPct) in
  let warnings :=
    if totalPotentialBenefit <? inputs.(licenseCostAnnual)
    then push warnings "Total benefits may not justify license costs"
    else warnings in
  warnings.

(** A record the schema accepts that saves nothing. *)
Definition no_benefit_inputs : RoiInputsType :=
  {| nPeople := 1;
     costPerHour := 0;
     hoursSavedPerPersonPerMonth := 0;
     errorCostAnnual := 0;
     errorReductionPct := 0;
     cloudSpendAnnual := 0;
     cloudReductionPct := 0;
     riskCostAnnual := 0;
     riskReductionPct := 0;
     licenseCostAnnual := 1000;
     implementationOneTime := 0 |}.

(** * Display and error reporting *)

(** ** [formatRoiScenario] ([src/lib/roi-calculator.ts]) *)

(** The object [formatRoiScenario] returns: the four fields of the scenario
    (the spread [...scenario]) and the four display strings. *)
Module Formatted.
Record t : Type := {
  totalBenefit : number;
  year1Net : number;
  roiPct : number;
  paybackMonths : number;
  totalBenefitFormatted : string;
  year1NetFormatted : string;
  roiPctFormatted : string;
  paybackMonthsFormatted : string
}.
End Formatted.

Section Formatting.

(** Two built-ins are parameters: [format] of the formatter
    [new Intl.NumberFormat('en-US', {style: 'currency', currency: 'USD',
    minimumFractionDigits: 0})], and the string a template literal makes of a
    number. *)
Variable Intl_NumberFormat_format : number -> string.
Variable Number_toString : number -> string.

Definition formatRoiScenario (scenario : RoiScenarioType) : Formatted.t :=
  {| Formatted.totalBenefit := scenario.(totalBenefit);
     Formatted.year1Net := scenario.(year1Net);
     Formatted.roiPct := scenario.(roiPct);
     Formatted.paybackMonths := scenario.(paybackMonths);
     Formatted.totalBenefitFormatted := Intl_NumberFormat_format scenario.(totalBenefit);
     Formatted.year1NetFormatted := Intl_NumberFormat_format scenario.(year1Net);
     Formatted.roiPctFormatted := (Number_toString scenario.(roiPct) ++ "%")%string;
     Formatted.paybackMonthsFormatted :=
       if scenario.(paybackMonths) =? Infinity
       then "Never"%string
       else (Number_toString scenario.(paybackMonths) ++ " months")%string |}.

End Formatting.

(** ** Error responses ([src/lib/errors.ts]) *)

(** [String.prototype.includes]. *)
Fixpoint includes (s searchString : string) : bool :=
  prefix searchString s ||
  match s with
  | EmptyString => false
  | String _ s' => includes s' searchString
  end.

(** [Array.prototype.join] on strings. *)
Definition join (sep : string) (l : list string) : string := String.concat sep l.

(** The body of a problem response; a field that the spread leaves out is
    [None]. *)
Record ProblemDetails : Type := {
  type : string;
  title : string;
  status : number;
  detail : option string;
  instance : option string
}.

(** What [NextResponse.json(body, init)] is given: the body, [init.status]
    and [init.headers]. *)
Record NextResponse (B : Type) : Type := {
  body : B;
  init_status : number;
  init_headers : list (string * string)
}.
Arguments body {B} _.
Arguments init_status {B} _.
Arguments init_headers {B} _.

(** [...(x && { x })] for an optional string [x]: the field is there when
    [x] is a non-empty string, [undefined] and the empty string being
    falsy. *)
Definition spread_if_truthy (x : option string) : option string :=
  match x with
  | Some EmptyString => None
  | Some s => Some s
  | None => None
  end.

(** An issue of a [ZodError]; the elements of [path] are kept as the strings
    that [join] makes of them. *)
Record ZodIssue : Type := {
  path : list string;
  issue_message : string
}.

(** The values a [catch] clause may receive, as [handleApiError] tells them
    apart. *)
Inductive unknown : Type :=
| IsZodError (errors : list ZodIssue)
| IsError (e : JsError)
| NotAnError.

(** What the module writes with [console.error]. *)
Inductive error_line : Type :=
| LogApiError (status : number) (title : string) (detail instance : option string)
| LogUnhandled (error : unknown).

Definition stderr := list error_line.

Definition problemResponse (status : number) (title : string)
    (detail instance : option string) (log : stderr)
  : NextResponse ProblemDetails * stderr :=
  let response := {| type := "about:blank";
                     title := title;
                     status := status;
                     detail := spread_if_truthy detail;
                     instance := spread_if_truthy instance |} in
  let log := log ++ [LogApiError status title detail instance] in
  ({| body := response;
      init_status := status;
      init_headers := [("Content-Type", "application/problem+json")]%string |}, log).

Definition handleValidationError (errors : list ZodIssue) (instance : option string)
    (log : stderr) : NextResponse ProblemDetails * stderr :=
  let fieldErrors := map (fun err => (join "." err.(path), err.(issue_message))) errors in
  let detail :=
    ("Validation failed: " ++
     join ", " (map (fun e => fst e ++ ": " ++ snd e) fieldErrors))%string in
  problemResponse 400 "Validation Error" (Some detail) instance log.

Definition error_message (e : JsError) : string :=
  match e with Error message => message end.

(** [NODE_ENV] is [process.env.NODE_ENV]. *)
Definition handleApiError (NODE_ENV : option string) (error : unknown)
    (instance : option string) (log : stderr) : NextResponse ProblemDetails * stderr :=
  let log := log ++ [LogUnhandled error] in
  match error with
  | IsZodError errors => handleValidationError errors instance log
  | IsError e =>
      if match NODE_ENV with Some v => (v =? "production")%string | None => false end
      then problemResponse 500 "Internal Server Error" None instance log
      else if includes (error_message e) "Unauthorized"
      then problemResponse 401 "Unauthorized" (Some (error_message e)) instance log
      else if includes (error_message e) "Forbidden"
      then problemResponse 403 "Forbidden" (Some (error_message e)) instance log
      else problemResponse 500 "Internal Server Error" (Some (error_message e)) instance log
  | NotAnError => problemResponse 500 "Internal Server Error" None instance log
  end.

(** * Stored scenarios: [JSON.stringify] and [JSON.parse]

    The route [POST /api/projects/[id]/roi] stores each scenario as
    [JSON.stringify(roiOutput.low)] and the route [GET] reads it back with
    [JSON.parse]; [deepClone] of [src/lib/utils.ts] composes the two. *)

Set Warnings "-register-all".

(** The values these calls handle: plain data.  An object is the list of
    its own properties in the order of their enumeration; there are no
    functions, symbols, BigInts, cycles or objects with a [toJSON] method
    (on the first four [JSON.stringify] throws or returns [undefined], and
    the last it replaces by what the method returns). *)
Inductive JsValue : Type :=
| VUndefined
| VNull
| VBoolean (b : bool)
| VNumber (x : number)
| VString (s : string)
| VArray (elements : list JsValue)
| VObject (properties : list (string * JsValue)).

(** A JSON text, as its syntax tree.  A number literal is the shortest
    decimal that reads back as the double it was printed from, so a tree
    stands for one text and one value; the grammar has no literal for [NaN],
    the infinities or [-0]. *)
Inductive Json : Type :=
| JNull
| JBoolean (b : bool)
| JNumber (x : number)
| JString (s : string)
| JArray (elements : list Json)
| JObject (members : list (string * Json)).

(** [JSON.stringify(value)]; [None] is the result [undefined].  A number that
    is not finite is written [null] and [-0] is written [0]; in an array
    [undefined] is written [null]; in an object a property whose value is
    [undefined] is left out. *)
Fixpoint JSON_stringify (value : JsValue) : option Json :=
  match value with
  | VUndefined => None
  | VNull => Some JNull
  | VBoolean b => Some (JBoolean b)
  | VNumber x =>
      Some (if Number_isFinite x then JNumber (if x =? 0 then 0 else x) else JNull)
  | VString s => Some (JString s)
  | VArray elements =>
      Some (JArray (map (fun e => match JSON_stringify e with
                                  | Some j => j
                                  | None => JNull
                                  end) elements))
  | VObject properties =>
      Some (JObject (flat_map (fun p => match JSON_stringify (snd p) with
                                        | Some j => [(fst p, j)]
                                        | None => []
                                        end) properties))
  end.

(** [JSON.parse(text)] on a well-formed text whose objects have their keys
    once each and in the order of enumeration, as in every text
    [JSON_stringify] writes. *)
Fixpoint JSON_parse (text : Json) : JsValue :=
  match text with
  | JNull => VNull
  | JBoolean b => VBoolean b
  | JNumber x => VNumber x
  | JString s => VString s
  | JArray elements => VArray (map JSON_parse elements)
  | JObject members => VObject (map (fun m => (fst m, JSON_parse (snd m))) members)
  end.

(** [deepClone] ([src/lib/utils.ts]): [JSON.parse(JSON.stringify(obj))], on
    plain data.  When [JSON.stringify] returns [undefined], [JSON.parse] is
    given the text "undefined" and throws a [SyntaxError]: [None]. *)
Definition deepClone (obj : JsValue) : option JsValue :=
  match JSON_stringify obj with
  | Some text => Some (JSON_parse text)
  | None => None
  end.

(** A scenario as the object it is. *)
Definition scenario_object (s : RoiScenarioType) : JsValue :=
  VObject [("totalBenefit", VNumber s.(totalBenefit));
           ("year1Net", VNumber s.(year1Net));
           ("roiPct", VNumber s.(roiPct));
           ("paybackMonths", VNumber s.(paybackMonths))]%string.

(** [object[key]]. *)
Fixpoint lookup (key : string) (properties : list (string * JsValue)) : JsValue :=
  match properties with
  | [] => VUndefined
  | (k, v) :: rest => if (k =? key)%string then v else lookup key rest
  end.

Definition get (object : JsValue) (key : string) : JsValue :=
  match object with
  | VObject properties => lookup key properties
  | _ => VUndefined
  end.

(** * Consumers of the ROI output *)

Section Consumers.

(** [calculateCompleteness] and [validateOutreachRequirements] read only the
    lengths of the arrays they are given and whether [roiOutput] is there;
    the types of the elements are parameters. *)
Variables ProjectType EvidenceItem PainType StakeholderType OutreachAssetType : Type.

(** ** [calculateCompleteness] ([src/lib/export-generator.ts]) *)

Record ExportData : Type := {
  project : ProjectType;
  evidence : list EvidenceItem;
  pains : list PainType;
  stakeholders : list StakeholderType;
  outreachAssets : list OutreachAssetType;
  roiOutput : option RoiOutputType
}.

Definition calculateCompleteness (data : ExportData) : number :=
  let score := 0 in
  let maxScore := 100 in
  let score := if (1 <=? List.length data.(evidence))%nat then score + 10 else score in
  let score := if (3 <=? List.length data.(evidence))%nat then score + 10 else score in
  let score := if (5 <=? List.length data.(evidence))%nat then score + 10 else score in
  let score := if (1 <=? List.length data.(pains))%nat then score + 15 else score in
  let score := if (3 <=? List.length data.(pains))%nat then score + 10 else score in
  let score := match data.(roiOutput) with Some _ => score + 20 | None => score end in
  let score := if (1 <=? List.length data.(stakeholders))%nat then score + 10 else score in
  let score := if (3 <=? List.length data.(stakeholders))%nat then score + 5 else score in
  let score := if (1 <=? List.length data.(outreachAssets))%nat then score + 10 else score in
  Math_min score maxScore.

(** ** [validateOutreachRequirements] ([src/lib/outreach-generator.ts]) *)

Record OutreachRequirements : Type := {
  req_pains : list PainType;
  req_stakeholders : list StakeholderType;
  req_roiOutput : option RoiOutputType
}.

Definition validateOutreachRequirements (projectData : OutreachRequirements) : list string :=
  let errors := [] in
  let errors :=
    if (List.length projectData.(req_pains) =? 0)%nat
    then push errors "At least one pain point is required for outreach generation"
    else errors in
  let errors :=
    if (List.length projectData.(req_stakeholders) =? 0)%nat
    then push errors "At least one stakeholder is required for outreach generation"
    else errors in
  let errors :=
    match projectData.(req_roiOutput) with
    | None => push errors "ROI calculation is required for economic outreach generation"
    | Some _ => errors
    end in
  errors.

End Consumers.

Arguments project {_ _ _ _ _} _.
Arguments evidence {_ _ _ _ _} _.
Arguments pains {_ _ _ _ _} _.
Arguments stakeholders {_ _ _ _ _} _.
Arguments outreachAssets {_ _ _ _ _} _.
Arguments roiOutput {_ _ _ _ _} _.
Arguments calculateCompleteness {_ _ _ _ _} data.
Arguments req_pains {_ _} _.
Arguments req_stakeholders {_ _} _.
Arguments req_roiOutput {_ _} _.
Arguments validateOutreachRequirements {_ _} projectData.

(** * Outreach generation ([src/lib/outreach-generator.ts]) *)

(** The two enumerations of [@prisma/client] the module imports; at run time
    a member is the string of its name. *)
Inductive OutreachKind : Type :=
| email_economic | email_technical | email_user | linkedin_dm.

Inductive PersonaType : Type :=
| Economic_Decider | Technical_Evaluator | User_Owner | Compliance_Procurement.

Definition OutreachKind_name (kind : OutreachKind) : string :=
  match kind with
  | email_economic => "email_economic"
  | email_technical => "email_technical"
  | email_user => "email_user"
  | linkedin_dm => "linkedin_dm"
  end.

Definition PersonaType_name (persona : PersonaType) : string :=
  match persona with
  | Economic_Decider => "Economic_Decider"
  | Technical_Evaluator => "Technical_Evaluator"
  | User_Owner => "User_Owner"
  | Compliance_Procurement => "Compliance_Procurement"
  end.

Definition OutreachKind_eqb (a b : OutreachKind) : bool :=
  (OutreachKind_name a =? OutreachKind_name b)%string.

Definition PersonaType_eqb (a b : PersonaType) : bool :=
  (PersonaType_name a =? PersonaType_name b)%string.

(** ** The templates *)

Module Template.
Record t : Type := { subject : string; body : string }.
End Template.

Definition email_economic_Economic_Decider : Template.t :=
  {| Template.subject :=
"ROI Analysis: {{productCategory}} opportunity at {{companyName}}";
     Template.body :=
"Hi {{stakeholderName}},

I've been researching {{companyName}} and identified some compelling opportunities for {{productCategory}} optimization.

**Key Business Impact:**
{{#pains}}
• {{name}}: {{impactNote}} ({{userGroup}})
{{/pains}}

**Financial Analysis:**
• Most likely ROI: {{roiPct}}% with {{paybackMonths}} month payback
• Year 1 net benefit: {{year1Net}}
• Conservative scenario still delivers {{lowRoiPct}}% ROI

**Why This Matters Now:**
{{#assumptions}}
• {{.}}
{{/assumptions}}

I'd love to discuss how we can help {{companyName}} capture this value. Are you available for a 15-minute call this week?

Best regards,
{{senderName}}

---
Sources: {{#sources}}{{.}}, {{/sources}}" |}.

Definition email_economic_Technical_Evaluator : Template.t :=
  {| Template.subject :=
"Technical deep-dive: {{productCategory}} implementation at {{companyName}}";
     Template.body :=
"Hi {{stakeholderName}},

I've been analyzing {{companyName}}'s technical landscape and see some interesting opportunities for {{productCategory}} integration.

**Technical Challenges Identified:**
{{#pains}}
• {{name}}: {{impactNote}}
{{/pains}}

**Implementation Considerations:**
{{#assumptions}}
• {{.}}
{{/assumptions}}

**Expected Outcomes:**
• {{roiPct}}% efficiency improvement
• {{paybackMonths}} month implementation timeline
• Measurable impact on {{businessMetrics}}

Would you be interested in a technical demo showing how we address these specific challenges?

Best,
{{senderName}}

---
Analysis based on: {{#sources}}{{.}}, {{/sources}}" |}.

Definition linkedin_dm_Economic_Decider : Template.t :=
  {| Template.subject :=
"Quick question about {{companyName}}'s {{productCategory}} strategy";
     Template.body :=
"Hi {{stakeholderName}},

Noticed {{companyName}}'s focus on {{#pains}}{{name}}{{/pains}}. We've helped similar companies achieve {{roiPct}}% ROI with {{paybackMonths}} month payback.

Worth a brief chat?

{{senderName}}" |}.

(** [OUTREACH_TEMPLATES], with the keys in the order of the object literal. *)
Definition OUTREACH_TEMPLATES : list (OutreachKind * list (PersonaType * Template.t)) :=
  [(email_economic, [(Economic_Decider, email_economic_Economic_Decider);
                     (Technical_Evaluator, email_economic_Technical_Evaluator)]);
   (linkedin_dm, [(Economic_Decider, linkedin_dm_Economic_Decider)])].

(** [OUTREACH_TEMPLATES[kind]]; [None] is [undefined]. *)
Fixpoint templates_of (kind : OutreachKind)
  (table : list (OutreachKind * list (PersonaType * Template.t)))
  : option (list (PersonaType * Template.t)) :=
  match table with
  | [] => None
  | (k, templates) :: rest =>
      if OutreachKind_eqb k kind then Some templates else templates_of kind rest
  end.

(** [templates[persona]]. *)
Fixpoint template_of (persona : PersonaType) (templates : list (PersonaType * Template.t))
  : option Template.t :=
  match templates with
  | [] => None
  | (p, template) :: rest =>
      if PersonaType_eqb p persona then Some template else template_of persona rest
  end.

(** ** [getAvailableOutreachTypes] *)

Definition getAvailableOutreachTypes (persona : PersonaType) : list OutreachKind :=
  fold_left (fun available entry =>
               match template_of persona (snd entry) with
               | Some _ => available ++ [fst entry]
               | None => available
               end)
            OUTREACH_TEMPLATES [].

(** ** [generateOutreachAsset] *)

(** The records the function reads: a stakeholder, a pain, the project data
    and the asset it returns. *)
Module Stakeholder.
Record t : Type := {
  id : string;
  projectId : string;
  name : string;
  title : string;
  persona : PersonaType;
  goals : list string;
  objections : list string;
  proofPoints : list string;
  handleUrl : option string;
  createdAt : string;
  updatedAt : string
}.
End Stakeholder.

Module Pain.
Record t : Type := {
  id : string;
  projectId : string;
  name : string;
  userGroup : string;
  evidenceIds : list string;
  businessMetric : string;
  impactNote : string;
  confidence : number;
  createdAt : string;
  updatedAt : string
}.
End Pain.

(** [roiOutput] is what the caller passes: the route
    [POST /api/projects/[id]/outreach] builds it from three [JSON.parse]
    results, so it is held as a value of the language, with [VUndefined] for
    an absent property. *)
Module ProjectData.
Record t : Type := {
  companyName : string;
  productCategory : string;
  pains : list Pain.t;
  roiOutput : JsValue;
  sources : list string
}.
End ProjectData.

Module Generated.
Record t : Type := {
  subject : string;
  body : string;
  assumptions : list string;
  sources : list string
}.
End Generated.

(** The two lines the function logs. *)
Inductive outreach_line : Type :=
| LogGenerating (kind : OutreachKind) (persona : PersonaType) (companyName : string)
| LogGenerated (kind : OutreachKind) (stakeholderName : string).

Definition newline : string := String (Ascii.ascii_of_nat 10) EmptyString.

(** Sequencing of computations that may throw. *)
Definition and_then {A B} (m : outcome A) (k : A -> outcome B) : outcome B :=
  match m with
  | Returned a => k a
  | Thrown e => Thrown e
  end.

(** Truthiness of a value. *)
Definition truthy (value : JsValue) : bool :=
  match value with
  | VUndefined | VNull => false
  | VBoolean b => b
  | VNumber x => negb ((x =? 0) || Number_isNaN x)
  | VString s => negb (s =? EmptyString)%string
  | VArray _ | VObject _ => true
  end.

Section Outreach.

(** Built-ins that are parameters: [x.toFixed(1)] on a number; [format] of the
    formatter of [formatCurrency]; [s.replace(regex, replacement)] for a
    global regular expression given by its source; the message of the
    [TypeError] the engine raises when the property [key] of [value] cannot
    be read or called. *)
Variable Number_toFixed_1 : number -> string.
Variable Intl_NumberFormat_format : JsValue -> string.
Variable String_replace : string -> string -> string -> string.
Variable TypeError_message : JsValue -> string -> string.

(** [formatCurrency], the copy local to the module. *)
Definition formatCurrency (amount : JsValue) : string := Intl_NumberFormat_format amount.

(** [object.key], which throws on [null] and [undefined]. *)
Definition member (object : JsValue) (key : string) : outcome JsValue :=
  match object with
  | VUndefined | VNull => Thrown (Error (TypeError_message object key))
  | _ => Returned (get object key)
  end.

(** [value.toFixed(1)]: only a number has the method. *)
Definition toFixed_1 (value : JsValue) : outcome string :=
  match value with
  | VNumber x => Returned (Number_toFixed_1 x)
  | _ => Thrown (Error (TypeError_message value "toFixed"))
  end.

(** [roiOutput?.scenario.field.toFixed(1)]; [None] is [undefined]. *)
Definition optional_toFixed (roiOutput : JsValue) (scenario field : string)
  : outcome (option string) :=
  match roiOutput with
  | VUndefined | VNull => Returned None
  | _ => and_then (member (get roiOutput scenario) field) (fun value =>
         and_then (toFixed_1 value) (fun s => Returned (Some s)))
  end.

(** [roiOutput?.mostLikely.year1Net]. *)
Definition optional_year1Net (roiOutput : JsValue) : outcome JsValue :=
  match roiOutput with
  | VUndefined | VNull => Returned VUndefined
  | _ => member (get roiOutput "mostLikely") "year1Net"
  end.

(** [s || 'TBD']. *)
Definition or_TBD (s : option string) : string :=
  match s with
  | None | Some EmptyString => "TBD"
  | Some s => s
  end.

(** The object [templateVars], as its entries in the order of the literal. *)
Definition templateVars (stakeholder : Stakeholder.t) (projectData : ProjectData.t)
  (senderName : string) : outcome (list (string * string)) :=
  let roiOutput := projectData.(ProjectData.roiOutput) in
  and_then (optional_toFixed roiOutput "mostLikely" "roiPct") (fun roiPct =>
  and_then (optional_toFixed roiOutput "low" "roiPct") (fun lowRoiPct =>
  and_then (optional_toFixed roiOutput "mostLikely" "paybackMonths") (fun paybackMonths =>
  and_then (optional_year1Net roiOutput) (fun year1Net =>
  Returned
    [("stakeholderName", stakeholder.(Stakeholder.name));
     ("companyName", projectData.(ProjectData.companyName));
     ("productCategory", projectData.(ProjectData.productCategory));
     ("senderName", senderName);
     ("roiPct", or_TBD roiPct);
     ("lowRoiPct", or_TBD lowRoiPct);
     ("paybackMonths", or_TBD paybackMonths);
     ("year1Net", formatCurrency (if truthy year1Net then year1Net else VNumber 0));
     ("businessMetrics", join ", " (map Pain.businessMetric projectData.(ProjectData.pains)))]%string)))).

(** The three assumptions of every asset and the first two goals of the
    stakeholder. *)
Definition assumptions_of (stakeholder : Stakeholder.t) (projectData : ProjectData.t)
  : list string :=
  [(projectData.(ProjectData.companyName) ++ " is actively investing in "
    ++ projectData.(ProjectData.productCategory) ++ " solutions")%string;
   "Current manual processes are creating inefficiencies"%string;
   "ROI calculations based on industry benchmarks and public information"%string]
  ++ firstn 2 stakeholder.(Stakeholder.goals).

Definition generateOutreachAsset (kind : OutreachKind) (stakeholder : Stakeholder.t)
  (projectData : ProjectData.t) (senderName : option string) (c : list outreach_line)
  : outcome Generated.t * list outreach_line :=
  let senderName := match senderName with Some s => s | None => "Sales Team"%string end in
  let c := c ++ [LogGenerating kind stakeholder.(Stakeholder.persona)
                   projectData.(ProjectData.companyName)] in
  match templates_of kind OUTREACH_TEMPLATES with
  | None =>
      (Thrown (Error ("No templates found for outreach kind: " ++ OutreachKind_name kind)), c)
  | Some templates =>
  match template_of stakeholder.(Stakeholder.persona) templates with
  | None =>
      (Thrown (Error ("No template found for persona: "
                      ++ PersonaType_name stakeholder.(Stakeholder.persona)
                      ++ " and kind: " ++ OutreachKind_name kind)), c)
  | Some template =>
  match templateVars stakeholder projectData senderName with
  | Thrown e => (Thrown e, c)
  | Returned vars =>
      let subject := template.(Template.subject) in
      let body := template.(Template.body) in
      let '(subject, body) :=
        fold_left (fun sb entry =>
                     let regex := ("{{" ++ fst entry ++ "}}")%string in
                     (String_replace (fst sb) regex (snd entry),
                      String_replace (snd sb) regex (snd entry)))
                  vars (subject, body) in
      let body :=
        if (0 <? List.length projectData.(ProjectData.pains))%nat
        then
          let painsList :=
            join newline
              (map (fun pain => ("• " ++ pain.(Pain.name) ++ ": " ++ pain.(Pain.impactNote)
                                 ++ " (" ++ pain.(Pain.userGroup) ++ ")")%string)
                   projectData.(ProjectData.pains)) in
          String_replace body "{{#pains}}[\s\S]*?{{\/pains}}" painsList
        else
          String_replace body "{{#pains}}[\s\S]*?{{\/pains}}"
            "• [Pain points to be identified during research]" in
      let assumptions := assumptions_of stakeholder projectData in
      let assumptionsList :=
        join newline (map (fun assumption => ("• " ++ assumption)%string) assumptions) in
      let body := String_replace body "{{#assumptions}}[\s\S]*?{{\/assumptions}}" assumptionsList in
      let sourcesList := join ", " (firstn 5 projectData.(ProjectData.sources)) in
      let body := String_replace body "{{#sources}}[\s\S]*?{{\/sources}}" sourcesList in
      (Returned {| Generated.subject := subject;
                   Generated.body := body;
                   Generated.assumptions := assumptions;
                   Generated.sources := projectData.(ProjectData.sources) |},
       c ++ [LogGenerated kind stakeholder.(Stakeholder.name)])
  end end end.

End Outreach.

(** ** The ROI output the outreach route passes

    [POST /api/projects/[id]/outreach] reads the three scenarios the ROI route
    stored as JSON texts and passes the object of the three parsed values. *)
Definition parsed_roiOutput (lowScenario mostLikelyScenario highScenario : Json) : JsValue :=
  VObject [("low", JSON_parse lowScenario);
           ("mostLikely", JSON_parse mostLikelyScenario);
           ("high", JSON_parse highScenario)]%string.

(** An economic decider, and the project data the route passes when the three
    stored scenarios are those of [no_benefit_inputs]. *)
Definition example_stakeholder : Stakeholder.t :=
  {| Stakeholder.id := "s1"; Stakeholder.projectId := "p1";
     Stakeholder.name := "Ada"; Stakeholder.title := "CFO";
     Stakeholder.persona := Economic_Decider;
     Stakeholder.goals := ["Lower costs"%string];
     Stakeholder.objections := []; Stakeholder.proofPoints := [];
     Stakeholder.handleUrl := None;
     Stakeholder.createdAt := "2024-01-01"; Stakeholder.updatedAt := "2024-01-01" |}.

Definition no_benefit_text : Json :=
  JObject [("totalBenefit", JNumber 0); ("year1Net", JNumber (-1000));
           ("roiPct", JNumber (-100)); ("paybackMonths", JNull)]%string.

Definition no_benefit_projectData : ProjectData.t :=
  {| ProjectData.companyName := "Acme"; ProjectData.productCategory := "Tools";
     ProjectData.pains := [];
     ProjectData.roiOutput := parsed_roiOutput no_benefit_text no_benefit_text no_benefit_text;
     ProjectData.sources := [] |}.

(** ** The worked example of the specification *)

Definition example_inputs : RoiInputsType :=
  {| nPeople := 10;
     costPerHour := 50;
     hoursSavedPerPersonPerMonth := 5;
     errorCostAnnual := 100000;
     errorReductionPct := 0.3;
     cloudSpendAnnual := 50000;
     cloudReductionPct := 0.2;
     riskCostAnnual := 20000;
     riskReductionPct := 0.5;
     licenseCostAnnual := 60000;
     implementationOneTime := 10000 |}.

Definition with_costPerHour (c : number) (i : RoiInputsType) : RoiInputsType :=
  {| nPeople := i.(nPeople);
     costPerHour := c;
     hoursSavedPerPersonPerMonth := i.(hoursSavedPerPersonPerMonth);
     errorCostAnnual := i.(errorCostAnnual);
     errorReductionPct := i.(errorReductionPct);
     cloudSpendAnnual := i.(cloudSpendAnnual);
     cloudReductionPct := i.(cloudReductionPct);
     riskCostAnnual := i.(riskCostAnnual);
     riskReductionPct := i.(riskReductionPct);
     licenseCostAnnual := i.(licenseCostAnnual);
     implementationOneTime := i.(implementationOneTime) |}.

Definition with_nPeople (n : number) (i : RoiInputsType) : RoiInputsType :=
  {| nPeople := n;
     costPerHour := i.(costPerHour);
     hoursSavedPerPersonPerMonth := i.(hoursSavedPerPersonPerMonth);
     errorCostAnnual := i.(errorCostAnnual);
     errorReductionPct := i.(errorReductionPct);
     cloudSpendAnnual := i.(cloudSpendAnnual);
     cloudReductionPct := i.(cloudReductionPct);
     riskCostAnnual := i.(riskCostAnnual);
     riskReductionPct := i.(riskReductionPct);
     licenseCostAnnual := i.(licenseCostAnnual);
     implementationOneTime := i.(implementationOneTime) |}.

Definition with_costs (license implementation : number) (i : RoiInputsType) : RoiInputsType :=
  {| nPeople := i.(nPeople);
     costPerHour := i.(costPerHour);
     hoursSavedPerPersonPerMonth := i.(hoursSavedPerPersonPerMonth);
     errorCostAnnual := i.(errorCostAnnual);
     errorReductionPct := i.(errorReductionPct);
     cloudSpendAnnual := i.(cloudSpendAnnual);
     cloudReductionPct := i.(cloudReductionPct);
     riskCostAnnual := i.(riskCostAnnual);
     riskReductionPct := i.(riskReductionPct);
     licenseCostAnnual := license;
     implementationOneTime := implementation |}.

Definition with_errorReductionPct (p : number) (i : RoiInputsType) : RoiInputsType :=
  {| nPeople := i.(nPeople);
     costPerHour := i.(costPerHour);
     hoursSavedPerPersonPerMonth := i.(hoursSavedPerPersonPerMonth);
     errorCostAnnual := i.(errorCostAnnual);
     errorReductionPct := p;
     cloudSpendAnnual := i.(cloudSpendAnnual);
     cloudReductionPct := i.(cloudReductionPct);
     riskCostAnnual := i.(riskCostAnnual);
     riskReductionPct := i.(riskReductionPct);
     licenseCostAnnual := i.(licenseCostAnnual);
     implementationOneTime := i.(implementationOneTime) |}.

(** A record the schema accepts whose labour product overflows:
    [1 * 1e308 * 12] is [Infinity], and [Infinity * 0] is [NaN]. *)
Definition overflow_inputs : RoiInputsType :=
  {| nPeople := 1;
     costPerHour := 0;
     hoursSavedPerPersonPerMonth := 1e308;
     errorCostAnnual := 0;
     errorReductionPct := 0;
     cloudSpendAnnual := 0;
     cloudReductionPct := 0;
     riskCostAnnual := 0;
     riskReductionPct := 0;
     licenseCostAnnual := 0;
     implementationOneTime := 0 |}.

(** A record the schema accepts with a tiny benefit and a huge licence cost:
    the quotient [totalCosts / monthlyBenefit] overflows. *)
Definition payback_overflow_inputs : RoiInputsType :=
  {| nPeople := 1;
     costPerHour := 0;
     hoursSavedPerPersonPerMonth := 0;
     errorCostAnnual := 1e-300;
     errorReductionPct := 1;
     cloudSpendAnnual := 0;
     cloudReductionPct := 0;
     riskCostAnnual := 0;
     riskReductionPct := 0;
     licenseCostAnnual := 1e308;
     implementationOneTime := 0 |}.

(** A record the schema accepts whose benefit and whose costs both overflow
    to [Infinity]. *)
Definition payback_nan_inputs : RoiInputsType :=
  {| nPeople := 1;
     costPerHour := 1;
     hoursSavedPerPersonPerMonth := 1e308;
     errorCostAnnual := 0;
     errorReductionPct := 0;
     cloudSpendAnnual := 0;
     cloudReductionPct := 0;
     riskCostAnnual := 0;
     riskReductionPct := 0;
     licenseCostAnnual := 1e308;
     implementationOneTime := 1e308 |}.

(** A record the schema accepts whose benefit, one unit of [2^-1074], is not
    zero but whose monthly benefit underflows to zero. *)
Definition payback_underflow_inputs : RoiInputsType :=
  {| nPeople := 1;
     costPerHour := 0;
     hoursSavedPerPersonPerMonth := 0;
     errorCostAnnual := 5e-324;
     errorReductionPct := 1;
     cloudSpendAnnual := 0;
     cloudReductionPct := 0;
     riskCostAnnual := 0;
     riskReductionPct := 0;
     licenseCostAnnual := 1000;
     implementationOneTime := 0 |}.

(** * Binary64 rounding

    The primitive operations are specified by the functions of [SpecFloat] on the
    decoded values.  This part characterises the rounding they share,
    [binary_round_aux], on integers, and derives its monotonicity. *)

Section Binary64.

Local Open Scope Z_scope.

(** ** Number of binary digits *)

Lemma digits2_pos_lower (m : positive) :
  2 ^ (Zpos (digits2_pos m) - 1) <= Zpos m.
Proof.
  induction m as [p IH|p IH|]; simpl digits2_pos.
  - rewrite Pos2Z.inj_succ.
    replace (Z.succ (Zpos (digits2_pos p)) - 1) with (Z.succ (Zpos (digits2_pos p) - 1)) by lia.
    rewrite Z.pow_succ_r by lia. lia.
  - rewrite Pos2Z.inj_succ.
    replace (Z.succ (Zpos (digits2_pos p)) - 1) with (Z.succ (Zpos (digits2_pos p) - 1)) by lia.
    rewrite Z.pow_succ_r by lia. lia.
  - reflexivity.
Qed.

Lemma digits2_pos_upper (m : positive) :
  Zpos m < 2 ^ Zpos (digits2_pos m).
Proof.
  induction m as [p IH|p IH|]; simpl digits2_pos.
  - rewrite Pos2Z.inj_succ, Z.pow_succ_r by lia. lia.
  - rewrite Pos2Z.inj_succ, Z.pow_succ_r by lia. lia.
  - reflexivity.
Qed.

(** [digits2_pos] is the unique [d] with [2^(d-1) <= m < 2^d]. *)
Lemma digits2_pos_unique (m : positive) (d : Z) :
  2 ^ (d - 1) <= Zpos m < 2 ^ d -> Zpos (digits2_pos m) = d.
Proof.
  intros [L U].
  pose proof (digits2_pos_lower m) as L'. pose proof (digits2_pos_upper m) as U'.
  destruct (Z.lt_trichotomy (Zpos (digits2_pos m)) d) as [H|[H|H]]; [exfalso|exact H|exfalso].
  - assert (2 ^ Zpos (digits2_pos m) <= 2 ^ (d - 1)) by (apply Z.pow_le_mono_r; lia). lia.
  - assert (0 <= d \/ d < 0) as [D|D] by lia.
    + assert (2 ^ d <= 2 ^ (Zpos (digits2_pos m) - 1)) by (apply Z.pow_le_mono_r; lia). lia.
    + rewrite (Z.pow_neg_r 2 d) in U by lia. lia.
Qed.

Lemma digits2_pos_le (m : positive) (d : Z) :
  Zpos m < 2 ^ d -> Zpos (digits2_pos m) <= d.
Proof.
  intros U. pose proof (digits2_pos_lower m) as L.
  destruct (Z.le_gt_cases (Zpos (digits2_pos m)) d) as [H|H]; [exact H|exfalso].
  assert (0 <= d \/ d < 0) as [D|D] by lia.
  - assert (2 ^ d <= 2 ^ (Zpos (digits2_pos m) - 1)) by (apply Z.pow_le_mono_r; lia). lia.
  - rewrite (Z.pow_neg_r 2 d) in U by lia. lia.
Qed.

Lemma digits2_pos_ge (m : positive) (d : Z) :
  2 ^ (d - 1) <= Zpos m -> d <= Zpos (digits2_pos m).
Proof.
  intros L. pose proof (digits2_pos_upper m) as U.
  destruct (Z.le_gt_cases d (Zpos (digits2_pos m))) as [H|H]; [exact H|exfalso].
  assert (2 ^ Zpos (digits2_pos m) <= 2 ^ (d - 1)) by (apply Z.pow_le_mono_r; lia). lia.
Qed.

(** ** Shifting right with a round bit and a sticky bit *)

(** The record reached from [M] after [k] one-bit shifts: the quotient, and
    the position of the remainder with respect to the half. *)
Definition shr_inv (M k : Z) (r : shr_record) : Prop :=
  shr_m r = M / 2 ^ k /\
  (shr_r r = true <-> 2 ^ k <= 2 * (M mod 2 ^ k)) /\
  (shr_s r = true <-> M mod 2 ^ k <> 0 /\ 2 * (M mod 2 ^ k) <> 2 ^ k).

Lemma shr_1_spec (m : Z) (r s : bool) :
  0 <= m ->
  shr_1 (Build_shr_record m r s) = Build_shr_record (m / 2) (Z.odd m) (r || s).
Proof.
  intros H. destruct m as [|[p|p|]|p]; try lia; unfold shr_1.
  - reflexivity.
  - f_equal. rewrite Pos2Z.inj_xI. apply (Zdiv_unique _ _ _ 1); lia.
  - f_equal. rewrite Pos2Z.inj_xO. apply (Zdiv_unique _ _ _ 0); lia.
  - reflexivity.
Qed.

Lemma shr_inv_init (M : Z) : shr_inv M 0 (Build_shr_record M false false).
Proof.
  unfold shr_inv. cbn [shr_m shr_r shr_s]. rewrite Z.pow_0_r, Z.div_1_r, Z.mod_1_r. repeat split; try lia; try discriminate.
Qed.

Lemma shr_inv_step (M k : Z) (rec : shr_record) :
  0 <= M -> 0 <= k -> shr_inv M k rec -> shr_inv M (k + 1) (shr_1 rec).
Proof.
  intros HM Hk (Hm & Hr & Hs). destruct rec as [m r s]. cbn [shr_m shr_r shr_s] in Hm, Hr, Hs.
  assert (P : 0 < 2 ^ k) by (apply Z.pow_pos_nonneg; lia).
  assert (Q : 2 ^ (k + 1) = 2 * 2 ^ k) by (rewrite Z.pow_add_r by lia; lia).
  pose proof (Z.div_mod M (2 ^ k) ltac:(lia)) as DM.
  pose proof (Z.mod_pos_bound M (2 ^ k) P) as BM.
  assert (Nm : 0 <= m) by (subst m; apply Z.div_pos; lia).
  rewrite shr_1_spec by exact Nm.
  pose proof (Z.div_mod m 2 ltac:(lia)) as Dm.
  pose proof (Z.mod_pos_bound m 2 ltac:(lia)) as Bm.
  assert (E : M = 2 ^ (k + 1) * (m / 2) + (M mod 2 ^ k + 2 ^ k * (m mod 2))) by (rewrite Q; nia).
  assert (Dq : M / 2 ^ (k + 1) = m / 2).
  { symmetry. apply (Zdiv_unique _ _ _ (M mod 2 ^ k + 2 ^ k * (m mod 2))); [nia | exact E]. }
  assert (Dr : M mod 2 ^ (k + 1) = M mod 2 ^ k + 2 ^ k * (m mod 2)).
  { symmetry. apply (Zmod_unique _ _ (m / 2)); [nia | exact E]. }
  unfold shr_inv. cbn [shr_m shr_r shr_s]. rewrite Dr, Dq, Q.
  assert (O : Z.odd m = true <-> m mod 2 = 1).
  { rewrite Zodd_mod. split; intros H; [apply Z.eqb_eq in H; exact H | apply Z.eqb_eq; exact H]. }
  split; [reflexivity|].
  assert (B2 : m mod 2 = 0 \/ m mod 2 = 1) by lia.
  clear DM Dm E Dq Dr Q Hm.
  generalize dependent (M mod 2 ^ k). generalize dependent (2 ^ k).
  intros T PT a Hr Hs Ba.
  split.
  - rewrite O. destruct B2 as [B2|B2]; rewrite B2; split; intros H; lia.
  - rewrite orb_true_iff. split.
    + intros [H|H].
      * subst r. destruct Hr as [Hr _]. specialize (Hr eq_refl).
        destruct B2 as [B2|B2]; rewrite B2; lia.
      * apply Hs in H. destruct H as [H1 H2].
        destruct B2 as [B2|B2]; rewrite B2; lia.
    + intros [H1 H2].
      destruct r; [now left|right]. apply Hs.
      assert (~ T <= 2 * a) by (intros C; apply Hr in C; discriminate C).
      destruct B2 as [B2|B2]; rewrite B2 in H1, H2; lia.
Qed.

Lemma shr_inv_iter (M : Z) (p : positive) :
  0 <= M ->
  forall (k : Z) (rec : shr_record),
    0 <= k -> shr_inv M k rec -> shr_inv M (k + Zpos p) (iter_pos shr_1 p rec).
Proof.
  intros HM. induction p as [p IH|p IH|]; intros k rec Hk H; simpl iter_pos.
  - replace (k + Zpos p~1) with (k + 1 + Zpos p + Zpos p) by lia.
    apply IH; [lia|]. apply IH; [lia|]. apply shr_inv_step; assumption.
  - replace (k + Zpos p~0) with (k + Zpos p + Zpos p) by lia.
    apply IH; [lia|]. apply IH; assumption.
  - apply shr_inv_step; assumption.
Qed.

(** ** Round to nearest, ties to even *)

(** [M / 2^k] rounded to the nearest integer, ties to even. *)
Definition rne_div (M k : Z) : Z :=
  let q := M / 2 ^ k in
  let r := M mod 2 ^ k in
  if 2 * r <? 2 ^ k then q
  else if 2 * r =? 2 ^ k then (if Z.even q then q else q + 1)
  else q + 1.

Lemma round_nearest_even_shr (M k : Z) (rec : shr_record) :
  0 <= k -> shr_inv M k rec ->
  round_nearest_even (shr_m rec) (loc_of_shr_record rec) = rne_div M k.
Proof.
  intros Hk (Hm & Hr & Hs). unfold rne_div. rewrite <- Hm.
  assert (P : 0 < 2 ^ k) by (apply Z.pow_pos_nonneg; lia).
  pose proof (Z.mod_pos_bound M (2 ^ k) P) as BM.
  destruct rec as [m r s]. cbn [shr_m shr_r shr_s] in *.
  unfold loc_of_shr_record, round_nearest_even.
  destruct (2 * (M mod 2 ^ k) <? 2 ^ k) eqn:A.
  - apply Z.ltb_lt in A.
    destruct r; [assert (2 ^ k <= 2 * (M mod 2 ^ k)) by (now apply Hr); lia|].
    destruct s; reflexivity.
  - apply Z.ltb_ge in A. assert (R : r = true) by (now apply Hr). subst r.
    destruct (2 * (M mod 2 ^ k) =? 2 ^ k) eqn:B.
    + apply Z.eqb_eq in B.
      destruct s; [assert (M mod 2 ^ k <> 0 /\ 2 * (M mod 2 ^ k) <> 2 ^ k) by (now apply Hs); lia|].
      reflexivity.
    + apply Z.eqb_neq in B.
      assert (S : s = true) by (apply Hs; lia).
      subst s. reflexivity.
Qed.

(** ** The exponent of the format *)

Lemma fexp_eq (e : Z) : fexp prec emax e = Z.max (e - 53) (-1074).
Proof. reflexivity. Qed.

(** ** [binary_round_aux] on an exact positive mantissa *)

(** The last step of the rounding: renormalise a carry out of the 53 bits,
    then sort zero, finite and overflow. *)
Definition finish (s : bool) (m1 e' : Z) : spec_float :=
  let m2 := if m1 =? 2 ^ 53 then 2 ^ 52 else m1 in
  let e2 := if m1 =? 2 ^ 53 then e' + 1 else e' in
  match m2 with
  | Z0 => S754_zero s
  | Zpos p => if e2 <=? 971 then S754_finite s p e2 else S754_infinity s
  | Zneg _ => S754_nan
  end.

Lemma rne_div_bounds (M k : Z) :
  0 <= M -> 0 <= k -> M / 2 ^ k <= rne_div M k <= M / 2 ^ k + 1.
Proof.
  intros HM Hk. unfold rne_div.
  destruct (2 * (M mod 2 ^ k) <? 2 ^ k); [lia|].
  destruct (2 * (M mod 2 ^ k) =? 2 ^ k); [destruct (Z.even (M / 2 ^ k)); lia | lia].
Qed.

Lemma div_pow2_lt (M d k : Z) :
  0 <= M -> 0 <= k -> M < 2 ^ d -> d - k <= 53 -> M / 2 ^ k < 2 ^ 53.
Proof.
  intros HM Hk U D.
  assert (0 <= d \/ d < 0) as [Hd|Hd] by lia.
  - apply Z.div_lt_upper_bound; [apply Z.pow_pos_nonneg; lia|].
    rewrite <- Z.pow_add_r by lia.
    eapply Z.lt_le_trans; [exact U|]. apply Z.pow_le_mono_r; lia.
  - rewrite Z.pow_neg_r in U by lia. lia.
Qed.

Lemma Zdigits2_pos (p : positive) : Zdigits2 (Zpos p) = Zpos (digits2_pos p).
Proof. reflexivity. Qed.

Lemma shr_exact_inv (M e k : Z) :
  0 <= M -> 0 <= k ->
  exists rec, shr (Build_shr_record M false false) e k = (rec, e + k) /\ shr_inv M k rec.
Proof.
  intros HM Hk. destruct k as [|p|p]; try lia.
  - exists (Build_shr_record M false false). split.
    + unfold shr. rewrite Z.add_0_r. reflexivity.
    + apply shr_inv_init.
  - exists (iter_pos shr_1 p (Build_shr_record M false false)). split.
    + reflexivity.
    + apply (shr_inv_iter M p HM 0); [lia | apply shr_inv_init].
Qed.

Lemma shr_none (rec : shr_record) (e n : Z) : n <= 0 -> shr rec e n = (rec, e).
Proof. intros H. destruct n; try reflexivity. lia. Qed.

Lemma binary_round_aux_exact (s : bool) (m : positive) (e : Z) :
  e <= fexp prec emax (Zpos (digits2_pos m) + e) ->
  binary_round_aux prec emax s (Zpos m) e loc_Exact
  = finish s (rne_div (Zpos m) (fexp prec emax (Zpos (digits2_pos m) + e) - e))
             (fexp prec emax (Zpos (digits2_pos m) + e)).
Proof.
  intros He. set (e' := fexp prec emax (Zpos (digits2_pos m) + e)) in *.
  unfold binary_round_aux, shr_fexp. rewrite Zdigits2_pos. fold e'.
  unfold shr_record_of_loc at 1.
  destruct (shr_exact_inv (Zpos m) e (e' - e)) as (rec & E & I); [lia|lia|].
  rewrite E. replace (e + (e' - e)) with e' by lia.
  rewrite (round_nearest_even_shr (Zpos m) (e' - e) rec ltac:(lia) I).
  pose proof (rne_div_bounds (Zpos m) (e' - e) ltac:(lia) ltac:(lia)) as B.
  assert (Q : Zpos m / 2 ^ (e' - e) < 2 ^ 53).
  { apply (div_pow2_lt _ (Zpos (digits2_pos m))); try lia.
    - apply digits2_pos_upper.
    - unfold e'. rewrite fexp_eq. lia. }
  assert (Q0 : 0 <= Zpos m / 2 ^ (e' - e)) by (apply Z.div_pos; [lia | apply Z.pow_pos_nonneg; lia]).
  assert (Emin : -1074 <= e') by (unfold e'; rewrite fexp_eq; lia).
  generalize dependent (rne_div (Zpos m) (e' - e)). intros m1 B.
  unfold finish. unfold shr_record_of_loc.
  destruct (m1 =? 2 ^ 53) eqn:C.
  - apply Z.eqb_eq in C. subst m1.
    change (Zdigits2 (2 ^ 53)) with 54. rewrite fexp_eq.
    replace (Z.max (54 + e' - 53) (-1074) - e') with 1 by lia.
    reflexivity.
  - apply Z.eqb_neq in C.
    destruct m1 as [|p|p]; try lia.
    + rewrite shr_none; [reflexivity|]. change (Zdigits2 0) with 0. rewrite fexp_eq. lia.
    + rewrite shr_none; [reflexivity|]. rewrite Zdigits2_pos, fexp_eq.
      assert (Zpos (digits2_pos p) <= 53) by (apply digits2_pos_le; lia). lia.
Qed.

(** ** Monotonicity of the rounding *)

Lemma rne_div_mono (Ma Mb k : Z) :
  0 <= k -> Ma <= Mb -> rne_div Ma k <= rne_div Mb k.
Proof.
  intros Hk H. unfold rne_div.
  assert (P : 0 < 2 ^ k) by (apply Z.pow_pos_nonneg; lia).
  pose proof (Z.div_mod Ma (2 ^ k) ltac:(lia)) as Da.
  pose proof (Z.div_mod Mb (2 ^ k) ltac:(lia)) as Db.
  pose proof (Z.mod_pos_bound Ma (2 ^ k) P) as Ba.
  pose proof (Z.mod_pos_bound Mb (2 ^ k) P) as Bb.
  pose proof (Z.div_le_mono Ma Mb (2 ^ k) P H) as Q.
  generalize dependent (Ma mod 2 ^ k). generalize dependent (Mb mod 2 ^ k).
  intros rb Db Bb ra Da Ba.
  destruct (Z.eq_dec (Ma / 2 ^ k) (Mb / 2 ^ k)) as [E|E].
  - rewrite E in *. generalize dependent (2 ^ k * (Mb / 2 ^ k)). intros tq Db Da.
    destruct (2 * ra <? 2 ^ k) eqn:A1; destruct (2 * rb <? 2 ^ k) eqn:B1;
      destruct (2 * ra =? 2 ^ k) eqn:A2; destruct (2 * rb =? 2 ^ k) eqn:B2;
      destruct (Z.even (Mb / 2 ^ k)); lia.
  - destruct (2 * ra <? 2 ^ k); destruct (2 * rb <? 2 ^ k);
      destruct (2 * ra =? 2 ^ k); destruct (2 * rb =? 2 ^ k);
      destruct (Z.even (Ma / 2 ^ k)); destruct (Z.even (Mb / 2 ^ k)); lia.
Qed.

Lemma rne_div_scale (M k j : Z) :
  0 <= k -> 0 <= j -> rne_div (M * 2 ^ j) (k + j) = rne_div M k.
Proof.
  intros Hk Hj. unfold rne_div.
  assert (P : 0 < 2 ^ k) by (apply Z.pow_pos_nonneg; lia).
  assert (Pj : 0 < 2 ^ j) by (apply Z.pow_pos_nonneg; lia).
  rewrite Z.pow_add_r by lia.
  rewrite Z.div_mul_cancel_r by lia.
  rewrite Z.mul_mod_distr_r by lia.
  replace (2 * (M mod 2 ^ k * 2 ^ j)) with (2 * (M mod 2 ^ k) * 2 ^ j) by ring.
  assert (L : (2 * (M mod 2 ^ k) * 2 ^ j <? 2 ^ k * 2 ^ j) = (2 * (M mod 2 ^ k) <? 2 ^ k)).
  { destruct (2 * (M mod 2 ^ k) <? 2 ^ k) eqn:A.
    - apply Z.ltb_lt. apply Z.ltb_lt in A. nia.
    - apply Z.ltb_ge. apply Z.ltb_ge in A. nia. }
  assert (Q : (2 * (M mod 2 ^ k) * 2 ^ j =? 2 ^ k * 2 ^ j) = (2 * (M mod 2 ^ k) =? 2 ^ k)).
  { destruct (2 * (M mod 2 ^ k) =? 2 ^ k) eqn:A.
    - apply Z.eqb_eq. apply Z.eqb_eq in A. nia.
    - apply Z.eqb_neq. apply Z.eqb_neq in A. nia. }
  rewrite L, Q. reflexivity.
Qed.

(** The order [SFleb] on the results of [finish]. *)
Lemma finish_le (ma ea mb eb : Z) :
  0 <= ma <= 2 ^ 53 -> 0 <= mb <= 2 ^ 53 ->
  (ea = eb /\ ma <= mb) \/ (ea < eb /\ 2 ^ 52 <= mb) ->
  SFleb (finish false ma ea) (finish false mb eb) = true.
Proof.
  change (2 ^ 53) with 9007199254740992. change (2 ^ 52) with 4503599627370496.
  intros Ha Hb H. unfold finish.
  change (2 ^ 53) with 9007199254740992. change (2 ^ 52) with 4503599627370496.
  destruct (ma =? 9007199254740992) eqn:A; destruct (mb =? 9007199254740992) eqn:B;
    [apply Z.eqb_eq in A | apply Z.eqb_eq in A | apply Z.eqb_neq in A | apply Z.eqb_neq in A];
    [apply Z.eqb_eq in B | apply Z.eqb_neq in B | apply Z.eqb_eq in B | apply Z.eqb_neq in B].
  - (* both carry *)
    destruct (ea + 1 <=? 971) eqn:Oa; destruct (eb + 1 <=? 971) eqn:Ob;
      try reflexivity.
    + unfold SFleb, SFcompare.
      destruct (Z.compare_spec (ea + 1) (eb + 1)); try reflexivity. lia.
    + apply Z.leb_le in Ob. apply Z.leb_gt in Oa. lia.
  - (* a carries, b does not *)
    destruct mb as [|pb|pb]; try lia.
    destruct (ea + 1 <=? 971) eqn:Oa; destruct (eb <=? 971) eqn:Ob; try reflexivity.
    + unfold SFleb, SFcompare.
      destruct (Z.compare_spec (ea + 1) eb) as [E|E|E]; try reflexivity; [|lia].
      destruct (Pos.compare_cont Eq 4503599627370496 pb) eqn:C; try reflexivity.
      apply Pos.compare_gt_iff, Pos2Z.pos_lt_pos in C. lia.
    + apply Z.leb_le in Ob. apply Z.leb_gt in Oa. lia.
  - (* b carries, a does not *)
    destruct ma as [|pa|pa]; try lia.
    + destruct (eb + 1 <=? 971); reflexivity.
    + destruct (ea <=? 971) eqn:Oa; destruct (eb + 1 <=? 971) eqn:Ob; try reflexivity.
      * unfold SFleb, SFcompare.
        destruct (Z.compare_spec ea (eb + 1)) as [E|E|E]; try reflexivity; lia.
      * apply Z.leb_le in Ob. apply Z.leb_gt in Oa. lia.
  - (* neither carries *)
    destruct ma as [|pa|pa]; try lia.
    + destruct mb as [|pb|pb]; try lia; [reflexivity|].
      destruct (eb <=? 971); reflexivity.
    + destruct mb as [|pb|pb]; try lia.
      destruct (ea <=? 971) eqn:Oa; destruct (eb <=? 971) eqn:Ob; try reflexivity.
      * unfold SFleb, SFcompare.
        destruct (Z.compare_spec ea eb) as [E|E|E]; try reflexivity; [|lia].
        destruct (Pos.compare_cont Eq pa pb) eqn:C; try reflexivity.
        apply Pos.compare_gt_iff, Pos2Z.pos_lt_pos in C. lia.
      * apply Z.leb_le in Ob. apply Z.leb_gt in Oa. lia.
Qed.

Lemma two_pow_pos (k : Z) : 0 <= k -> 0 < 2 ^ k.
Proof. intros H. apply Z.pow_pos_nonneg; lia. Qed.

Lemma rne_div_range (m : positive) (e e' : Z) :
  e <= e' -> Zpos (digits2_pos m) + e - 53 <= e' ->
  0 <= rne_div (Zpos m) (e' - e) <= 2 ^ 53.
Proof.
  intros He Hd.
  pose proof (rne_div_bounds (Zpos m) (e' - e) ltac:(lia) ltac:(lia)) as B.
  assert (Q : Zpos m / 2 ^ (e' - e) < 2 ^ 53).
  { apply (div_pow2_lt _ (Zpos (digits2_pos m))); try lia. apply digits2_pos_upper. }
  assert (Q0 : 0 <= Zpos m / 2 ^ (e' - e)) by (apply Z.div_pos; [lia | apply two_pow_pos; lia]).
  lia.
Qed.

(** Values with a larger magnitude have at least as many digits. *)
Lemma magnitude_le (ma mb : positive) (ea eb e0 : Z) :
  e0 <= ea -> e0 <= eb ->
  Zpos ma * 2 ^ (ea - e0) <= Zpos mb * 2 ^ (eb - e0) ->
  Zpos (digits2_pos ma) + ea <= Zpos (digits2_pos mb) + eb.
Proof.
  intros Ha Hb H.
  pose proof (digits2_pos_lower ma) as La. pose proof (digits2_pos_upper mb) as Ub.
  pose proof (two_pow_pos (ea - e0) ltac:(lia)) as Pa.
  pose proof (two_pow_pos (eb - e0) ltac:(lia)) as Pb.
  assert (A : 2 ^ (Zpos (digits2_pos ma) - 1 + (ea - e0)) <= Zpos ma * 2 ^ (ea - e0)).
  { rewrite Z.pow_add_r by lia. apply Z.mul_le_mono_nonneg_r; lia. }
  assert (B : Zpos mb * 2 ^ (eb - e0) < 2 ^ (Zpos (digits2_pos mb) + (eb - e0))).
  { rewrite Z.pow_add_r by lia. apply Z.mul_lt_mono_pos_r; lia. }
  assert (C : 2 ^ (Zpos (digits2_pos ma) - 1 + (ea - e0)) < 2 ^ (Zpos (digits2_pos mb) + (eb - e0))) by lia.
  apply Z.pow_lt_mono_r_iff in C; lia.
Qed.

(** Rounding is monotone in the value [m * 2^e]. *)
Lemma binary_round_aux_mono (ma mb : positive) (ea eb e0 : Z) :
  e0 <= ea -> e0 <= eb ->
  ea <= fexp prec emax (Zpos (digits2_pos ma) + ea) ->
  eb <= fexp prec emax (Zpos (digits2_pos mb) + eb) ->
  Zpos ma * 2 ^ (ea - e0) <= Zpos mb * 2 ^ (eb - e0) ->
  SFleb (binary_round_aux prec emax false (Zpos ma) ea loc_Exact)
        (binary_round_aux prec emax false (Zpos mb) eb loc_Exact) = true.
Proof.
  intros Ha Hb Pa Pb H.
  rewrite !binary_round_aux_exact by assumption.
  pose proof (magnitude_le _ _ _ _ _ Ha Hb H) as Mg.
  rewrite !fexp_eq in *.
  set (da := Zpos (digits2_pos ma)) in *. set (db := Zpos (digits2_pos mb)) in *.
  set (e'a := Z.max (da + ea - 53) (-1074)) in *.
  set (e'b := Z.max (db + eb - 53) (-1074)) in *.
  assert (Le : e'a <= e'b) by (unfold e'a, e'b; lia).
  pose proof (rne_div_range ma ea e'a Pa ltac:(unfold e'a, da; lia)) as Ra.
  pose proof (rne_div_range mb eb e'b Pb ltac:(unfold e'b, db; lia)) as Rb.
  apply finish_le; try assumption.
  destruct (Z.eq_dec e'a e'b) as [E|E].
  - left. split; [exact E|].
    rewrite <- (rne_div_scale (Zpos ma) (e'a - ea) (ea - e0)) by lia.
    rewrite <- (rne_div_scale (Zpos mb) (e'b - eb) (eb - e0)) by lia.
    replace (e'a - ea + (ea - e0)) with (e'b - e0) by lia.
    replace (e'b - eb + (eb - e0)) with (e'b - e0) by lia.
    apply rne_div_mono; lia.
  - right. split; [lia|].
    assert (Eb : e'b = db + eb - 53) by (unfold e'b in *; unfold e'a in *; lia).
    pose proof (rne_div_bounds (Zpos mb) (e'b - eb) ltac:(lia) ltac:(lia)) as B.
    assert (Q : 2 ^ 52 <= Zpos mb / 2 ^ (e'b - eb)).
    { apply Z.div_le_lower_bound; [apply two_pow_pos; lia|].
      rewrite <- Z.pow_add_r by lia.
      replace (e'b - eb + 52) with (db - 1) by lia.
      apply digits2_pos_lower. }
    lia.
Qed.

(** Rounding a value that is already a double gives it back. *)
Lemma binary_round_aux_valid (m : positive) (e : Z) :
  bounded prec emax m e = true ->
  binary_round_aux prec emax false (Zpos m) e loc_Exact = S754_finite false m e.
Proof.
  intros V. unfold bounded, canonical_mantissa in V.
  apply andb_true_iff in V. destruct V as [C B].
  apply Z.eqb_eq in C. apply Z.leb_le in B.
  rewrite binary_round_aux_exact by lia.
  rewrite C, Z.sub_diag.
  assert (R : rne_div (Zpos m) 0 = Zpos m).
  { unfold rne_div. rewrite Z.pow_0_r, Z.div_1_r, Z.mod_1_r. reflexivity. }
  rewrite R. unfold finish.
  assert (D : Zpos (digits2_pos m) <= 53) by (rewrite fexp_eq in C; lia).
  pose proof (digits2_pos_lower m) as L.
  assert (N : (Zpos m =? 2 ^ 53) = false).
  { apply Z.eqb_neq. intros E.
    assert (54 <= Zpos (digits2_pos m)) by (apply digits2_pos_ge; rewrite E; reflexivity).
    lia. }
  rewrite N.
  change (emax - prec) with 971 in B.
  apply Z.leb_le in B. rewrite B. reflexivity.
Qed.

(** On doubles, the order of [SFleb] is the order of the values. *)
Lemma valid_leb_value (ma mb : positive) (ea eb e0 : Z) :
  bounded prec emax ma ea = true -> bounded prec emax mb eb = true ->
  SFleb (S754_finite false ma ea) (S754_finite false mb eb) = true ->
  e0 <= ea -> e0 <= eb ->
  Zpos ma * 2 ^ (ea - e0) <= Zpos mb * 2 ^ (eb - e0).
Proof.
  intros Va Vb L Ha Hb.
  unfold bounded, canonical_mantissa in Va, Vb.
  apply andb_true_iff in Va, Vb. destruct Va as [Ca _], Vb as [Cb _].
  apply Z.eqb_eq in Ca, Cb. rewrite fexp_eq in Ca, Cb.
  unfold SFleb, SFcompare in L.
  pose proof (two_pow_pos (ea - e0) ltac:(lia)) as Pa.
  pose proof (two_pow_pos (eb - e0) ltac:(lia)) as Pb.
  destruct (Z.compare_spec ea eb) as [E|E|E]; try discriminate L.
  - subst eb. apply Z.mul_le_mono_nonneg_r; [lia|].
    destruct (Pos.compare_cont Eq ma mb) eqn:C; try discriminate L.
    + apply Pos.compare_eq in C. subst. lia.
    + apply Pos.compare_lt_iff, Pos2Z.pos_lt_pos in C. lia.
  - pose proof (digits2_pos_upper ma) as Ua. pose proof (digits2_pos_lower mb) as Lb.
    assert (Db : Zpos (digits2_pos mb) = 53) by lia.
    rewrite Db in Lb. change (2 ^ (53 - 1)) with (2 ^ 52) in Lb.
    assert (Ua' : Zpos ma < 2 ^ 53).
    { eapply Z.lt_le_trans; [exact Ua|]. apply Z.pow_le_mono_r; lia. }
    assert (S : 2 ^ (eb - e0) = 2 ^ (eb - ea) * 2 ^ (ea - e0)).
    { rewrite <- Z.pow_add_r by lia. f_equal. lia. }
    assert (T : 2 <= 2 ^ (eb - ea)).
    { change 2 with (2 ^ 1) at 1. apply Z.pow_le_mono_r; lia. }
    rewrite S.
    change (2 ^ 53) with (2 * 2 ^ 52) in Ua'.
    nia.
Qed.

(** ** Non-negative values and the order *)

(** Zero of either sign, a positive finite value or [+Infinity]. *)
Definition SFnonneg (x : spec_float) : bool :=
  match x with
  | S754_zero _ => true
  | S754_infinity s => negb s
  | S754_nan => false
  | S754_finite s _ _ => negb s
  end.

Lemma SFleb_zero_nonneg (x : spec_float) :
  SFleb (S754_zero false) x = SFnonneg x.
Proof. destruct x as [s|s| |s m e]; try reflexivity; destruct s; reflexivity. Qed.

Lemma SFleb_zero_l (s : bool) (x : spec_float) :
  SFnonneg x = true -> SFleb (S754_zero s) x = true.
Proof. destruct x as [t|t| |t m e]; try discriminate; try reflexivity; destruct t; try discriminate; reflexivity. Qed.

Lemma SFleb_inf_r (x : spec_float) :
  SFnonneg x = true -> SFleb x (S754_infinity false) = true.
Proof. destruct x as [t|t| |t m e]; try discriminate; try reflexivity; destruct t; try discriminate; reflexivity. Qed.

Lemma SFleb_nonneg_r (x y : spec_float) :
  SFnonneg x = true -> SFleb x y = true -> SFnonneg y = true.
Proof.
  destruct x as [s|s| |s m e], y as [t|t| |t n f]; try discriminate; try reflexivity;
    destruct s; try discriminate; destruct t; try discriminate; reflexivity.
Qed.

Lemma SFleb_refl (x : spec_float) : x <> S754_nan -> SFleb x x = true.
Proof.
  intros H. unfold SFleb.
  destruct x as [s|s| |s m e]; try congruence; try (destruct s; reflexivity).
  unfold SFcompare. destruct s; rewrite Z.compare_refl, Pos.compare_cont_refl; reflexivity.
Qed.

Lemma SFleb_finite_iff (ma mb : positive) (ea eb : Z) :
  SFleb (S754_finite false ma ea) (S754_finite false mb eb) = true <->
  ea < eb \/ (ea = eb /\ Zpos ma <= Zpos mb).
Proof.
  unfold SFleb, SFcompare.
  change (Pos.compare_cont Eq ma mb) with (Pos.compare ma mb).
  destruct (Z.compare_spec ea eb) as [E|E|E].
  - destruct (Pos.compare_spec ma mb) as [C|C|C].
    + subst. split; [intros _; right; split; lia | reflexivity].
    + apply Pos2Z.pos_lt_pos in C. split; [intros _; right; split; lia | reflexivity].
    + apply Pos2Z.pos_lt_pos in C. split; [discriminate | lia].
  - split; [intros _; now left | reflexivity].
  - split; [discriminate | lia].
Qed.

Lemma SFleb_trans (x y z : spec_float) :
  SFnonneg x = true -> SFleb x y = true -> SFleb y z = true -> SFleb x z = true.
Proof.
  intros N A B.
  pose proof (SFleb_nonneg_r _ _ N A) as Ny.
  pose proof (SFleb_nonneg_r _ _ Ny B) as Nz.
  destruct x as [s|s| |s m e]; try discriminate N.
  - apply SFleb_zero_l. exact Nz.
  - destruct s; try discriminate N.
    destruct y as [t|t| |t n f]; try discriminate A; destruct t; try discriminate A.
    destruct z as [u|u| |u p g]; try discriminate B; destruct u; try discriminate B.
    reflexivity.
  - destruct s; try discriminate N.
    destruct y as [t|t| |t n f]; try discriminate Ny; destruct t; try discriminate A.
    + destruct z as [u|u| |u p g]; try discriminate B; destruct u; try discriminate B.
      reflexivity.
    + destruct z as [u|u| |u p g]; try discriminate Nz; destruct u; try discriminate B.
      * reflexivity.
      * apply SFleb_finite_iff in A, B. apply SFleb_finite_iff. lia.
Qed.

Lemma finish_nonneg (m e : Z) : 0 <= m -> SFnonneg (finish false m e) = true.
Proof.
  intros H. unfold finish.
  change (2 ^ 52) with 4503599627370496.
  destruct (m =? 2 ^ 53).
  - destruct (e + 1 <=? 971); reflexivity.
  - destruct m as [|p|p]; try lia; [reflexivity|].
    destruct (e <=? 971); reflexivity.
Qed.

Lemma binary_round_aux_nonneg (m : positive) (e : Z) :
  e <= fexp prec emax (Zpos (digits2_pos m) + e) ->
  SFnonneg (binary_round_aux prec emax false (Zpos m) e loc_Exact) = true.
Proof.
  intros H. rewrite binary_round_aux_exact by exact H.
  apply finish_nonneg.
  apply (rne_div_range m e); [exact H | rewrite fexp_eq; lia].
Qed.

(** ** Digits of products and of shifted mantissas *)

Lemma digits2_pos_mul (a b : positive) :
  Zpos (digits2_pos a) + Zpos (digits2_pos b) - 1 <= Zpos (digits2_pos (a * b)).
Proof.
  apply digits2_pos_ge.
  pose proof (digits2_pos_lower a) as La. pose proof (digits2_pos_lower b) as Lb.
  replace (Zpos (digits2_pos a) + Zpos (digits2_pos b) - 1 - 1)
    with ((Zpos (digits2_pos a) - 1) + (Zpos (digits2_pos b) - 1)) by lia.
  rewrite Z.pow_add_r by lia. rewrite Pos2Z.inj_mul.
  apply Z.mul_le_mono_nonneg; try assumption; apply Z.pow_nonneg; lia.
Qed.

Lemma digits2_pos_shift (m n : positive) (j : Z) :
  0 <= j -> Zpos n = Zpos m * 2 ^ j ->
  Zpos (digits2_pos n) = Zpos (digits2_pos m) + j.
Proof.
  intros Hj E. apply digits2_pos_unique. rewrite E.
  pose proof (digits2_pos_lower m) as L. pose proof (digits2_pos_upper m) as U.
  pose proof (two_pow_pos j Hj) as P.
  replace (Zpos (digits2_pos m) + j - 1) with ((Zpos (digits2_pos m) - 1) + j) by lia.
  rewrite !Z.pow_add_r by lia. split.
  - apply Z.mul_le_mono_nonneg_r; lia.
  - apply Z.mul_lt_mono_pos_r; lia.
Qed.

Lemma Pos_iter_xO (m d : positive) :
  Zpos (Pos.iter xO m d) = Zpos m * 2 ^ Zpos d.
Proof.
  induction d as [|d IH] using Pos.peano_ind.
  - simpl. lia.
  - rewrite Pos.iter_succ, Pos2Z.inj_xO, IH, Pos2Z.inj_succ, Z.pow_succ_r by lia. ring.
Qed.

(** [shl_align] keeps the value and lowers the exponent to the target. *)
Lemma shl_align_spec (m : positive) (e e' : Z) :
  snd (shl_align m e e') = Z.min e e' /\
  Zpos (fst (shl_align m e e')) = Zpos m * 2 ^ (e - Z.min e e').
Proof.
  unfold shl_align. destruct (e' - e) as [|d|d] eqn:D.
  - cbn [fst snd]. replace (Z.min e e') with e by lia.
    rewrite Z.sub_diag, Z.pow_0_r. split; lia.
  - cbn [fst snd]. replace (Z.min e e') with e by lia.
    rewrite Z.sub_diag, Z.pow_0_r. split; lia.
  - cbn [fst snd]. replace (Z.min e e') with e' by lia. split; [reflexivity|].
    rewrite Pos_iter_xO. f_equal. f_equal. lia.
Qed.

(** [binary_round] is [binary_round_aux] on an aligned mantissa of the same
    value. *)
Lemma binary_round_spec (m : positive) (e : Z) :
  exists (mz : positive) (ez : Z),
    binary_round prec emax false m e = binary_round_aux prec emax false (Zpos mz) ez loc_Exact /\
    ez <= fexp prec emax (Zpos (digits2_pos mz) + ez) /\
    ez = Z.min e (fexp prec emax (Zpos (digits2_pos m) + e)) /\
    Zpos mz = Zpos m * 2 ^ (e - ez).
Proof.
  unfold binary_round.
  pose proof (shl_align_spec m e (fexp prec emax (Zpos (digits2_pos m) + e))) as [S F].
  destruct (shl_align m e (fexp prec emax (Zpos (digits2_pos m) + e))) as [mz ez].
  cbn [fst snd] in S, F. exists mz, ez. split; [reflexivity|].
  assert (D : Zpos (digits2_pos mz) = Zpos (digits2_pos m) + (e - ez)).
  { apply digits2_pos_shift; [lia|]. rewrite F, S. reflexivity. }
  split; [|split].
  - rewrite D. replace (Zpos (digits2_pos m) + (e - ez) + ez) with (Zpos (digits2_pos m) + e) by lia.
    lia.
  - exact S.
  - rewrite F, S. reflexivity.
Qed.

(** ** What validity gives *)

Lemma bounded_facts (m : positive) (e : Z) :
  bounded prec emax m e = true ->
  e = Z.max (Zpos (digits2_pos m) + e - 53) (-1074) /\ e <= 971.
Proof.
  unfold bounded, canonical_mantissa. intros V.
  apply andb_true_iff in V. destruct V as [C B].
  apply Z.eqb_eq in C. apply Z.leb_le in B. rewrite fexp_eq in C.
  change (emax - prec) with 971 in B. lia.
Qed.

(** ** Multiplication *)

Lemma mul_precondition (mx my : positive) (ex ey : Z) :
  bounded prec emax mx ex = true -> bounded prec emax my ey = true ->
  ex + ey <= fexp prec emax (Zpos (digits2_pos (mx * my)) + (ex + ey)).
Proof.
  intros Vx Vy. apply bounded_facts in Vx, Vy.
  pose proof (digits2_pos_mul mx my) as D.
  pose proof (Pos2Z.is_pos (digits2_pos mx)). pose proof (Pos2Z.is_pos (digits2_pos my)).
  rewrite fexp_eq. lia.
Qed.

Lemma SFmul_finite (mx my : positive) (ex ey : Z) :
  SFmul prec emax (S754_finite false mx ex) (S754_finite false my ey)
  = binary_round_aux prec emax false (Zpos (mx * my)) (ex + ey) loc_Exact.
Proof. reflexivity. Qed.

Lemma SFmul_finite_mono (mx1 my1 mx2 my2 : positive) (ex1 ey1 ex2 ey2 : Z) :
  bounded prec emax mx1 ex1 = true -> bounded prec emax my1 ey1 = true ->
  bounded prec emax mx2 ex2 = true -> bounded prec emax my2 ey2 = true ->
  SFleb (S754_finite false mx1 ex1) (S754_finite false mx2 ex2) = true ->
  SFleb (S754_finite false my1 ey1) (S754_finite false my2 ey2) = true ->
  SFleb (SFmul prec emax (S754_finite false mx1 ex1) (S754_finite false my1 ey1))
        (SFmul prec emax (S754_finite false mx2 ex2) (S754_finite false my2 ey2)) = true.
Proof.
  intros Vx1 Vy1 Vx2 Vy2 Lx Ly. rewrite !SFmul_finite.
  pose proof (bounded_facts _ _ Vx1) as [Ex1 _]. pose proof (bounded_facts _ _ Vy1) as [Ey1 _].
  pose proof (bounded_facts _ _ Vx2) as [Ex2 _]. pose proof (bounded_facts _ _ Vy2) as [Ey2 _].
  pose proof (valid_leb_value _ _ _ _ (-1074) Vx1 Vx2 Lx ltac:(lia) ltac:(lia)) as A.
  pose proof (valid_leb_value _ _ _ _ (-1074) Vy1 Vy2 Ly ltac:(lia) ltac:(lia)) as B.
  apply (binary_round_aux_mono _ _ _ _ (-2148)); try lia;
    try (apply mul_precondition; assumption).
  replace (ex1 + ey1 - -2148) with ((ex1 - -1074) + (ey1 - -1074)) by lia.
  replace (ex2 + ey2 - -2148) with ((ex2 - -1074) + (ey2 - -1074)) by lia.
  rewrite !Z.pow_add_r, !Pos2Z.inj_mul by lia.
  pose proof (two_pow_pos (ex1 - -1074) ltac:(lia)). pose proof (two_pow_pos (ey1 - -1074) ltac:(lia)).
  replace (Zpos mx1 * Zpos my1 * (2 ^ (ex1 - -1074) * 2 ^ (ey1 - -1074)))
    with ((Zpos mx1 * 2 ^ (ex1 - -1074)) * (Zpos my1 * 2 ^ (ey1 - -1074))) by ring.
  replace (Zpos mx2 * Zpos my2 * (2 ^ (ex2 - -1074) * 2 ^ (ey2 - -1074)))
    with ((Zpos mx2 * 2 ^ (ex2 - -1074)) * (Zpos my2 * 2 ^ (ey2 - -1074))) by ring.
  apply Z.mul_le_mono_nonneg; lia.
Qed.

Lemma SFmul_nonneg (x y : spec_float) :
  valid_binary x = true -> valid_binary y = true ->
  SFnonneg x = true -> SFnonneg y = true ->
  SFmul prec emax x y <> S754_nan ->
  SFnonneg (SFmul prec emax x y) = true.
Proof.
  intros Vx Vy Nx Ny H.
  destruct x as [sx|sx| |sx mx ex], y as [sy|sy| |sy my ey];
    try discriminate Nx; try discriminate Ny;
    try reflexivity; try (exfalso; apply H; reflexivity);
    try (destruct sx; try discriminate Nx; destruct sy; try discriminate Ny; reflexivity).
  destruct sx; try discriminate Nx. destruct sy; try discriminate Ny.
  rewrite SFmul_finite. apply binary_round_aux_nonneg, mul_precondition; assumption.
Qed.

(** Multiplication of non-negative doubles is monotone in both factors,
    wherever it is defined. *)
Lemma SFmul_mono (x1 y1 x2 y2 : spec_float) :
  valid_binary x1 = true -> valid_binary y1 = true ->
  valid_binary x2 = true -> valid_binary y2 = true ->
  SFnonneg x1 = true -> SFnonneg y1 = true ->
  SFleb x1 x2 = true -> SFleb y1 y2 = true ->
  SFmul prec emax x1 y1 <> S754_nan -> SFmul prec emax x2 y2 <> S754_nan ->
  SFleb (SFmul prec emax x1 y1) (SFmul prec emax x2 y2) = true.
Proof.
  intros Vx1 Vy1 Vx2 Vy2 Nx1 Ny1 Lx Ly H1 H2.
  pose proof (SFleb_nonneg_r _ _ Nx1 Lx) as Nx2.
  pose proof (SFleb_nonneg_r _ _ Ny1 Ly) as Ny2.
  pose proof (SFmul_nonneg _ _ Vx1 Vy1 Nx1 Ny1 H1) as N1.
  pose proof (SFmul_nonneg _ _ Vx2 Vy2 Nx2 Ny2 H2) as N2.
  destruct x1 as [sx1|sx1| |sx1 mx1 ex1]; try discriminate Nx1.
  - (* x1 is a zero *)
    destruct y1 as [sy1|sy1| |sy1 my1 ey1]; try discriminate Ny1;
      try (exfalso; apply H1; reflexivity);
      apply SFleb_zero_l; exact N2.
  - (* x1 is +Infinity, so is x2 *)
    destruct sx1; try discriminate Nx1.
    destruct x2 as [sx2|sx2| |sx2 mx2 ex2]; try discriminate Lx.
    destruct sx2; try discriminate Lx.
    destruct y2 as [sy2|sy2| |sy2 my2 ey2]; try discriminate Ny2;
      try (exfalso; apply H2; reflexivity);
      destruct sy2; try discriminate Ny2; apply SFleb_inf_r; exact N1.
  - destruct sx1; try discriminate Nx1.
    destruct y1 as [sy1|sy1| |sy1 my1 ey1]; try discriminate Ny1.
    + apply SFleb_zero_l; exact N2.
    + (* y1 is +Infinity, so is y2 *)
      destruct sy1; try discriminate Ny1.
      destruct y2 as [sy2|sy2| |sy2 my2 ey2]; try discriminate Ly.
      destruct sy2; try discriminate Ly.
      destruct x2 as [sx2|sx2| |sx2 mx2 ex2]; try discriminate Nx2;
        try (exfalso; apply H2; reflexivity);
        destruct sx2; try discriminate Nx2; apply SFleb_inf_r; exact N1.
    + destruct sy1; try discriminate Ny1.
      destruct x2 as [sx2|sx2| |sx2 mx2 ex2]; try discriminate Lx;
        destruct sx2; try discriminate Lx;
        destruct y2 as [sy2|sy2| |sy2 my2 ey2]; try discriminate Ly;
        destruct sy2; try discriminate Ly;
        try (apply SFleb_inf_r; exact N1).
      apply SFmul_finite_mono; assumption.
Qed.

(** ** Positive values as roundings *)

(** [x] is the rounding of the positive value [m * 2^e]. *)
Definition rounds_from (x : spec_float) (m : positive) (e : Z) : Prop :=
  x = binary_round_aux prec emax false (Zpos m) e loc_Exact /\
  e <= fexp prec emax (Zpos (digits2_pos m) + e) /\
  -1074 <= e.

(** The value [m * 2^e] in units of [2^-1074]. *)
Definition units (m : positive) (e : Z) : Z := Zpos m * 2 ^ (e - -1074).

Lemma rounds_from_valid (m : positive) (e : Z) :
  bounded prec emax m e = true -> rounds_from (S754_finite false m e) m e.
Proof.
  intros V. pose proof (bounded_facts _ _ V) as [E _].
  split; [|split].
  - symmetry. apply binary_round_aux_valid. exact V.
  - rewrite fexp_eq. lia.
  - lia.
Qed.

Lemma rounds_from_mono (a b : spec_float) (ma mb : positive) (ea eb : Z) :
  rounds_from a ma ea -> rounds_from b mb eb ->
  units ma ea <= units mb eb -> SFleb a b = true.
Proof.
  intros (-> & Pa & La) (-> & Pb & Lb) H.
  apply (binary_round_aux_mono _ _ _ _ (-1074)); assumption.
Qed.

Lemma rounds_from_nonneg (a : spec_float) (m : positive) (e : Z) :
  rounds_from a m e -> SFnonneg a = true.
Proof. intros (-> & P & _). apply binary_round_aux_nonneg. exact P. Qed.

Lemma valid_leb_units (ma mb : positive) (ea eb : Z) :
  bounded prec emax ma ea = true -> bounded prec emax mb eb = true ->
  SFleb (S754_finite false ma ea) (S754_finite false mb eb) = true ->
  units ma ea <= units mb eb.
Proof.
  intros Va Vb L.
  pose proof (bounded_facts _ _ Va) as [Ea _]. pose proof (bounded_facts _ _ Vb) as [Eb _].
  apply valid_leb_value; try assumption; lia.
Qed.

Lemma units_pos (m : positive) (e : Z) : -1074 <= e -> 0 < units m e.
Proof. intros H. unfold units. pose proof (two_pow_pos (e - -1074) ltac:(lia)). nia. Qed.

(** ** Addition *)

Lemma binary_round_rounds_from (m : positive) (e : Z) :
  -1074 <= e ->
  exists (mz : positive) (ez : Z),
    rounds_from (binary_round prec emax false m e) mz ez /\ units mz ez = units m e.
Proof.
  intros He. destruct (binary_round_spec m e) as (mz & ez & E & P & Hez & Hm).
  assert (L : -1074 <= ez) by (rewrite fexp_eq in Hez; lia).
  exists mz, ez. split; [split; [exact E | split; assumption]|].
  unfold units. rewrite Hm, <- Z.mul_assoc, <- Z.pow_add_r by lia.
  f_equal. f_equal. lia.
Qed.

Lemma SFadd_finite (mx my : positive) (ex ey : Z) :
  SFadd prec emax (S754_finite false mx ex) (S754_finite false my ey)
  = binary_round prec emax false
      (fst (shl_align mx ex (Z.min ex ey)) + fst (shl_align my ey (Z.min ex ey)))%positive
      (Z.min ex ey).
Proof. reflexivity. Qed.

Lemma SFadd_finite_rounds_from (mx my : positive) (ex ey : Z) :
  -1074 <= ex -> -1074 <= ey ->
  exists (mz : positive) (ez : Z),
    rounds_from (SFadd prec emax (S754_finite false mx ex) (S754_finite false my ey)) mz ez /\
    units mz ez = units mx ex + units my ey.
Proof.
  intros Hx Hy. rewrite SFadd_finite.
  set (e := Z.min ex ey).
  destruct (binary_round_rounds_from
              (fst (shl_align mx ex e) + fst (shl_align my ey e))%positive e ltac:(lia))
    as (mz & ez & R & U).
  exists mz, ez. split; [exact R|]. rewrite U. unfold units.
  rewrite Pos2Z.inj_add.
  destruct (shl_align_spec mx ex e) as [_ Fx]. destruct (shl_align_spec my ey e) as [_ Fy].
  rewrite Fx, Fy.
  replace (Z.min ex e) with e by lia. replace (Z.min ey e) with e by lia.
  rewrite Z.mul_add_distr_r, <- !Z.mul_assoc, <- !Z.pow_add_r by lia.
  f_equal; f_equal; f_equal; lia.
Qed.

Lemma SFadd_nonneg (x y : spec_float) :
  valid_binary x = true -> valid_binary y = true ->
  SFnonneg x = true -> SFnonneg y = true ->
  SFnonneg (SFadd prec emax x y) = true.
Proof.
  intros Vx Vy Nx Ny.
  destruct x as [sx|sx| |sx mx ex], y as [sy|sy| |sy my ey];
    try discriminate Nx; try discriminate Ny;
    try (destruct sx, sy; try discriminate Nx; try discriminate Ny; reflexivity);
    try (destruct sx; try discriminate Nx; reflexivity);
    try (destruct sy; try discriminate Ny; reflexivity).
  destruct sx; try discriminate Nx. destruct sy; try discriminate Ny.
  pose proof (bounded_facts _ _ Vx) as [Ex _]. pose proof (bounded_facts _ _ Vy) as [Ey _].
  destruct (SFadd_finite_rounds_from mx my ex ey ltac:(lia) ltac:(lia)) as (mz & ez & R & _).
  exact (rounds_from_nonneg _ _ _ R).
Qed.

Lemma SFadd_zero_l (s : bool) (m : positive) (e : Z) :
  SFadd prec emax (S754_zero s) (S754_finite false m e) = S754_finite false m e.
Proof. reflexivity. Qed.

Lemma SFadd_zero_r (s : bool) (m : positive) (e : Z) :
  SFadd prec emax (S754_finite false m e) (S754_zero s) = S754_finite false m e.
Proof. reflexivity. Qed.

(** Addition of non-negative doubles is monotone in both terms. *)
Lemma SFadd_mono (x1 y1 x2 y2 : spec_float) :
  valid_binary x1 = true -> valid_binary y1 = true ->
  valid_binary x2 = true -> valid_binary y2 = true ->
  SFnonneg x1 = true -> SFnonneg y1 = true ->
  SFleb x1 x2 = true -> SFleb y1 y2 = true ->
  SFleb (SFadd prec emax x1 y1) (SFadd prec emax x2 y2) = true.
Proof.
  intros Vx1 Vy1 Vx2 Vy2 Nx1 Ny1 Lx Ly.
  pose proof (SFleb_nonneg_r _ _ Nx1 Lx) as Nx2.
  pose proof (SFleb_nonneg_r _ _ Ny1 Ly) as Ny2.
  pose proof (SFadd_nonneg _ _ Vx1 Vy1 Nx1 Ny1) as N1.
  pose proof (SFadd_nonneg _ _ Vx2 Vy2 Nx2 Ny2) as N2.
  (* an infinite term on the right makes the right sum +Infinity *)
  destruct x2 as [sx2|sx2| |sx2 mx2 ex2]; try discriminate Nx2;
    [ | destruct sx2; try discriminate Nx2;
        destruct y2 as [sy2|sy2| |sy2 my2 ey2]; try discriminate Ny2;
        try (destruct sy2; try discriminate Ny2); apply SFleb_inf_r; exact N1 | ].
  - (* x2 is a zero, so is x1 *)
    destruct x1 as [sx1|sx1| |sx1 mx1 ex1]; try discriminate Nx1;
      try (destruct sx1; try discriminate Nx1; discriminate Lx).
    destruct y2 as [sy2|sy2| |sy2 my2 ey2]; try discriminate Ny2.
    + destruct y1 as [sy1|sy1| |sy1 my1 ey1]; try discriminate Ny1;
        try (destruct sy1; try discriminate Ny1; discriminate Ly).
      destruct sx1, sy1, sx2, sy2; reflexivity.
    + destruct sy2; try discriminate Ny2. apply SFleb_inf_r; exact N1.
    + destruct sy2; try discriminate Ny2.
      destruct y1 as [sy1|sy1| |sy1 my1 ey1]; try discriminate Ny1.
      * destruct sx1, sy1; reflexivity.
      * destruct sy1; try discriminate Ny1; discriminate Ly.
      * destruct sy1; try discriminate Ny1. rewrite !SFadd_zero_l. exact Ly.
  - destruct sx2; try discriminate Nx2.
    pose proof (bounded_facts _ _ Vx2) as [Ex2 _].
    destruct y2 as [sy2|sy2| |sy2 my2 ey2]; try discriminate Ny2.
    + (* y2 is a zero, so is y1 *)
      destruct y1 as [sy1|sy1| |sy1 my1 ey1]; try discriminate Ny1;
        try (destruct sy1; try discriminate Ny1; discriminate Ly).
      destruct x1 as [sx1|sx1| |sx1 mx1 ex1]; try discriminate Nx1.
      * destruct sx1, sy1; reflexivity.
      * destruct sx1; try discriminate Nx1; discriminate Lx.
      * destruct sx1; try discriminate Nx1. rewrite !SFadd_zero_r. exact Lx.
    + destruct sy2; try discriminate Ny2. apply SFleb_inf_r; exact N1.
    + destruct sy2; try discriminate Ny2.
      pose proof (bounded_facts _ _ Vy2) as [Ey2 _].
      destruct (SFadd_finite_rounds_from mx2 my2 ex2 ey2 ltac:(lia) ltac:(lia))
        as (mz2 & ez2 & R2 & U2).
      pose proof (units_pos mx2 ex2 ltac:(lia)) as Px2.
      pose proof (units_pos my2 ey2 ltac:(lia)) as Py2.
      destruct x1 as [sx1|sx1| |sx1 mx1 ex1]; try discriminate Nx1.
      * destruct y1 as [sy1|sy1| |sy1 my1 ey1]; try discriminate Ny1.
        -- destruct sx1, sy1;
             [ exact (SFleb_zero_l true _ N2) | exact (SFleb_zero_l false _ N2)
             | exact (SFleb_zero_l false _ N2) | exact (SFleb_zero_l false _ N2) ].
        -- destruct sy1; try discriminate Ny1; discriminate Ly.
        -- destruct sy1; try discriminate Ny1. rewrite SFadd_zero_l.
           apply (rounds_from_mono _ _ _ _ _ _ (rounds_from_valid _ _ Vy1) R2).
           pose proof (valid_leb_units _ _ _ _ Vy1 Vy2 Ly). lia.
      * destruct sx1; try discriminate Nx1; discriminate Lx.
      * destruct sx1; try discriminate Nx1.
        pose proof (bounded_facts _ _ Vx1) as [Ex1 _].
        pose proof (valid_leb_units _ _ _ _ Vx1 Vx2 Lx) as Ux.
        destruct y1 as [sy1|sy1| |sy1 my1 ey1]; try discriminate Ny1.
        -- rewrite SFadd_zero_r.
           apply (rounds_from_mono _ _ _ _ _ _ (rounds_from_valid _ _ Vx1) R2). lia.
        -- destruct sy1; try discriminate Ny1; discriminate Ly.
        -- destruct sy1; try discriminate Ny1.
           pose proof (bounded_facts _ _ Vy1) as [Ey1 _].
           pose proof (valid_leb_units _ _ _ _ Vy1 Vy2 Ly) as Uy.
           destruct (SFadd_finite_rounds_from mx1 my1 ex1 ey1 ltac:(lia) ltac:(lia))
             as (mz1 & ez1 & R1 & U1).
           apply (rounds_from_mono _ _ _ _ _ _ R1 R2). lia.
Qed.

(** ** Division *)

(** Rounding a non-negative mantissa never yields [NaN] nor a negative
    result, whatever the location of the discarded bits. *)
Lemma shr_1_nonneg (rec : shr_record) : 0 <= shr_m rec -> 0 <= shr_m (shr_1 rec).
Proof.
  destruct rec as [m r s]. cbn [shr_m]. intros H. rewrite shr_1_spec by exact H.
  cbn [shr_m]. apply Z.div_pos; lia.
Qed.

Lemma iter_shr_1_nonneg (p : positive) :
  forall rec, 0 <= shr_m rec -> 0 <= shr_m (iter_pos shr_1 p rec).
Proof.
  induction p as [p IH|p IH|]; intros rec H; simpl iter_pos.
  - apply IH, IH, shr_1_nonneg, H.
  - apply IH, IH, H.
  - apply shr_1_nonneg, H.
Qed.

Lemma shr_nonneg (rec : shr_record) (e n : Z) :
  0 <= shr_m rec -> 0 <= shr_m (fst (shr rec e n)).
Proof.
  intros H. unfold shr. destruct n; cbn [fst]; try exact H.
  apply iter_shr_1_nonneg, H.
Qed.

Lemma shr_record_of_loc_m (m : Z) (l : location) : shr_m (shr_record_of_loc m l) = m.
Proof. destruct l as [|[]]; reflexivity. Qed.

Lemma round_nearest_even_nonneg (m : Z) (l : location) :
  0 <= m -> 0 <= round_nearest_even m l.
Proof.
  intros H. unfold round_nearest_even. destruct l as [|[]]; try lia.
  destruct (Z.even m); lia.
Qed.

Lemma binary_round_aux_nonneg_any (m e : Z) (l : location) :
  0 <= m -> SFnonneg (binary_round_aux prec emax false m e l) = true.
Proof.
  intros H. unfold binary_round_aux, shr_fexp.
  pose proof (shr_nonneg (shr_record_of_loc m l) e
                (fexp prec emax (Zdigits2 m + e) - e)) as A.
  rewrite shr_record_of_loc_m in A. specialize (A H).
  destruct (shr (shr_record_of_loc m l) e (fexp prec emax (Zdigits2 m + e) - e)) as [mrs' e'].
  cbn [fst] in A.
  pose proof (round_nearest_even_nonneg _ (loc_of_shr_record mrs') A) as B.
  set (m1 := round_nearest_even (shr_m mrs') (loc_of_shr_record mrs')) in *.
  pose proof (shr_nonneg (shr_record_of_loc m1 loc_Exact) e'
                (fexp prec emax (Zdigits2 m1 + e') - e')) as C.
  rewrite shr_record_of_loc_m in C. specialize (C B).
  destruct (shr (shr_record_of_loc m1 loc_Exact) e' (fexp prec emax (Zdigits2 m1 + e') - e'))
    as [mrs'' e''].
  cbn [fst] in C.
  destruct (shr_m mrs'') as [|p|p]; try lia; [reflexivity|].
  destruct (e'' <=? emax - prec); reflexivity.
Qed.

Lemma SFdiv_core_binary_nonneg (m1 m2 : positive) (e1 e2 : Z) :
  0 <= fst (fst (SFdiv_core_binary prec emax (Zpos m1) e1 (Zpos m2) e2)).
Proof.
  unfold SFdiv_core_binary.
  set (s := (e1 - e2 - Z.min (fexp prec emax (Zdigits2 (Zpos m1) + e1 - (Zdigits2 (Zpos m2) + e2))) (e1 - e2))).
  set (m' := match s with Z.pos _ => Z.shiftl (Zpos m1) s | 0 => Zpos m1 | Z.neg _ => 0 end).
  assert (H : 0 <= m').
  { unfold m'. destruct s; try lia. apply Z.shiftl_nonneg. lia. }
  pose proof (Z_div_mod m' (Zpos m2) ltac:(lia)) as D.
  destruct (Z.div_eucl m' (Zpos m2)) as [q r]. cbn [fst].
  destruct D as [D1 D2]. nia.
Qed.

(** A non-negative value divided by a positive one is non-negative, provided
    the two are not both infinite. *)
Lemma SFdiv_nonneg (x y : spec_float) :
  SFnonneg x = true -> SFltb (S754_zero false) y = true ->
  (match x with S754_infinity _ => false | _ => true end = true \/
   match y with S754_infinity _ => false | _ => true end = true) ->
  SFnonneg (SFdiv prec emax x y) = true.
Proof.
  intros Nx Py F.
  destruct y as [t|t| |t n f]; try discriminate Py; destruct t; try discriminate Py.
  - destruct x as [s|s| |s m e]; try discriminate Nx; try reflexivity.
    destruct F as [F|F]; discriminate F.
  - destruct x as [s|s| |s m e]; try discriminate Nx; try reflexivity.
    + destruct s; [discriminate Nx | reflexivity].
    + destruct s; try discriminate Nx.
      unfold SFdiv. pose proof (SFdiv_core_binary_nonneg m n e f) as Q.
      destruct (SFdiv_core_binary prec emax (Zpos m) e (Zpos n) f) as [[mz ez] lz].
      cbn [fst] in Q. apply binary_round_aux_nonneg_any. exact Q.
Qed.

End Binary64.

(** * Facts about binary64 comparison

    The primitive comparisons are specified by [SFcompare] on the decoded
    value ([FloatAxioms]); the facts below are read off that specification. *)

Lemma SFcompare_antisym (x y : spec_float) :
  SFcompare y x = option_map CompOpp (SFcompare x y).
Proof.
  destruct x as [sx|sx| |sx mx ex], y as [sy|sy| |sy my ey]; simpl;
    try reflexivity;
    try (destruct sx; reflexivity); try (destruct sy; reflexivity);
    try (destruct sx, sy; reflexivity).
  change (Pos.compare_cont Eq mx my) with (Pos.compare mx my).
  change (Pos.compare_cont Eq my mx) with (Pos.compare my mx).
  destruct sx, sy; simpl; try reflexivity;
    rewrite (Z.compare_antisym ex ey);
    destruct (ex ?= ey)%Z; simpl; try reflexivity;
    rewrite (Pos.compare_antisym mx my); simpl;
    try rewrite CompOpp_involutive; reflexivity.
Qed.

Lemma SFcompare_refl (x : spec_float) :
  x <> S754_nan -> SFcompare x x = Some Eq.
Proof.
  destruct x as [s|s| |s m e]; simpl; intros H; try congruence.
  - destruct s; reflexivity.
  - destruct s; rewrite Z.compare_refl, Pos.compare_cont_refl; reflexivity.
Qed.

Lemma leb_not_ltb (x y : number) : (x <=? y) = true -> (y <? x) = false.
Proof.
  rewrite leb_spec, ltb_spec. unfold SFleb, SFltb.
  rewrite (SFcompare_antisym (Prim2SF x) (Prim2SF y)).
  destruct (SFcompare (Prim2SF x) (Prim2SF y)) as [[]|]; simpl; congruence.
Qed.

Lemma eqb_not_ltb (x y : number) : (x =? y) = true -> (y <? x) = false.
Proof.
  rewrite eqb_spec, ltb_spec. unfold SFeqb, SFltb.
  rewrite (SFcompare_antisym (Prim2SF x) (Prim2SF y)).
  destruct (SFcompare (Prim2SF x) (Prim2SF y)) as [[]|]; simpl; congruence.
Qed.

Lemma is_nan_spec (x : number) :
  is_nan x = match Prim2SF x with S754_nan => true | _ => false end.
Proof.
  unfold is_nan. rewrite eqb_spec. unfold SFeqb.
  destruct (Prim2SF x) eqn:E; try reflexivity;
    rewrite SFcompare_refl by discriminate; reflexivity.
Qed.

Lemma leb_is_nan_l (x y : number) : (x <=? y) = true -> is_nan x = false.
Proof.
  rewrite leb_spec, is_nan_spec. unfold SFleb.
  destruct (Prim2SF x); try reflexivity. simpl. discriminate.
Qed.

Lemma leb_is_nan_r (x y : number) : (x <=? y) = true -> is_nan y = false.
Proof.
  rewrite leb_spec, is_nan_spec. unfold SFleb.
  destruct (Prim2SF y); try reflexivity.
  destruct (Prim2SF x); simpl; discriminate.
Qed.

Lemma ltb_is_nan_r (x y : number) : (x <? y) = true -> is_nan y = false.
Proof.
  rewrite ltb_spec, is_nan_spec. unfold SFltb.
  destruct (Prim2SF y); try reflexivity.
  destruct (Prim2SF x); simpl; discriminate.
Qed.

(** A double is determined by its decoding. *)
Lemma Prim2SF_inj (x y : number) : Prim2SF x = Prim2SF y -> x = y.
Proof.
  intros H. rewrite <- (SF2Prim_Prim2SF x), <- (SF2Prim_Prim2SF y), H. reflexivity.
Qed.

(** The decodings of the constants of the engine. *)
Lemma Prim2SF_0 : Prim2SF 0 = S754_zero false.
Proof. reflexivity. Qed.

Lemma Prim2SF_1 : Prim2SF 1 = S754_finite false 4503599627370496 (-52).
Proof. reflexivity. Qed.

(** [1 <= n] excludes [n <= 0]. *)
Lemma one_leb_not_leb_zero (n : number) : (1 <=? n) = true -> (n <=? 0) = false.
Proof.
  rewrite !leb_spec, Prim2SF_0, Prim2SF_1. unfold SFleb.
  destruct (Prim2SF n) as [s|s| |s m e]; simpl; try discriminate.
  - destruct s; [discriminate | reflexivity].
  - destruct s; [discriminate | reflexivity].
Qed.

(** ** Integral doubles *)

(** On integral doubles, [n <= 0] and [n < 1] are the same test. *)
Lemma integer_leb_zero_ltb_one (n : number) :
  Number_isInteger n = true -> (n <=? 0) = (n <? 1).
Proof.
  unfold Number_isInteger.
  rewrite leb_spec, ltb_spec, Prim2SF_0, Prim2SF_1. unfold SFleb, SFltb.
  pose proof (Prim2SF_valid n) as V.
  destruct (Prim2SF n) as [s|s| |s m e]; intros I; try discriminate I;
    try reflexivity.
  destruct s; [reflexivity|].
  unfold valid_binary in V. pose proof (bounded_facts _ _ V) as [D _].
  pose proof (digits2_pos_upper m) as B.
  assert (P : (Zpos m < 2 ^ 53)%Z).
  { eapply Z.lt_le_trans; [exact B|]. apply Z.pow_le_mono_r; lia. }
  clear D.
  assert (K : (0 <= e \/ 2 ^ (- e) <= Zpos m)%Z).
  { destruct (Z.le_gt_cases 0 e) as [H|H]; [now left|right].
    apply orb_true_iff in I. destruct I as [I|I].
    - apply Z.leb_le in I. lia.
    - apply Z.eqb_eq in I.
      apply Z.mod_divide in I; [|apply Z.pow_nonzero; lia].
      apply Z.divide_pos_le in I; lia. }
  clear I V.
  unfold SFcompare.
  destruct (Z.compare_spec e (-52)) as [->|L|G].
  - (* e = -52: an integral mantissa is at least 2^52 *)
    destruct (Pos.compare_cont Eq m 4503599627370496) eqn:C; try reflexivity.
    exfalso. apply Pos.compare_lt_iff, Pos2Z.pos_lt_pos in C.
    destruct K as [K|K]; [lia|].
    change (2 ^ (- -52))%Z with 4503599627370496%Z in K. lia.
  - (* e < -52: no 53-bit mantissa is a multiple of 2^(-e) *)
    exfalso. destruct K as [K|K]; [lia|].
    assert (Q : (2 ^ 53 <= 2 ^ (- e))%Z) by (apply Z.pow_le_mono_r; lia).
    lia.
  - reflexivity.
Qed.

(** * Order and arithmetic of non-negative doubles *)

Lemma leb_zero_nonneg (x : number) : (0 <=? x) = SFnonneg (Prim2SF x).
Proof. rewrite leb_spec, Prim2SF_0. apply SFleb_zero_nonneg. Qed.

Lemma is_nan_false_iff (x : number) : is_nan x = false <-> Prim2SF x <> S754_nan.
Proof.
  rewrite is_nan_spec. destruct (Prim2SF x); split; intros H; try reflexivity; try discriminate; congruence.
Qed.

Lemma nonneg_not_nan (x : number) : (0 <=? x) = true -> is_nan x = false.
Proof. apply leb_is_nan_r. Qed.

Lemma fleb_refl (x : number) : is_nan x = false -> (x <=? x) = true.
Proof. intros H. rewrite leb_spec. apply SFleb_refl. now apply is_nan_false_iff. Qed.

Lemma fleb_trans (x y z : number) :
  (0 <=? x) = true -> (x <=? y) = true -> (y <=? z) = true -> (x <=? z) = true.
Proof. rewrite leb_zero_nonneg, !leb_spec. apply SFleb_trans. Qed.

Lemma fleb_nonneg_r (x y : number) :
  (0 <=? x) = true -> (x <=? y) = true -> (0 <=? y) = true.
Proof. rewrite !leb_zero_nonneg, leb_spec. apply SFleb_nonneg_r. Qed.

Lemma fleb_total (x y : number) :
  is_nan x = false -> is_nan y = false -> (x <=? y) = true \/ (y <? x) = true.
Proof.
  rewrite !is_nan_spec, leb_spec, ltb_spec. unfold SFleb, SFltb.
  rewrite (SFcompare_antisym (Prim2SF x) (Prim2SF y)).
  destruct (Prim2SF x) as [s|s| |s m e] eqn:Ex; try discriminate;
    destruct (Prim2SF y) as [t|t| |t n f] eqn:Ey; try discriminate; intros _ _;
    match goal with |- context [SFcompare ?a ?b] => destruct (SFcompare a b) as [[]|] eqn:C end;
    simpl; auto;
    exfalso; revert C; clear; unfold SFcompare;
    try (destruct s; discriminate); try (destruct t; discriminate);
    try (destruct s, t; discriminate); discriminate.
Qed.

(** NaN is absorbing. *)
Lemma mul_not_nan (x y : number) :
  is_nan (x * y) = false -> is_nan x = false /\ is_nan y = false.
Proof.
  rewrite !is_nan_spec, mul_spec.
  destruct (Prim2SF x), (Prim2SF y); simpl; try discriminate; auto.
Qed.

Lemma add_not_nan (x y : number) :
  is_nan (x + y) = false -> is_nan x = false /\ is_nan y = false.
Proof.
  rewrite !is_nan_spec, add_spec.
  destruct (Prim2SF x), (Prim2SF y); simpl; try discriminate; auto.
Qed.

Lemma mul_nonneg (x y : number) :
  (0 <=? x) = true -> (0 <=? y) = true -> is_nan (x * y) = false ->
  (0 <=? x * y) = true.
Proof.
  rewrite !leb_zero_nonneg, is_nan_false_iff, mul_spec.
  apply SFmul_nonneg; apply Prim2SF_valid.
Qed.

Lemma add_nonneg (x y : number) :
  (0 <=? x) = true -> (0 <=? y) = true -> (0 <=? x + y) = true.
Proof.
  rewrite !leb_zero_nonneg, add_spec.
  apply SFadd_nonneg; apply Prim2SF_valid.
Qed.

(** Multiplication and addition are monotone on non-negative doubles. *)
Lemma mul_mono (x1 y1 x2 y2 : number) :
  (0 <=? x1) = true -> (0 <=? y1) = true ->
  (x1 <=? x2) = true -> (y1 <=? y2) = true ->
  is_nan (x1 * y1) = false -> is_nan (x2 * y2) = false ->
  (x1 * y1 <=? x2 * y2) = true.
Proof.
  rewrite !leb_zero_nonneg, !is_nan_false_iff, !leb_spec, !mul_spec.
  apply SFmul_mono; apply Prim2SF_valid.
Qed.

Lemma add_mono (x1 y1 x2 y2 : number) :
  (0 <=? x1) = true -> (0 <=? y1) = true ->
  (x1 <=? x2) = true -> (y1 <=? y2) = true ->
  (x1 + y1 <=? x2 + y2) = true.
Proof.
  rewrite !leb_zero_nonneg, !leb_spec, !add_spec.
  apply SFadd_mono; apply Prim2SF_valid.
Qed.

(** A product with a positive finite constant is never [NaN]. *)
Lemma mul_finite_not_nan (x k : number) (mk : positive) (ek : Z) :
  (0 <=? x) = true -> Prim2SF k = S754_finite false mk ek ->
  is_nan (x * k) = false.
Proof.
  rewrite leb_zero_nonneg, is_nan_false_iff, mul_spec. intros N K.
  pose proof (Prim2SF_valid x) as Vx. pose proof (Prim2SF_valid k) as Vk.
  rewrite K in *.
  destruct (Prim2SF x) as [s|s| |s m e]; try discriminate N; try discriminate.
  destruct s; try discriminate N. rewrite SFmul_finite.
  intros E.
  pose proof (binary_round_aux_nonneg (m * mk) (e + ek) (mul_precondition _ _ _ _ Vx Vk)) as NN.
  rewrite E in NN. discriminate NN.
Qed.

(** [x * 1 = x]: the product is exact. *)
Lemma mul_1_r (x : number) : (0 <=? x) = true -> x * 1 = x.
Proof.
  rewrite leb_zero_nonneg. intros N. apply Prim2SF_inj.
  rewrite mul_spec, Prim2SF_1.
  pose proof (Prim2SF_valid x) as Vx.
  destruct (Prim2SF x) as [s|s| |s m e]; try discriminate N.
  - destruct s; reflexivity.
  - destruct s; try discriminate N. reflexivity.
  - destruct s; try discriminate N. rewrite SFmul_finite.
    assert (V1 : bounded prec emax 4503599627370496 (-52) = true) by reflexivity.
    pose proof (mul_precondition _ _ _ _ Vx V1) as P.
    pose proof (bounded_facts _ _ Vx) as [Ex _].
    assert (Pm : (e <= fexp prec emax (Zpos (digits2_pos m) + e))%Z) by (rewrite fexp_eq; lia).
    assert (U : (Zpos (m * 4503599627370496) * 2 ^ (e + -52 - (e + -52))
                 = Zpos m * 2 ^ (e - (e + -52)))%Z).
    { rewrite Z.sub_diag, Z.pow_0_r, Pos2Z.inj_mul.
      replace (e - (e + -52))%Z with 52%Z by lia.
      change (2 ^ 52)%Z with 4503599627370496%Z. lia. }
    assert (A : SFleb (binary_round_aux prec emax false (Zpos (m * 4503599627370496)) (e + -52) loc_Exact)
                      (S754_finite false m e) = true).
    { rewrite <- (binary_round_aux_valid m e Vx).
      apply (binary_round_aux_mono _ _ _ _ (e + -52)%Z); try lia; try assumption. }
    assert (B : SFleb (S754_finite false m e)
                      (binary_round_aux prec emax false (Zpos (m * 4503599627370496)) (e + -52) loc_Exact) = true).
    { rewrite <- (binary_round_aux_valid m e Vx) at 1.
      apply (binary_round_aux_mono _ _ _ _ (e + -52)%Z); try lia; try assumption. }
    destruct (binary_round_aux prec emax false (Zpos (m * 4503599627370496)) (e + -52) loc_Exact)
      as [t|t| |t n f]; try (destruct t; discriminate B); try discriminate B;
      try (destruct t; [discriminate B | discriminate A]).
    destruct t; try discriminate B.
    apply SFleb_finite_iff in A, B.
    assert (f = e) by lia. subst f.
    assert (Zpos n = Zpos m) by lia. congruence.
Qed.

(** * [Math.round] on non-negative doubles *)

(** The integer [Math.round] yields on the value of [u] units of [2^-1074]:
    [floor (u / 2^1074 + 1/2)]. *)
Definition round_units (u : Z) : Z := ((2 * u + 2 ^ 1074) / 2 ^ 1075)%Z.

Lemma round_units_mono (u v : Z) : (u <= v)%Z -> (round_units u <= round_units v)%Z.
Proof.
  intros H. unfold round_units. apply Z.div_le_mono; [apply two_pow_pos|]; lia.
Qed.

Lemma round_units_integral (m : positive) (e : Z) :
  (0 <= e)%Z -> round_units (units m e) = (Zpos m * 2 ^ e)%Z.
Proof.
  intros He. unfold round_units, units.
  replace (e - -1074)%Z with (e + 1074)%Z by lia.
  rewrite Z.pow_add_r by lia.
  replace (2 ^ 1075)%Z with (2 * 2 ^ 1074)%Z by (rewrite <- Z.pow_succ_r by lia; reflexivity).
  pose proof (two_pow_pos 1074 ltac:(lia)) as P.
  generalize dependent (2 ^ 1074)%Z. intros B P.
  replace (2 * (Zpos m * (2 ^ e * B)) + B)%Z with ((Zpos m * 2 ^ e) * (2 * B) + B)%Z by ring.
  rewrite Z.div_add_l by lia. rewrite Z.div_small by lia. lia.
Qed.

Lemma round_units_fractional (m : positive) (e : Z) :
  (-1074 <= e < 0)%Z ->
  round_units (units m e) = ((2 * Zpos m + 2 ^ (- e)) / 2 ^ (1 - e))%Z.
Proof.
  intros He. unfold round_units, units.
  replace (2 ^ 1074)%Z with (2 ^ (- e) * 2 ^ (e - -1074))%Z
    by (rewrite <- Z.pow_add_r by lia; f_equal; lia).
  replace (2 ^ 1075)%Z with (2 ^ (1 - e) * 2 ^ (e - -1074))%Z
    by (rewrite <- Z.pow_add_r by lia; f_equal; lia).
  pose proof (two_pow_pos (e - -1074) ltac:(lia)) as P.
  generalize dependent (2 ^ (e - -1074))%Z. intros C P.
  replace (2 * (Zpos m * C) + 2 ^ (- e) * C)%Z with ((2 * Zpos m + 2 ^ (- e)) * C)%Z by ring.
  apply Z.div_mul_cancel_r; [|lia].
  pose proof (two_pow_pos (1 - e) ltac:(lia)). lia.
Qed.

Lemma Z2number_pos (p : positive) :
  (Zpos p < 2 ^ 63)%Z ->
  exists (mz : positive) (ez : Z),
    rounds_from (Prim2SF (Z2number (Zpos p))) mz ez /\ units mz ez = (Zpos p * 2 ^ 1074)%Z.
Proof.
  intros H. unfold Z2number. change (Zpos p <? 0)%Z with false. cbv iota.
  rewrite of_uint63_spec, of_Z_spec.
  rewrite Z.mod_small by (change wB with (2 ^ 63)%Z; lia).
  change (binary_normalize prec emax (Zpos p) 0 false) with (binary_round prec emax false p 0).
  destruct (binary_round_rounds_from p 0 ltac:(lia)) as (mz & ez & R & U).
  exists mz, ez. split; [exact R|]. rewrite U. reflexivity.
Qed.

(** [Math.round] of a positive finite double is the rounding of
    [round_units] of its value. *)
Lemma Math_round_finite (x : number) (m : positive) (e : Z) :
  Prim2SF x = S754_finite false m e ->
  (round_units (units m e) = 0%Z /\ Prim2SF (Math_round x) = S754_zero false) \/
  ((0 < round_units (units m e))%Z /\
   exists (mz : positive) (ez : Z),
     rounds_from (Prim2SF (Math_round x)) mz ez /\
     units mz ez = (round_units (units m e) * 2 ^ 1074)%Z).
Proof.
  intros E. pose proof (Prim2SF_valid x) as V. rewrite E in V.
  pose proof (bounded_facts _ _ V) as [Ee _].
  unfold Math_round. rewrite E.
  destruct (0 <=? e)%Z eqn:Z0.
  - apply Z.leb_le in Z0. right. rewrite round_units_integral by exact Z0.
    split.
    + pose proof (two_pow_pos e Z0). nia.
    + exists m, e. rewrite E. split; [apply rounds_from_valid; exact V|].
      unfold units. replace (e - -1074)%Z with (e + 1074)%Z by lia.
      rewrite Z.pow_add_r by lia. ring.
  - apply Z.leb_gt in Z0. rewrite round_units_fractional by lia.
    change (cond_Zopp false (Zpos m)) with (Zpos m).
    set (n := ((2 * Zpos m + 2 ^ (- e)) / 2 ^ (1 - e))%Z).
    assert (Hn : (0 <= n < 2 ^ 63)%Z).
    { pose proof (two_pow_pos (- e) ltac:(lia)) as P.
      assert (T : (2 ^ (1 - e) = 2 * 2 ^ (- e))%Z).
      { replace (1 - e)%Z with (Z.succ (- e)) by lia. rewrite Z.pow_succ_r by lia. reflexivity. }
      assert (T2 : (2 <= 2 ^ (- e))%Z).
      { change 2%Z with (2 ^ 1)%Z at 1. apply Z.pow_le_mono_r; lia. }
      pose proof (digits2_pos_upper m) as U.
      assert (U' : (Zpos m < 2 ^ 53)%Z).
      { eapply Z.lt_le_trans; [exact U|]. apply Z.pow_le_mono_r; lia. }
      change (2 ^ 53)%Z with 9007199254740992%Z in U'.
      unfold n. rewrite T. split.
      - apply Z.div_pos; lia.
      - apply Z.div_lt_upper_bound; [lia|].
        change (2 ^ 63)%Z with 9223372036854775808%Z. lia. }
    destruct (n =? 0)%Z eqn:N0.
    + apply Z.eqb_eq in N0. left. split; [exact N0 | reflexivity].
    + apply Z.eqb_neq in N0. right. split; [lia|].
      destruct n as [|p|p]; try lia.
      apply Z2number_pos. lia.
Qed.

Lemma Math_round_nonneg (x : number) :
  (0 <=? x) = true -> (0 <=? Math_round x) = true.
Proof.
  rewrite !leb_zero_nonneg. intros N.
  destruct (Prim2SF x) as [s|s| |s m e] eqn:E; try discriminate N.
  - unfold Math_round. rewrite E, E. reflexivity.
  - unfold Math_round. rewrite E, E. exact N.
  - destruct s; try discriminate N.
    destruct (Math_round_finite x m e E) as [[_ R]|[_ (mz & ez & R & _)]].
    + rewrite R. reflexivity.
    + exact (rounds_from_nonneg _ _ _ R).
Qed.

Lemma Math_round_not_nan (x : number) :
  is_nan (Math_round x) = false -> is_nan x = false.
Proof.
  rewrite !is_nan_spec. destruct (Prim2SF x) eqn:E; try reflexivity.
  unfold Math_round. rewrite E, E. discriminate.
Qed.

(** [Math.round] is monotone on non-negative doubles. *)
Lemma Math_round_mono (x y : number) :
  (0 <=? x) = true -> (x <=? y) = true ->
  (Math_round x <=? Math_round y) = true.
Proof.
  intros Nx L. pose proof (fleb_nonneg_r _ _ Nx L) as Ny.
  pose proof (Math_round_nonneg _ Nx) as Rx. pose proof (Math_round_nonneg _ Ny) as Ry.
  rewrite leb_zero_nonneg in Nx, Ny, Rx, Ry. rewrite leb_spec in L. rewrite leb_spec.
  pose proof (Prim2SF_valid x) as Vx. pose proof (Prim2SF_valid y) as Vy.
  destruct (Prim2SF x) as [s|s| |s m e] eqn:Ex; try discriminate Nx.
  - unfold Math_round at 1. rewrite Ex, Ex. apply SFleb_zero_l. exact Ry.
  - destruct s; try discriminate Nx.
    destruct (Prim2SF y) as [t|t| |t n f] eqn:Ey; try discriminate L;
      destruct t; try discriminate L.
    unfold Math_round. rewrite Ex, Ey, Ex, Ey. reflexivity.
  - destruct s; try discriminate Nx.
    destruct (Prim2SF y) as [t|t| |t n f] eqn:Ey; try discriminate Ny;
      destruct t; try discriminate L.
    + unfold Math_round at 2. rewrite Ey, Ey. apply SFleb_inf_r. exact Rx.
    + pose proof (valid_leb_units _ _ _ _ Vx Vy L) as U.
      apply round_units_mono in U.
      destruct (Math_round_finite x m e Ex) as [[Zx Hx]|[Px (mx & ex & Hx & Ux)]].
      * rewrite Hx. apply SFleb_zero_l. exact Ry.
      * destruct (Math_round_finite y n f Ey) as [[Zy Hy]|[Py (my & ey & Hy & Uy)]]; [lia|].
        apply (rounds_from_mono _ _ _ _ _ _ Hx Hy). rewrite Ux, Uy.
        apply Z.mul_le_mono_nonneg_r; [apply Z.lt_le_incl, two_pow_pos; lia | exact U].
Qed.

Lemma is_finite_spec (x : number) :
  is_finite x = match Prim2SF x with
                | S754_zero _ | S754_finite _ _ _ => true
                | _ => false
                end.
Proof.
  unfold is_finite, is_infinity. rewrite is_nan_spec, eqb_spec, abs_spec.
  change (Prim2SF infinity) with (S754_infinity false).
  destruct (Prim2SF x) as [s|s| |s m e]; reflexivity.
Qed.

Lemma ltb_zero_pos (y : number) :
  (0 <? y) = SFltb (S754_zero false) (Prim2SF y).
Proof. rewrite ltb_spec, Prim2SF_0. reflexivity. Qed.

(** A non-negative double divided by a positive one is non-negative (so not
    [NaN]), unless both are infinite. *)
Lemma div_nonneg (x y : number) :
  (0 <=? x) = true -> (0 <? y) = true ->
  is_finite x = true \/ is_finite y = true ->
  (0 <=? x / y) = true.
Proof.
  rewrite !leb_zero_nonneg, ltb_zero_pos, !is_finite_spec, div_spec.
  intros Nx Py F. apply SFdiv_nonneg; try assumption.
  destruct F as [F|F]; [left|right].
  - destruct (Prim2SF x); try discriminate F; reflexivity.
  - destruct (Prim2SF y); try discriminate F; reflexivity.
Qed.

(** Rounding a non-negative ratio to one decimal keeps it non-negative. *)
Lemma round_one_decimal_nonneg (x : number) :
  (0 <=? x) = true -> (0 <=? Math_round (x * 10) / 10) = true.
Proof.
  intros N.
  assert (K : is_nan (x * 10) = false) by (apply (mul_finite_not_nan x 10 _ _ N eq_refl)).
  apply div_nonneg.
  - apply Math_round_nonneg, mul_nonneg; try assumption; reflexivity.
  - reflexivity.
  - right. reflexivity.
Qed.

Lemma eqb_zero_cases (x : number) :
  (x =? 0) = true -> x = 0 \/ x = -0.
Proof.
  rewrite eqb_spec, Prim2SF_0. unfold SFeqb. intros H.
  destruct (Prim2SF x) as [s|s| |s m e] eqn:E; try discriminate H.
  - destruct s; [right|left]; apply Prim2SF_inj; rewrite E; reflexivity.
  - destruct s; discriminate H.
  - destruct s; discriminate H.
Qed.

(** * [Math.round] yields the nearest integer *)

(** The integer [N] is the one nearest to [v * 2^e], ties towards
    [+Infinity]: [N - 1/2 <= v * 2^e < N + 1/2], with denominators cleared. *)
Definition nearest_integer (N v e : Z) : Prop :=
  let k := Z.max 0 (- e) in
  ((2 * N - 1) * 2 ^ k <= 2 * v * 2 ^ (e + k) < (2 * N + 1) * 2 ^ k)%Z.

(** The double [r] is the integer [N]; a zero carries the sign [s]. *)
Definition carries (r : number) (s : bool) (N : Z) : Prop :=
  match N with
  | Z0 => r = if s then -0 else 0
  | _ => exists (m : positive) (e : Z),
           Prim2SF r = S754_finite (N <? 0)%Z m e /\
           (Zpos m * 2 ^ (e + Z.max 0 (- e)) = Z.abs N * 2 ^ Z.max 0 (- e))%Z
  end.

(** [r] is [x] rounded to the nearest whole unit: the nearest integer for a
    finite [x], and [x] itself for a zero, an infinity or [NaN]. *)
Definition nearest_whole_unit (x r : number) : Prop :=
  match Prim2SF x with
  | S754_finite s m e =>
      exists N : Z, nearest_integer N (cond_Zopp s (Zpos m)) e /\ carries r s N
  | _ => r = x
  end.

(** Integers below [2^53] convert exactly. *)
Lemma of_uint63_exact (p : positive) :
  (Zpos p < 2 ^ 53)%Z ->
  exists (m : positive) (e : Z),
    Prim2SF (of_uint63 (of_Z (Zpos p))) = S754_finite false m e /\
    (e <= 0)%Z /\ (Zpos m = Zpos p * 2 ^ (- e))%Z.
Proof.
  intros H.
  rewrite of_uint63_spec, of_Z_spec.
  rewrite Z.mod_small by (change wB with (2 ^ 63)%Z; change (2 ^ 53)%Z with 9007199254740992%Z in H;
                          change (2 ^ 63)%Z with 9223372036854775808%Z; lia).
  change (binary_normalize prec emax (Zpos p) 0 false) with (binary_round prec emax false p 0).
  destruct (binary_round_spec p 0) as (mz & ez & E & P & Hez & Hm).
  pose proof (digits2_pos_le p 53 H) as D.
  pose proof (Pos2Z.is_pos (digits2_pos p)) as D0.
  rewrite fexp_eq in Hez.
  assert (Ez : ez = (Zpos (digits2_pos p) - 53)%Z) by lia.
  assert (Dz : Zpos (digits2_pos mz) = 53%Z).
  { rewrite (digits2_pos_shift p mz (0 - ez)) by first [lia | exact Hm]. lia. }
  assert (V : bounded prec emax mz ez = true).
  { unfold bounded, canonical_mantissa. apply andb_true_iff. split.
    - apply Z.eqb_eq. rewrite fexp_eq, Dz. lia.
    - apply Z.leb_le. change (emax - prec)%Z with 971%Z. lia. }
  exists mz, ez. split; [|split].
  - rewrite E. apply binary_round_aux_valid. exact V.
  - lia.
  - rewrite Hm. replace (- ez)%Z with (0 - ez)%Z by lia. reflexivity.
Qed.

Lemma Z2number_carries (n : Z) (s : bool) :
  n <> 0%Z -> (Z.abs n < 2 ^ 53)%Z -> carries (Z2number n) s n.
Proof.
  intros H0 B. unfold carries, Z2number. destruct n as [|p|p]; try congruence.
  - change (Zpos p <? 0)%Z with false. cbv iota.
    destruct (of_uint63_exact p B) as (m & e & E & Le & Hm).
    exists m, e. split; [exact E|].
    replace (Z.max 0 (- e)) with (- e)%Z by lia.
    replace (e + - e)%Z with 0%Z by lia. rewrite Z.pow_0_r. simpl Z.abs. lia.
  - change (Z.neg p <? 0)%Z with true. cbv iota.
    change (- Z.neg p)%Z with (Zpos p).
    destruct (of_uint63_exact p B) as (m & e & E & Le & Hm).
    exists m, e. split.
    + rewrite opp_spec, E. reflexivity.
    + replace (Z.max 0 (- e)) with (- e)%Z by lia.
      replace (e + - e)%Z with 0%Z by lia. rewrite Z.pow_0_r. simpl Z.abs. lia.
Qed.

(** [Math.round] rounds to the nearest whole unit. *)
Lemma Math_round_nearest (x : number) : nearest_whole_unit x (Math_round x).
Proof.
  unfold nearest_whole_unit, Math_round.
  pose proof (Prim2SF_valid x) as V.
  destruct (Prim2SF x) as [s|s| |s m e] eqn:E; try reflexivity.
  pose proof (bounded_facts _ _ V) as [Ee _].
  pose proof (digits2_pos_upper m) as U.
  assert (U' : (Zpos m < 2 ^ 53)%Z).
  { eapply Z.lt_le_trans; [exact U|]. apply Z.pow_le_mono_r; lia. }
  destruct (0 <=? e)%Z eqn:Z0.
  - (* already an integer *)
    apply Z.leb_le in Z0.
    exists (cond_Zopp s (Zpos m) * 2 ^ e)%Z. split.
    + unfold nearest_integer. replace (Z.max 0 (- e)) with 0%Z by lia.
      rewrite Z.add_0_r, Z.pow_0_r. lia.
    + pose proof (two_pow_pos e Z0) as P.
      unfold carries.
      destruct (cond_Zopp s (Zpos m) * 2 ^ e)%Z as [|p|p] eqn:N.
      * destruct s; cbn [cond_Zopp] in N; nia.
      * exists m, e. rewrite E. split.
        -- destruct s; [cbn [cond_Zopp] in N; nia | reflexivity].
        -- replace (Z.max 0 (- e)) with 0%Z by lia.
           rewrite Z.add_0_r, Z.pow_0_r. destruct s; cbn [cond_Zopp] in N; lia.
      * exists m, e. rewrite E. split.
        -- destruct s; [reflexivity | cbn [cond_Zopp] in N; nia].
        -- replace (Z.max 0 (- e)) with 0%Z by lia.
           rewrite Z.add_0_r, Z.pow_0_r. destruct s; cbn [cond_Zopp] in N; lia.
  - (* a fractional part to round away *)
    apply Z.leb_gt in Z0.
    set (v := cond_Zopp s (Zpos m)).
    set (n := ((2 * v + 2 ^ (- e)) / 2 ^ (1 - e))%Z).
    pose proof (two_pow_pos (- e) ltac:(lia)) as P.
    assert (T : (2 ^ (1 - e) = 2 * 2 ^ (- e))%Z).
    { replace (1 - e)%Z with (Z.succ (- e)) by lia. rewrite Z.pow_succ_r by lia. reflexivity. }
    assert (T2 : (2 <= 2 ^ (- e))%Z).
    { change 2%Z with (2 ^ 1)%Z at 1. apply Z.pow_le_mono_r; lia. }
    pose proof (Z.div_mod (2 * v + 2 ^ (- e)) (2 ^ (1 - e)) ltac:(lia)) as DM.
    pose proof (Z.mod_pos_bound (2 * v + 2 ^ (- e)) (2 ^ (1 - e)) ltac:(lia)) as BM.
    fold n in DM. rewrite T in DM, BM.
    assert (Bv : (- 2 ^ 53 < v < 2 ^ 53)%Z) by (unfold v; destruct s; simpl; lia).
    change (2 ^ 53)%Z with 9007199254740992%Z in Bv.
    assert (Bn : (Z.abs n < 9007199254740992)%Z) by nia.
    exists n. split.
    + unfold nearest_integer. replace (Z.max 0 (- e)) with (- e)%Z by lia.
      replace (e + - e)%Z with 0%Z by lia. rewrite Z.pow_0_r. nia.
    + destruct (n =? 0)%Z eqn:N0.
      * apply Z.eqb_eq in N0. rewrite N0. destruct s; reflexivity.
      * apply Z.eqb_neq in N0. apply Z2number_carries; assumption.
Qed.

(** The builtins on the inputs where JavaScript's choices show. *)
Example Math_round_half_up : Math_round 2.5 = 3 /\ Math_round (-2.5) = -2.
Proof. split; reflexivity. Qed.

Example Math_round_below_half :
  Math_round 0.49999999999999994 = 0 /\ Math_round (-0.4) = -0 /\ Math_round (-0.5) = -0.
Proof. repeat split; reflexivity. Qed.

Example Math_round_special :
  Math_round NaN = NaN /\ Math_round Infinity = Infinity /\
  Math_round 4503599627370497 = 4503599627370497.
Proof. repeat split; reflexivity. Qed.

Example Math_min_special :
  Math_min 0 (-0) = -0 /\ Math_min (-0) 0 = -0 /\ Math_min 1 NaN = NaN /\
  Math_min 3 2 = 2 /\ Math_min Infinity 1 = 1.
Proof. repeat split; reflexivity. Qed.


(** [Math.min(1, x)] is [x] capped at [1]. *)
Lemma Math_min_1_below (x : number) : (x <=? 1) = true -> Math_min 1 x = x.
Proof.
  intros H. unfold Math_min.
  rewrite (leb_is_nan_l _ _ H), (leb_not_ltb _ _ H).
  change (is_nan 1) with false. change (classify 1) with PNormal.
  simpl. destruct (x <? 1); reflexivity.
Qed.

Lemma Math_min_1_above (x : number) : (1 <? x) = true -> Math_min 1 x = 1.
Proof.
  intros H. unfold Math_min.
  rewrite (ltb_is_nan_r _ _ H), H. reflexivity.
Qed.

Lemma Math_min_1_nan (x : number) : is_nan x = true -> Math_min 1 x = NaN.
Proof.
  intros H. unfold Math_min. rewrite H, orb_true_r. reflexivity.
Qed.

(** * What the calls compute *)

(** The record [calculateScenario] returns. *)
Definition scenario_value (inputs : RoiInputsType) : RoiScenarioType :=
  {| totalBenefit := Math_round (Scenario.totalBenefit inputs);
     year1Net := Math_round (Scenario.year1Net inputs);
     roiPct := Math_round (Scenario.roiPct inputs * 10) / 10;
     paybackMonths := Math_round (Scenario.paybackMonths inputs * 10) / 10 |}.

Lemma calculateScenario_run (inputs : RoiInputsType) (c : console) :
  calculateScenario inputs c =
  (Returned (scenario_value inputs),
   c ++ [LogScenario (Scenario.totalBenefit inputs) (Scenario.roiPct inputs)]).
Proof. reflexivity. Qed.

(** The three scenarios of a successful call, and what it logs. *)
Definition output_value (inputs : RoiInputsType) : RoiOutputType :=
  {| low := scenario_value (scaleInputs inputs 0.75);
     mostLikely := scenario_value inputs;
     high := scenario_value (scaleInputs inputs 1.25) |}.

Definition scenario_line (inputs : RoiInputsType) : console_line :=
  LogScenario (Scenario.totalBenefit inputs) (Scenario.roiPct inputs).

Definition success_lines (inputs : RoiInputsType) : console :=
  [LogStarting;
   scenario_line (scaleInputs inputs 0.75);
   scenario_line inputs;
   scenario_line (scaleInputs inputs 1.25);
   LogCompleted].

Lemma calculateRoiScenarios_run (inputs : RoiInputsType) (c : console) :
  calculateRoiScenarios inputs c =
  if inputs.(nPeople) <=? 0
  then (Thrown (Error "Number of people must be greater than 0"), c ++ [LogStarting])
  else if inputs.(costPerHour) <? 0
  then (Thrown (Error "Cost per hour cannot be negative"), c ++ [LogStarting])
  else (Returned (output_value inputs), c ++ success_lines inputs).
Proof.
  unfold calculateRoiScenarios, bind, console_log, throw, ret.
  destruct (inputs.(nPeople) <=? 0); [reflexivity|].
  destruct (inputs.(costPerHour) <? 0); [reflexivity|].
  rewrite !calculateScenario_run. unfold success_lines, scenario_line, output_value.
  rewrite <- !app_assoc. reflexivity.
Qed.

(** The schema's constraints pass both guards of [calculateRoiScenarios]. *)
Lemma parse_ok_run (inputs : RoiInputsType) (c : console) :
  RoiInputs_parse_ok inputs = true ->
  (inputs.(nPeople) <=? 0) = false /\
  (inputs.(costPerHour) <? 0) = false /\
  calculateRoiScenarios inputs c = (Returned (output_value inputs), c ++ success_lines inputs).
Proof.
  unfold RoiInputs_parse_ok. rewrite !andb_true_iff.
  intros [[[[[[[[[[[_ N] C] _] _] _] _] _] _] _] _] _].
  pose proof (one_leb_not_leb_zero _ N) as N'.
  pose proof (leb_not_ltb _ _ C) as C'.
  rewrite calculateRoiScenarios_run, N', C'. repeat split.
Qed.

(** The call fails with an [Error], having built no scenario: nothing is
    returned and the console holds the start line only. *)
Definition raises_InvalidInput (inputs : RoiInputsType) (c : console) : Prop :=
  exists e, calculateRoiScenarios inputs c = (Thrown e, c ++ [LogStarting]).

Definition returns_output (inputs : RoiInputsType) (c : console) : Prop :=
  exists out c', calculateRoiScenarios inputs c = (Returned out, c').

(** A caller that invokes the engine on each record in turn and keeps every
    outcome, thrown or returned; the console is what the calls share. *)
Fixpoint invoke_all (calls : list RoiInputsType) (c : console)
  : list (outcome RoiOutputType) * console :=
  match calls with
  | [] => ([], c)
  | inputs :: rest =>
      let (o, c') := calculateRoiScenarios inputs c in
      let (os, c'') := invoke_all rest c' in
      (o :: os, c'')
  end.

(** The outcome of a call from the console [c] is its outcome from an empty
    console. *)
Lemma result_of_any_console (inputs : RoiInputsType) (c : console) :
  result_of (calculateRoiScenarios inputs) c = result_of (calculateRoiScenarios inputs) [].
Proof.
  unfold result_of. rewrite !calculateRoiScenarios_run.
  destruct (inputs.(nPeople) <=? 0); [reflexivity|].
  destruct (inputs.(costPerHour) <? 0); reflexivity.
Qed.

Lemma invoke_all_outcomes (calls : list RoiInputsType) :
  forall c : console,
    fst (invoke_all calls c)
    = map (fun inputs => result_of (calculateRoiScenarios inputs) []) calls.
Proof.
  induction calls as [|inputs rest IH]; intros c; [reflexivity|].
  cbn [invoke_all map].
  pose proof (result_of_any_console inputs c) as R. unfold result_of in R.
  destruct (calculateRoiScenarios inputs c) as [o c'].
  specialize (IH c'). destruct (invoke_all rest c') as [os c''].
  cbn [fst] in *. rewrite R, IH. reflexivity.
Qed.

(** * The specification's closed forms

    The formulas of [computeScenario] and the checks of [validateRoiInputs] as
    section 4.1 of the specification writes them, to be compared with the
    code. *)
Module Spec.

(** "rounded to the nearest whole unit" *)
Definition rounded_to_whole_unit (x r : number) : Prop := nearest_whole_unit x r.

(** "rounded to one decimal place": the tenth of the whole unit nearest to
    ten times the value. *)
Definition rounded_to_one_decimal (x r : number) : Prop :=
  exists t, nearest_whole_unit (x * 10) t /\ r = t / 10.

Definition laborSavings (i : RoiInputsType) : number :=
  i.(nPeople) * i.(hoursSavedPerPersonPerMonth) * 12 * i.(costPerHour).

Definition qualitySavings (i : RoiInputsType) : number :=
  i.(errorCostAnnual) * i.(errorReductionPct).

Definition cloudSavings (i : RoiInputsType) : number :=
  i.(cloudSpendAnnual) * i.(cloudReductionPct).

Definition riskAvoidance (i : RoiInputsType) : number :=
  i.(riskCostAnnual) * i.(riskReductionPct).

Definition totalBenefit (i : RoiInputsType) : number :=
  laborSavings i + qualitySavings i + cloudSavings i + riskAvoidance i.

Definition totalCosts (i : RoiInputsType) : number :=
  i.(licenseCostAnnual) + i.(implementationOneTime).

Definition year1Net (i : RoiInputsType) : number :=
  totalBenefit i - totalCosts i.

Definition roiPct (i : RoiInputsType) : number :=
  if 0 <? totalCosts i then ((totalBenefit i - totalCosts i) / totalCosts i) * 100 else 0.

Definition monthlyBenefit (i : RoiInputsType) : number :=
  totalBenefit i / 12.

Definition paybackMonths (i : RoiInputsType) : number :=
  if 0 <? monthlyBenefit i then totalCosts i / monthlyBenefit i else Infinity.

(** The warnings of [validateRoiInputs], in the order of section 4.1, each
    with its threshold test. *)
Definition reasonableness_checks (i : RoiInputsType) : list (bool * string) :=
  [ (160 <? i.(hoursSavedPerPersonPerMonth), "Hours saved per month seems high (>160 hours)"%string);
    (200 <? i.(costPerHour), "Cost per hour seems high (>$200)"%string);
    (0.9 <? i.(errorReductionPct), "Error reduction >90% may be optimistic"%string);
    (0.5 <? i.(cloudReductionPct), "Cloud cost reduction >50% may be optimistic"%string);
    (0.8 <? i.(riskReductionPct), "Risk reduction >80% may be optimistic"%string);
    (totalBenefit i <? i.(licenseCostAnnual), "Total benefits may not justify license costs"%string) ].

(** The warnings whose threshold is breached, in the order of the checks. *)
Definition breached (checks : list (bool * string)) : list string :=
  map snd (filter fst checks).

End Spec.

(** * The sensitivity band *)

(** Scaling by 0.75 lowers a non-negative value, scaling by 1.25 raises it. *)
Lemma scale_down (h : number) :
  (0 <=? h) = true -> (h * 0.75 <=? h) = true /\ (0 <=? h * 0.75) = true.
Proof.
  intros N.
  assert (K : is_nan (h * 0.75) = false) by (apply (mul_finite_not_nan h 0.75 _ _ N eq_refl)).
  assert (K1 : is_nan (h * 1) = false) by (apply (mul_finite_not_nan h 1 _ _ N eq_refl)).
  split.
  - rewrite <- (mul_1_r h N) at 2.
    apply mul_mono; try assumption; try reflexivity.
    apply fleb_refl, nonneg_not_nan, N.
  - apply mul_nonneg; try assumption; reflexivity.
Qed.

Lemma scale_up (h : number) :
  (0 <=? h) = true -> (h <=? h * 1.25) = true.
Proof.
  intros N.
  assert (K : is_nan (h * 1.25) = false) by (apply (mul_finite_not_nan h 1.25 _ _ N eq_refl)).
  assert (K1 : is_nan (h * 1) = false) by (apply (mul_finite_not_nan h 1 _ _ N eq_refl)).
  rewrite <- (mul_1_r h N) at 1.
  apply mul_mono; try assumption; try reflexivity.
  apply fleb_refl, nonneg_not_nan, N.
Qed.

(** A reduction percentage in [[0, 1]] scaled by 0.75 and capped stays below
    itself; scaled by 1.25 and capped it stays above itself. *)
Lemma pct_down (p : number) :
  (0 <=? p) = true -> (p <=? 1) = true ->
  (Math_min 1 (p * 0.75) <=? p) = true /\ (0 <=? Math_min 1 (p * 0.75)) = true.
Proof.
  intros N L. destruct (scale_down p N) as [D D0].
  rewrite Math_min_1_below by (apply (fleb_trans _ p); assumption).
  split; assumption.
Qed.

Lemma pct_up (p : number) :
  (0 <=? p) = true -> (p <=? 1) = true ->
  (p <=? Math_min 1 (p * 1.25)) = true.
Proof.
  intros N L. pose proof (scale_up p N) as U.
  assert (K : is_nan (p * 1.25) = false) by (apply (mul_finite_not_nan p 1.25 _ _ N eq_refl)).
  destruct (fleb_total (p * 1.25) 1 K eq_refl) as [H|H].
  - rewrite Math_min_1_below by exact H. exact U.
  - rewrite Math_min_1_above by exact H. exact L.
Qed.

(** ** The total benefit is monotone in the benefit-driving fields *)

(** [b] has the cost-side fields of [a] and benefit-driving fields that are
    at least those of [a]. *)
Definition benefit_le (a b : RoiInputsType) : Prop :=
  b.(nPeople) = a.(nPeople) /\ b.(costPerHour) = a.(costPerHour) /\
  b.(errorCostAnnual) = a.(errorCostAnnual) /\
  b.(cloudSpendAnnual) = a.(cloudSpendAnnual) /\
  b.(riskCostAnnual) = a.(riskCostAnnual) /\
  (a.(hoursSavedPerPersonPerMonth) <=? b.(hoursSavedPerPersonPerMonth)) = true /\
  (a.(errorReductionPct) <=? b.(errorReductionPct)) = true /\
  (a.(cloudReductionPct) <=? b.(cloudReductionPct)) = true /\
  (a.(riskReductionPct) <=? b.(riskReductionPct)) = true.

(** All the fields that enter the benefit are non-negative. *)
Definition benefit_fields_nonneg (a : RoiInputsType) : Prop :=
  (0 <=? a.(nPeople)) = true /\ (0 <=? a.(costPerHour)) = true /\
  (0 <=? a.(hoursSavedPerPersonPerMonth)) = true /\
  (0 <=? a.(errorCostAnnual)) = true /\ (0 <=? a.(errorReductionPct)) = true /\
  (0 <=? a.(cloudSpendAnnual)) = true /\ (0 <=? a.(cloudReductionPct)) = true /\
  (0 <=? a.(riskCostAnnual)) = true /\ (0 <=? a.(riskReductionPct)) = true.

Lemma totalBenefit_mono (a b : RoiInputsType) :
  benefit_fields_nonneg a -> benefit_le a b ->
  is_nan (Scenario.totalBenefit a) = false ->
  is_nan (Scenario.totalBenefit b) = false ->
  (0 <=? Scenario.totalBenefit a) = true /\
  (Scenario.totalBenefit a <=? Scenario.totalBenefit b) = true.
Proof.
  intros (Nn & Nc & Nh & Nec & Nep & Ncs & Ncp & Nrc & Nrp)
         (En & Ec & Eec & Ecs & Erc & Lh & Lep & Lcp & Lrp).
  unfold Scenario.totalBenefit, Scenario.laborSavings, Scenario.qualitySavings,
    Scenario.cloudSavings, Scenario.riskAvoidance.
  rewrite En, Ec, Eec, Ecs, Erc.
  intros Ka Kb.
  apply add_not_nan in Ka. destruct Ka as [Ka KRa].
  apply add_not_nan in Ka. destruct Ka as [Ka KCa].
  apply add_not_nan in Ka. destruct Ka as [KLa KQa].
  apply add_not_nan in Kb. destruct Kb as [Kb KRb].
  apply add_not_nan in Kb. destruct Kb as [Kb KCb].
  apply add_not_nan in Kb. destruct Kb as [KLb KQb].
  pose proof (mul_not_nan _ _ KLa) as [KL2a _]. pose proof (mul_not_nan _ _ KL2a) as [KL1a _].
  pose proof (mul_not_nan _ _ KLb) as [KL2b _]. pose proof (mul_not_nan _ _ KL2b) as [KL1b _].
  pose proof (nonneg_not_nan _ Nn) as Kn. pose proof (nonneg_not_nan _ Nc) as Kc.
  pose proof (nonneg_not_nan _ Nec) as Kec. pose proof (nonneg_not_nan _ Ncs) as Kcs.
  pose proof (nonneg_not_nan _ Nrc) as Krc.
  (* labour *)
  assert (N1 : (0 <=? nPeople a * hoursSavedPerPersonPerMonth a) = true)
    by (apply mul_nonneg; assumption).
  assert (L1 : (nPeople a * hoursSavedPerPersonPerMonth a
                <=? nPeople a * hoursSavedPerPersonPerMonth b) = true)
    by (apply mul_mono; try assumption; apply fleb_refl; assumption).
  assert (N2 : (0 <=? nPeople a * hoursSavedPerPersonPerMonth a * 12) = true)
    by (apply mul_nonneg; try assumption; reflexivity).
  assert (L2 : (nPeople a * hoursSavedPerPersonPerMonth a * 12
                <=? nPeople a * hoursSavedPerPersonPerMonth b * 12) = true)
    by (apply mul_mono; try assumption; reflexivity).
  assert (N3 : (0 <=? nPeople a * hoursSavedPerPersonPerMonth a * 12 * costPerHour a) = true)
    by (apply mul_nonneg; assumption).
  assert (L3 : (nPeople a * hoursSavedPerPersonPerMonth a * 12 * costPerHour a
                <=? nPeople a * hoursSavedPerPersonPerMonth b * 12 * costPerHour a) = true)
    by (apply mul_mono; try assumption; apply fleb_refl; assumption).
  (* quality, cloud, risk *)
  assert (NQ : (0 <=? errorCostAnnual a * errorReductionPct a) = true)
    by (apply mul_nonneg; assumption).
  assert (LQ : (errorCostAnnual a * errorReductionPct a
                <=? errorCostAnnual a * errorReductionPct b) = true)
    by (apply mul_mono; try assumption; apply fleb_refl; assumption).
  assert (NC : (0 <=? cloudSpendAnnual a * cloudReductionPct a) = true)
    by (apply mul_nonneg; assumption).
  assert (LC : (cloudSpendAnnual a * cloudReductionPct a
                <=? cloudSpendAnnual a * cloudReductionPct b) = true)
    by (apply mul_mono; try assumption; apply fleb_refl; assumption).
  assert (NR : (0 <=? riskCostAnnual a * riskReductionPct a) = true)
    by (apply mul_nonneg; assumption).
  assert (LR : (riskCostAnnual a * riskReductionPct a
                <=? riskCostAnnual a * riskReductionPct b) = true)
    by (apply mul_mono; try assumption; apply fleb_refl; assumption).
  split.
  - repeat apply add_nonneg; assumption.
  - repeat (apply add_mono; try assumption; try (repeat apply add_nonneg; assumption)).
Qed.

(** ** When the total benefit is a number *)

Lemma is_finite_nonneg_cases (x : number) :
  (0 <=? x) = true -> is_finite x = true ->
  (exists s, Prim2SF x = S754_zero s) \/ (exists m e, Prim2SF x = S754_finite false m e).
Proof.
  rewrite leb_zero_nonneg, is_finite_spec.
  destruct (Prim2SF x) as [s|s| |s m e]; try discriminate.
  - intros _ _. left. exists s. reflexivity.
  - destruct s; try discriminate. intros _ _. right. exists m, e. reflexivity.
Qed.

(** Products of finite non-negative doubles, and products with a positive
    finite factor, are never [NaN]. *)
Lemma mul_finite_finite_not_nan (x y : number) :
  (0 <=? x) = true -> (0 <=? y) = true ->
  is_finite x = true -> is_finite y = true ->
  is_nan (x * y) = false.
Proof.
  intros Nx Ny Fx Fy.
  destruct (is_finite_nonneg_cases y Ny Fy) as [[s E]|[m [e E]]].
  - destruct (is_finite_nonneg_cases x Nx Fx) as [[t Ex]|[n [f Ex]]];
      apply is_nan_false_iff; rewrite mul_spec, E, Ex; discriminate.
  - apply (mul_finite_not_nan x y m e Nx E).
Qed.

Lemma mul_pos_finite_l_not_nan (x y : number) :
  (0 <? x) = true -> is_finite x = true -> (0 <=? y) = true ->
  is_nan (x * y) = false.
Proof.
  rewrite ltb_zero_pos, is_finite_spec, leb_zero_nonneg. intros Px Fx Ny.
  pose proof (Prim2SF_valid x) as Vx. pose proof (Prim2SF_valid y) as Vy.
  apply is_nan_false_iff. rewrite mul_spec.
  destruct (Prim2SF x) as [s|s| |s m e]; try discriminate Px; try discriminate Fx.
  destruct s; try discriminate Px.
  destruct (Prim2SF y) as [t|t| |t n f]; try discriminate Ny; try discriminate.
  destruct t; try discriminate Ny. rewrite SFmul_finite. intros E.
  pose proof (binary_round_aux_nonneg (m * n) (e + f) (mul_precondition _ _ _ _ Vx Vy)) as NN.
  rewrite E in NN. discriminate NN.
Qed.

Lemma leb_1_finite (x : number) :
  (0 <=? x) = true -> (x <=? 1) = true -> is_finite x = true.
Proof.
  rewrite leb_zero_nonneg, leb_spec, Prim2SF_1, is_finite_spec.
  destruct (Prim2SF x) as [s|s| |s m e]; try discriminate; try reflexivity.
  destruct s; discriminate.
Qed.

Lemma integer_finite (x : number) : Number_isInteger x = true -> is_finite x = true.
Proof.
  unfold Number_isInteger. rewrite is_finite_spec.
  destruct (Prim2SF x); try discriminate; reflexivity.
Qed.

Lemma one_leb_pos (x : number) : (1 <=? x) = true -> (0 <? x) = true.
Proof.
  rewrite leb_spec, Prim2SF_1, ltb_zero_pos.
  destruct (Prim2SF x) as [s|s| |s m e]; try discriminate; destruct s; try discriminate; reflexivity.
Qed.

Lemma ltb_zero_leb (x : number) : (0 <? x) = true -> (0 <=? x) = true.
Proof.
  rewrite ltb_zero_pos, leb_zero_nonneg.
  destruct (Prim2SF x) as [s|s| |s m e]; try discriminate; destruct s; try discriminate; reflexivity.
Qed.

(** With a finite head count of at least one, a finite positive cost per
    hour, finite annual amounts and finite ratios, the total benefit is a
    number, whatever the hours. *)
Lemma totalBenefit_not_nan (a : RoiInputsType) :
  (0 <? a.(nPeople)) = true -> is_finite a.(nPeople) = true ->
  (0 <? a.(costPerHour)) = true -> is_finite a.(costPerHour) = true ->
  (0 <=? a.(hoursSavedPerPersonPerMonth)) = true ->
  (0 <=? a.(errorCostAnnual)) = true -> is_finite a.(errorCostAnnual) = true ->
  (0 <=? a.(errorReductionPct)) = true -> is_finite a.(errorReductionPct) = true ->
  (0 <=? a.(cloudSpendAnnual)) = true -> is_finite a.(cloudSpendAnnual) = true ->
  (0 <=? a.(cloudReductionPct)) = true -> is_finite a.(cloudReductionPct) = true ->
  (0 <=? a.(riskCostAnnual)) = true -> is_finite a.(riskCostAnnual) = true ->
  (0 <=? a.(riskReductionPct)) = true -> is_finite a.(riskReductionPct) = true ->
  is_nan (Scenario.totalBenefit a) = false.
Proof.
  intros Pn Fn Pc Fc Nh Nec Fec Nep Fep Ncs Fcs Ncp Fcp Nrc Frc Nrp Frp.
  pose proof (ltb_zero_leb _ Pn) as Nn.
  assert (K1 : is_nan (a.(nPeople) * a.(hoursSavedPerPersonPerMonth)) = false)
    by (apply mul_pos_finite_l_not_nan; assumption).
  pose proof (mul_nonneg _ _ Nn Nh K1) as N1.
  assert (K2 : is_nan (a.(nPeople) * a.(hoursSavedPerPersonPerMonth) * 12) = false)
    by (apply (mul_finite_not_nan _ 12 _ _ N1 eq_refl)).
  assert (N2 : (0 <=? a.(nPeople) * a.(hoursSavedPerPersonPerMonth) * 12) = true)
    by (apply mul_nonneg; try assumption; reflexivity).
  assert (K3 : is_nan (a.(nPeople) * a.(hoursSavedPerPersonPerMonth) * 12 * a.(costPerHour)) = false).
  { destruct (is_finite_nonneg_cases _ (ltb_zero_leb _ Pc) Fc) as [[s E]|[m [e E]]].
    - exfalso. rewrite ltb_zero_pos, E in Pc. destruct s; discriminate Pc.
    - apply (mul_finite_not_nan _ _ m e N2 E). }
  assert (N3 : (0 <=? a.(nPeople) * a.(hoursSavedPerPersonPerMonth) * 12 * a.(costPerHour)) = true)
    by (apply mul_nonneg; try assumption; apply ltb_zero_leb; assumption).
  assert (NQ : (0 <=? a.(errorCostAnnual) * a.(errorReductionPct)) = true)
    by (apply mul_nonneg; try assumption; apply mul_finite_finite_not_nan; assumption).
  assert (NC : (0 <=? a.(cloudSpendAnnual) * a.(cloudReductionPct)) = true)
    by (apply mul_nonneg; try assumption; apply mul_finite_finite_not_nan; assumption).
  assert (NR : (0 <=? a.(riskCostAnnual) * a.(riskReductionPct)) = true)
    by (apply mul_nonneg; try assumption; apply mul_finite_finite_not_nan; assumption).
  apply nonneg_not_nan. unfold Scenario.totalBenefit, Scenario.laborSavings,
    Scenario.qualitySavings, Scenario.cloudSavings, Scenario.riskAvoidance.
  repeat apply add_nonneg; assumption.
Qed.

Lemma Math_min_1_leb (x : number) :
  is_nan x = false -> (Math_min 1 x <=? 1) = true.
Proof.
  intros K. destruct (fleb_total x 1 K eq_refl) as [H|H].
  - rewrite Math_min_1_below by exact H. exact H.
  - rewrite Math_min_1_above by exact H. reflexivity.
Qed.

(** [r] is [x] capped at the ceiling [1]. *)
Definition capped_at_1 (x r : number) : Prop :=
  ((x <=? 1) = true -> r = x) /\
  ((1 <? x) = true -> r = 1) /\
  (Number_isNaN x = true -> r = NaN).

Lemma Math_min_1_capped (x : number) : capped_at_1 x (Math_min 1 x).
Proof.
  split; [|split].
  - apply Math_min_1_below.
  - apply Math_min_1_above.
  - apply Math_min_1_nan.
Qed.

(** ** The scaled records *)

Lemma parse_ok_fields (inputs : RoiInputsType) :
  RoiInputs_parse_ok inputs = true ->
  benefit_fields_nonneg inputs /\
  (inputs.(errorReductionPct) <=? 1) = true /\
  (inputs.(cloudReductionPct) <=? 1) = true /\
  (inputs.(riskReductionPct) <=? 1) = true.
Proof.
  unfold RoiInputs_parse_ok, benefit_fields_nonneg. rewrite !andb_true_iff.
  intros [[[[[[[[[[[_ N] C] H] EC] [EP0 EP1]] CS] [CP0 CP1]] RC] [RP0 RP1]] _] _].
  repeat split; try assumption.
  apply (fleb_nonneg_r 1); [reflexivity | exact N].
Qed.

(** The scaled records against the record itself. *)
Lemma band_low (inputs : RoiInputsType) :
  RoiInputs_parse_ok inputs = true ->
  benefit_fields_nonneg (scaleInputs inputs 0.75) /\
  benefit_le (scaleInputs inputs 0.75) inputs.
Proof.
  intros V. destruct (parse_ok_fields _ V) as (N & EP1 & CP1 & RP1).
  pose proof N as (Nn & Nc & Nh & Nec & Nep & Ncs & Ncp & Nrc & Nrp).
  destruct (scale_down _ Nh) as [Dh Dh0].
  destruct (pct_down _ Nep EP1) as [Dep Dep0].
  destruct (pct_down _ Ncp CP1) as [Dcp Dcp0].
  destruct (pct_down _ Nrp RP1) as [Drp Drp0].
  split.
  - unfold benefit_fields_nonneg, scaleInputs. cbn. repeat split; assumption.
  - unfold benefit_le, scaleInputs. cbn. repeat split; assumption.
Qed.

Lemma band_high (inputs : RoiInputsType) :
  RoiInputs_parse_ok inputs = true ->
  benefit_fields_nonneg inputs /\
  benefit_le inputs (scaleInputs inputs 1.25).
Proof.
  intros V. destruct (parse_ok_fields _ V) as (N & EP1 & CP1 & RP1).
  pose proof N as (Nn & Nc & Nh & Nec & Nep & Ncs & Ncp & Nrc & Nrp).
  split; [exact N|].
  unfold benefit_le, scaleInputs. cbn. repeat split; try reflexivity.
  - apply scale_up; assumption.
  - apply pct_up; assumption.
  - apply pct_up; assumption.
  - apply pct_up; assumption.
Qed.

(** The order of the three rounded totals, given that they are numbers. *)
Lemma output_ordered (inputs : RoiInputsType) :
  RoiInputs_parse_ok inputs = true ->
  Number_isNaN (output_value inputs).(low).(totalBenefit) = false ->
  Number_isNaN (output_value inputs).(mostLikely).(totalBenefit) = false ->
  Number_isNaN (output_value inputs).(high).(totalBenefit) = false ->
  ((output_value inputs).(low).(totalBenefit)
   <=? (output_value inputs).(mostLikely).(totalBenefit)) = true /\
  ((output_value inputs).(mostLikely).(totalBenefit)
   <=? (output_value inputs).(high).(totalBenefit)) = true.
Proof.
  intros V.
  unfold output_value, scenario_value. cbn [low mostLikely high totalBenefit].
  unfold Number_isNaN. intros Kl Km Kh.
  apply Math_round_not_nan in Kl, Km, Kh.
  destruct (band_low _ V) as [Nlow Llow]. destruct (band_high _ V) as [N Lhigh].
  destruct (totalBenefit_mono _ _ Nlow Llow Kl Km) as [P1 Q1].
  destruct (totalBenefit_mono _ _ N Lhigh Km Kh) as [P2 Q2].
  split; apply Math_round_mono; assumption.
Qed.

(** The fields of a record the schema accepts, scaled by a positive finite
    factor, still satisfy what [totalBenefit_not_nan] asks of the ratios and
    the hours. *)
Lemma scaled_totalBenefit_not_nan (inputs : RoiInputsType) (f : number) (mf : positive) (ef : Z) :
  RoiInputs_parse_ok inputs = true ->
  Prim2SF f = S754_finite false mf ef ->
  (0 <? inputs.(costPerHour)) = true -> Number_isFinite inputs.(costPerHour) = true ->
  Number_isFinite inputs.(errorCostAnnual) = true ->
  Number_isFinite inputs.(cloudSpendAnnual) = true ->
  Number_isFinite inputs.(riskCostAnnual) = true ->
  is_nan (Scenario.totalBenefit (scaleInputs inputs f)) = false.
Proof.
  intros V F Pc Fc Fec Fcs Frc.
  destruct (parse_ok_fields _ V) as (N & EP1 & CP1 & RP1).
  pose proof N as (Nn & _ & Nh & Nec & Nep & Ncs & Ncp & Nrc & Nrp).
  assert (In : Number_isInteger inputs.(nPeople) = true /\ (1 <=? inputs.(nPeople)) = true).
  { revert V. unfold RoiInputs_parse_ok. rewrite !andb_true_iff. tauto. }
  destruct In as [In Ln].
  assert (S : forall p, (0 <=? p) = true ->
              (0 <=? Math_min 1 (p * f)) = true /\ is_finite (Math_min 1 (p * f)) = true).
  { intros p Np.
    pose proof (mul_finite_not_nan p f mf ef Np F) as K.
    assert (Nq : (0 <=? p * f) = true).
    { apply mul_nonneg; try assumption. rewrite leb_zero_nonneg, F. reflexivity. }
    assert (Nm : (0 <=? Math_min 1 (p * f)) = true).
    { destruct (fleb_total (p * f) 1 K eq_refl) as [H|H].
      - rewrite Math_min_1_below by exact H. exact Nq.
      - rewrite Math_min_1_above by exact H. reflexivity. }
    split; [exact Nm|]. apply leb_1_finite; [exact Nm | apply Math_min_1_leb, K]. }
  destruct (S _ Nep) as [A1 A2]. destruct (S _ Ncp) as [B1 B2]. destruct (S _ Nrp) as [C1 C2].
  apply totalBenefit_not_nan; unfold scaleInputs; cbn; try assumption.
  - apply one_leb_pos, Ln.
  - apply integer_finite, In.
  - apply mul_nonneg; try assumption.
    + rewrite leb_zero_nonneg, F. reflexivity.
    + apply (mul_finite_not_nan _ f mf ef Nh F).
Qed.

(** * Signs

    The rounding keeps the sign it is given, so the sign of a difference, a
    product or a quotient can be read off the operands. *)

Section Binary64Signs.

Local Open Scope Z_scope.

Definition SFnonpos (x : spec_float) : bool :=
  match x with
  | S754_zero _ => true
  | S754_infinity s => s
  | S754_nan => false
  | S754_finite s _ _ => s
  end.

(** [x] is a zero, a finite value or an infinity of sign [s]. *)
Definition SFsigned (s : bool) (x : spec_float) : bool :=
  match x with
  | S754_zero t | S754_infinity t | S754_finite t _ _ => Bool.eqb t s
  | S754_nan => false
  end.

Lemma SFsigned_nonneg (x : spec_float) : SFsigned false x = true -> SFnonneg x = true.
Proof. destruct x as [s|s| |s m e]; try destruct s; simpl; congruence. Qed.

Lemma SFsigned_nonpos (x : spec_float) : SFsigned true x = true -> SFnonpos x = true.
Proof. destruct x as [s|s| |s m e]; try destruct s; simpl; congruence. Qed.

Lemma binary_round_aux_signed (s : bool) (m e : Z) (l : location) :
  0 <= m -> SFsigned s (binary_round_aux prec emax s m e l) = true.
Proof.
  intros H. unfold binary_round_aux, shr_fexp.
  pose proof (shr_nonneg (shr_record_of_loc m l) e
                (fexp prec emax (Zdigits2 m + e) - e)) as A.
  rewrite shr_record_of_loc_m in A. specialize (A H).
  destruct (shr (shr_record_of_loc m l) e (fexp prec emax (Zdigits2 m + e) - e)) as [mrs' e'].
  cbn [fst] in A.
  pose proof (round_nearest_even_nonneg _ (loc_of_shr_record mrs') A) as B.
  set (m1 := round_nearest_even (shr_m mrs') (loc_of_shr_record mrs')) in *.
  pose proof (shr_nonneg (shr_record_of_loc m1 loc_Exact) e'
                (fexp prec emax (Zdigits2 m1 + e') - e')) as C.
  rewrite shr_record_of_loc_m in C. specialize (C B).
  destruct (shr (shr_record_of_loc m1 loc_Exact) e' (fexp prec emax (Zdigits2 m1 + e') - e'))
    as [mrs'' e''].
  cbn [fst] in C.
  destruct (shr_m mrs'') as [|p|p]; try lia.
  - apply eqb_reflx.
  - destruct (e'' <=? emax - prec); apply eqb_reflx.
Qed.

Lemma binary_round_signed (s : bool) (m : positive) (e : Z) :
  SFsigned s (binary_round prec emax s m e) = true.
Proof.
  unfold binary_round.
  destruct (shl_align m e (fexp prec emax (Zpos (digits2_pos m) + e))) as [mz ez].
  apply binary_round_aux_signed. lia.
Qed.

Lemma binary_normalize_nonneg (m e : Z) :
  0 <= m -> SFnonneg (binary_normalize prec emax m e false) = true.
Proof.
  intros H. destruct m as [|p|p]; try lia; [reflexivity|].
  apply SFsigned_nonneg, binary_round_signed.
Qed.

Lemma binary_normalize_nonpos (m e : Z) :
  m <= 0 -> SFnonpos (binary_normalize prec emax m e false) = true.
Proof.
  intros H. destruct m as [|p|p]; try lia; [reflexivity|].
  apply SFsigned_nonpos, binary_round_signed.
Qed.

(** A non-positive value times a non-negative one is non-positive. *)
Lemma SFmul_nonpos (x y : spec_float) :
  SFnonpos x = true -> SFnonneg y = true ->
  SFmul prec emax x y <> S754_nan ->
  SFnonpos (SFmul prec emax x y) = true.
Proof.
  intros Nx Ny K.
  destruct x as [s|s| |s m e], y as [t|t| |t n f];
    try discriminate Nx; try discriminate Ny; try (exfalso; apply K; reflexivity);
    try reflexivity; simpl in Nx, Ny; subst;
    try (destruct t; [discriminate Ny|]); try reflexivity.
  simpl. apply SFsigned_nonpos. apply (binary_round_aux_signed true). lia.
Qed.

(** A non-positive value divided by a positive one is non-positive, unless
    both are infinite. *)
Lemma SFdiv_nonpos (x y : spec_float) :
  SFnonpos x = true -> SFltb (S754_zero false) y = true ->
  (match x with S754_infinity _ => false | _ => true end = true \/
   match y with S754_infinity _ => false | _ => true end = true) ->
  SFnonpos (SFdiv prec emax x y) = true.
Proof.
  intros Nx Py F.
  destruct y as [t|t| |t n f]; try discriminate Py; destruct t; try discriminate Py.
  - destruct x as [s|s| |s m e]; try discriminate Nx; try reflexivity.
    destruct F as [F|F]; discriminate F.
  - destruct x as [s|s| |s m e]; try discriminate Nx; try reflexivity.
    + simpl in Nx. subst s. reflexivity.
    + simpl in Nx. subst s.
      unfold SFdiv. pose proof (SFdiv_core_binary_nonneg m n e f) as Q.
      destruct (SFdiv_core_binary prec emax (Zpos m) e (Zpos n) f) as [[mz ez] lz].
      cbn [fst] in Q. apply SFsigned_nonpos. apply (binary_round_aux_signed true). exact Q.
Qed.

(** The aligned mantissas of two non-negative doubles compare as the doubles
    do. *)
Lemma aligned_le (mx my : positive) (ex ey : Z) :
  bounded prec emax mx ex = true -> bounded prec emax my ey = true ->
  SFleb (S754_finite false mx ex) (S754_finite false my ey) = true ->
  Zpos (fst (shl_align mx ex (Z.min ex ey))) <= Zpos (fst (shl_align my ey (Z.min ex ey))).
Proof.
  intros Vx Vy L.
  destruct (shl_align_spec mx ex (Z.min ex ey)) as [_ Hx].
  destruct (shl_align_spec my ey (Z.min ex ey)) as [_ Hy].
  rewrite Hx, Hy.
  replace (Z.min ex (Z.min ex ey)) with (Z.min ex ey) by lia.
  replace (Z.min ey (Z.min ex ey)) with (Z.min ex ey) by lia.
  apply (valid_leb_value mx my ex ey (Z.min ex ey) Vx Vy L); lia.
Qed.

(** [x - y] for non-negative [x <= y] is non-positive, and for non-negative
    [y <= x] non-negative, unless it is [NaN] (both infinite). *)
Lemma SFsub_nonpos (x y : spec_float) :
  valid_binary x = true -> valid_binary y = true ->
  SFnonneg x = true -> SFleb x y = true ->
  SFsub prec emax x y <> S754_nan ->
  SFnonpos (SFsub prec emax x y) = true.
Proof.
  intros Vx Vy Nx L K.
  destruct x as [s|s| |s m e], y as [t|t| |t n f];
    try destruct s; try destruct t;
    try discriminate Nx; try solve [cbv in L; discriminate L];
    try reflexivity; try solve [exfalso; apply K; reflexivity].
  unfold SFsub. cbn [cond_Zopp].
  apply binary_normalize_nonpos.
  pose proof (aligned_le m n e f Vx Vy L). lia.
Qed.

Lemma SFsub_nonneg (x y : spec_float) :
  valid_binary x = true -> valid_binary y = true ->
  SFnonneg y = true -> SFleb y x = true ->
  SFsub prec emax x y <> S754_nan ->
  SFnonneg (SFsub prec emax x y) = true.
Proof.
  intros Vx Vy Ny L K.
  destruct x as [s|s| |s m e], y as [t|t| |t n f];
    try destruct s; try destruct t;
    try discriminate Ny; try solve [cbv in L; discriminate L];
    try reflexivity; try solve [exfalso; apply K; reflexivity].
  unfold SFsub. cbn [cond_Zopp].
  apply binary_normalize_nonneg.
  pose proof (aligned_le n m f e Vy Vx L) as A.
  replace (Z.min f e) with (Z.min e f) in A by lia. lia.
Qed.

(** A non-positive value is below a non-negative one. *)
Lemma SFleb_nonpos_nonneg (x y : spec_float) :
  SFnonpos x = true -> SFnonneg y = true -> SFleb x y = true.
Proof.
  destruct x as [s|s| |s m e], y as [t|t| |t n f]; simpl; try discriminate;
    intros; subst; try reflexivity; try (destruct s; reflexivity);
    try (destruct t; try discriminate; reflexivity).
Qed.

(** Subtracting a non-negative value does not increase a non-negative one. *)
Lemma SFsub_le_l (x y : spec_float) :
  valid_binary x = true -> valid_binary y = true ->
  SFnonneg x = true -> SFnonneg y = true ->
  SFsub prec emax x y <> S754_nan ->
  SFleb (SFsub prec emax x y) x = true.
Proof.
  intros Vx Vy Nx Ny K.
  destruct x as [s|s| |s m e], y as [t|t| |t n f];
    try destruct s; try destruct t;
    try discriminate Nx; try discriminate Ny;
    try reflexivity; try solve [exfalso; apply K; reflexivity];
    try solve [apply SFleb_refl; discriminate].
  unfold SFsub. cbn [cond_Zopp].
  destruct (shl_align_spec m e (Z.min e f)) as [_ Hx].
  destruct (shl_align_spec n f (Z.min e f)) as [_ Hy].
  replace (Z.min e (Z.min e f)) with (Z.min e f) in Hx by lia.
  replace (Z.min f (Z.min e f)) with (Z.min e f) in Hy by lia.
  pose proof (bounded_facts _ _ Vx) as [Ee _].
  pose proof (bounded_facts _ _ Vy) as [Ef _].
  set (d := Zpos (fst (shl_align m e (Z.min e f))) - Zpos (fst (shl_align n f (Z.min e f)))).
  assert (D : d <= Zpos m * 2 ^ (e - Z.min e f)) by (unfold d; lia).
  destruct d as [|p|p] eqn:Ed.
  - reflexivity.
  - cbn [binary_normalize].
    destruct (binary_round_rounds_from p (Z.min e f) ltac:(lia)) as (mz & ez & R & U).
    apply (rounds_from_mono _ _ mz m ez e R (rounds_from_valid _ _ Vx)).
    rewrite U. unfold units.
    replace (e - -1074) with ((e - Z.min e f) + (Z.min e f - -1074)) by lia.
    rewrite Z.pow_add_r by lia. rewrite Z.mul_assoc.
    apply Z.mul_le_mono_nonneg_r; [apply Z.lt_le_incl, two_pow_pos; lia | exact D].
  - cbn [binary_normalize]. apply SFleb_nonpos_nonneg; [|reflexivity].
    apply SFsigned_nonpos, binary_round_signed.
Qed.

(** The negation of a non-negative value is non-positive. *)
Lemma SFopp_nonpos (x : spec_float) : SFnonneg x = true -> SFnonpos (SFopp x) = true.
Proof. destruct x as [s|s| |s m e]; try destruct s; simpl; congruence. Qed.

End Binary64Signs.

(** ** The signs of the primitive operations *)

Lemma leb_zero_nonpos (x : number) : (x <=? 0) = SFnonpos (Prim2SF x).
Proof.
  rewrite leb_spec, Prim2SF_0.
  destruct (Prim2SF x) as [s|s| |s m e]; try destruct s; reflexivity.
Qed.

Lemma nonpos_not_nan (x : number) : (x <=? 0) = true -> is_nan x = false.
Proof. apply leb_is_nan_l. Qed.

Lemma nonpos_leb_nonneg (x y : number) :
  (x <=? 0) = true -> (0 <=? y) = true -> (x <=? y) = true.
Proof.
  rewrite leb_zero_nonpos, leb_zero_nonneg, leb_spec. apply SFleb_nonpos_nonneg.
Qed.

(** A number is non-negative or non-positive. *)
Lemma sign_cases (x : number) :
  is_nan x = false -> (0 <=? x) = true \/ (x <=? 0) = true.
Proof.
  rewrite is_nan_spec, leb_zero_nonneg, leb_zero_nonpos.
  destruct (Prim2SF x) as [s|s| |s m e]; try destruct s; simpl; auto; discriminate.
Qed.

Lemma sub_not_nan (x y : number) :
  is_nan (x - y) = false -> is_nan x = false /\ is_nan y = false.
Proof.
  rewrite !is_nan_spec, sub_spec.
  destruct (Prim2SF x), (Prim2SF y); simpl; try discriminate; auto.
Qed.

(** A difference with a finite subtrahend is [NaN] only if the minuend is. *)
Lemma sub_finite_not_nan (x y : number) :
  is_nan x = false -> is_finite y = true -> is_nan (x - y) = false.
Proof.
  rewrite !is_nan_spec, is_finite_spec, sub_spec.
  pose proof (Prim2SF_valid x) as Vx. pose proof (Prim2SF_valid y) as Vy.
  destruct (Prim2SF x) as [s|s| |s m e], (Prim2SF y) as [t|t| |t n f];
    try discriminate; intros _ _; try reflexivity; try (destruct s, t; reflexivity).
  unfold SF64sub, SFsub.
  destruct (cond_Zopp s (Zpos (fst (shl_align m e (Z.min e f)))) -
            cond_Zopp t (Zpos (fst (shl_align n f (Z.min e f)))))%Z as [|p|p];
    [reflexivity| |]; cbn [binary_normalize].
  - pose proof (binary_round_signed false p (Z.min e f)) as S.
    destruct (binary_round prec emax false p (Z.min e f)); try reflexivity; discriminate S.
  - pose proof (binary_round_signed true p (Z.min e f)) as S.
    destruct (binary_round prec emax true p (Z.min e f)); try reflexivity; discriminate S.
Qed.

Lemma sub_nonpos (x y : number) :
  (0 <=? x) = true -> (x <=? y) = true -> is_nan (x - y) = false ->
  (x - y <=? 0) = true.
Proof.
  rewrite leb_zero_nonneg, leb_zero_nonpos, is_nan_false_iff, leb_spec, sub_spec.
  apply SFsub_nonpos; apply Prim2SF_valid.
Qed.

Lemma sub_nonneg (x y : number) :
  (0 <=? y) = true -> (y <=? x) = true -> is_nan (x - y) = false ->
  (0 <=? x - y) = true.
Proof.
  rewrite !leb_zero_nonneg, is_nan_false_iff, leb_spec, sub_spec.
  apply SFsub_nonneg; apply Prim2SF_valid.
Qed.

Lemma sub_leb_l (x y : number) :
  (0 <=? x) = true -> (0 <=? y) = true -> is_nan (x - y) = false ->
  (x - y <=? x) = true.
Proof.
  rewrite !leb_zero_nonneg, is_nan_false_iff, leb_spec, sub_spec.
  apply SFsub_le_l; apply Prim2SF_valid.
Qed.

Lemma mul_nonpos (x y : number) :
  (x <=? 0) = true -> (0 <=? y) = true -> is_nan (x * y) = false ->
  (x * y <=? 0) = true.
Proof.
  rewrite !leb_zero_nonpos, leb_zero_nonneg, is_nan_false_iff, mul_spec.
  apply SFmul_nonpos.
Qed.

Lemma div_nonpos (x y : number) :
  (x <=? 0) = true -> (0 <? y) = true ->
  is_finite x = true \/ is_finite y = true ->
  (x / y <=? 0) = true.
Proof.
  rewrite !leb_zero_nonpos, ltb_zero_pos, !is_finite_spec, div_spec.
  intros Nx Py F. apply SFdiv_nonpos; try assumption.
  destruct F as [F|F]; [left|right].
  - destruct (Prim2SF x); try discriminate F; reflexivity.
  - destruct (Prim2SF y); try discriminate F; reflexivity.
Qed.

(** A product with a positive finite constant is [NaN] only if the other
    factor is. *)
Lemma mul_const_not_nan (x k : number) (mk : positive) (ek : Z) :
  is_nan x = false -> Prim2SF k = S754_finite false mk ek -> is_nan (x * k) = false.
Proof.
  rewrite !is_nan_spec, mul_spec. intros N K. rewrite K.
  destruct (Prim2SF x) as [s|s| |s m e]; try discriminate N; try reflexivity.
  unfold SF64mul, SFmul.
  pose proof (binary_round_aux_signed (xorb s false) (Zpos (m * mk)) (e + ek) loc_Exact
                ltac:(lia)) as S.
  destruct (binary_round_aux prec emax (xorb s false) (Zpos (m * mk)) (e + ek) loc_Exact);
    try reflexivity; discriminate S.
Qed.

(** ** [Math.round]: sign and integrality *)

Lemma Math_round_nonpos (x : number) :
  (x <=? 0) = true -> (Math_round x <=? 0) = true.
Proof.
  rewrite !leb_zero_nonpos. intros N.
  pose proof (Math_round_nearest x) as R. unfold nearest_whole_unit in R.
  destruct (Prim2SF x) as [s|s| |s m e] eqn:E; try (rewrite R, E; exact N).
  simpl in N. subst s.
  destruct R as (n & B & C). unfold nearest_integer in B. cbn [cond_Zopp] in B.
  set (k := Z.max 0 (- e)) in *.
  assert (P1 : (0 < 2 ^ k)%Z) by (apply two_pow_pos; lia).
  assert (P2 : (0 < 2 ^ (e + k))%Z) by (apply two_pow_pos; lia).
  assert (Hn : (n <= 0)%Z) by nia.
  unfold carries in C. destruct n as [|p|p]; try lia.
  - rewrite C. reflexivity.
  - destruct C as (m' & e' & C & _). rewrite C. reflexivity.
Qed.

(** A finite result of [Math.round] is an integer. *)
Lemma Math_round_integer (x : number) :
  Number_isFinite (Math_round x) = true -> Number_isInteger (Math_round x) = true.
Proof.
  unfold Number_isFinite, Number_isInteger. rewrite is_finite_spec.
  pose proof (Math_round_nearest x) as R. unfold nearest_whole_unit in R.
  destruct (Prim2SF x) as [s|s| |s m e] eqn:E.
  - rewrite R, E. reflexivity.
  - rewrite R, E. discriminate.
  - rewrite R, E. discriminate.
  - intros _. destruct R as (n & _ & C). unfold carries in C.
    destruct n as [|p|p].
    + rewrite C. destruct s; reflexivity.
    + destruct C as (m' & e' & C & V). rewrite C.
      destruct (Z.leb_spec 0 e') as [L|L]; [reflexivity|].
      replace (Z.max 0 (- e')) with (- e')%Z in V by lia.
      replace (e' + - e')%Z with 0%Z in V by lia. rewrite Z.pow_0_r in V.
      apply orb_true_iff. right. apply Z.eqb_eq.
      replace (Zpos m') with (Z.abs (Zpos p) * 2 ^ (- e'))%Z by lia.
      apply Z.mod_mul. pose proof (two_pow_pos (- e') ltac:(lia)). lia.
    + destruct C as (m' & e' & C & V). rewrite C.
      destruct (Z.leb_spec 0 e') as [L|L]; [reflexivity|].
      replace (Z.max 0 (- e')) with (- e')%Z in V by lia.
      replace (e' + - e')%Z with 0%Z in V by lia. rewrite Z.pow_0_r in V.
      apply orb_true_iff. right. apply Z.eqb_eq.
      replace (Zpos m') with (Z.abs (Zneg p) * 2 ^ (- e'))%Z by lia.
      apply Z.mod_mul. pose proof (two_pow_pos (- e') ltac:(lia)). lia.
Qed.

(** [Math.round] never lifts a smaller value above a non-negative greater
    one. *)
Lemma Math_round_leb (x y : number) :
  (0 <=? y) = true -> (x <=? y) = true -> (Math_round x <=? Math_round y) = true.
Proof.
  intros Ny L.
  destruct (sign_cases x (leb_is_nan_l _ _ L)) as [Nx|Nx].
  - apply Math_round_mono; assumption.
  - apply nonpos_leb_nonneg.
    + apply Math_round_nonpos, Nx.
    + apply Math_round_nonneg, Ny.
Qed.

Lemma round_one_decimal_nonpos (x : number) :
  (x <=? 0) = true -> (Math_round (x * 10) / 10 <=? 0) = true.
Proof.
  intros N.
  assert (K : is_nan (x * 10) = false)
    by (apply (mul_const_not_nan x 10 _ _ (nonpos_not_nan _ N) eq_refl)).
  apply div_nonpos.
  - apply Math_round_nonpos, mul_nonpos; try assumption; reflexivity.
  - reflexivity.
  - right. reflexivity.
Qed.

(** ** Benefit, costs and the licence warning *)

Lemma leb_add_r (x y : number) :
  (0 <=? x) = true -> (0 <=? y) = true -> (x <=? x + y) = true.
Proof.
  intros Nx Ny.
  assert (A : (x <=? x + 0) = true).
  { revert Nx. rewrite leb_zero_nonneg, leb_spec, add_spec, Prim2SF_0.
    destruct (Prim2SF x) as [s|s| |s m e]; try destruct s; try discriminate; intros _;
      try reflexivity.
    apply SFleb_refl. discriminate. }
  apply (fleb_trans _ (x + 0)); try assumption.
  apply add_mono; try assumption; try reflexivity.
  apply fleb_refl, nonneg_not_nan, Nx.
Qed.

Lemma ltb_leb (x y : number) : (x <? y) = true -> (x <=? y) = true.
Proof.
  rewrite ltb_spec, leb_spec. unfold SFltb, SFleb.
  destruct (SFcompare (Prim2SF x) (Prim2SF y)) as [[| |]|]; congruence.
Qed.

Lemma totalBenefit_nonneg (inputs : RoiInputsType) :
  RoiInputs_parse_ok inputs = true ->
  is_nan (Scenario.totalBenefit inputs) = false ->
  (0 <=? Scenario.totalBenefit inputs) = true.
Proof.
  intros V K. destruct (parse_ok_fields _ V) as (N & _).
  apply (totalBenefit_mono inputs inputs); try assumption.
  destruct N as (Nn & Nc & Nh & Nec & Nep & Ncs & Ncp & Nrc & Nrp).
  unfold benefit_le. repeat split; apply fleb_refl, nonneg_not_nan; assumption.
Qed.

Lemma parse_ok_costs (inputs : RoiInputsType) :
  RoiInputs_parse_ok inputs = true ->
  (0 <=? inputs.(licenseCostAnnual)) = true /\ (0 <=? inputs.(implementationOneTime)) = true.
Proof.
  unfold RoiInputs_parse_ok. rewrite !andb_true_iff. tauto.
Qed.

Lemma totalCosts_nonneg (inputs : RoiInputsType) :
  RoiInputs_parse_ok inputs = true -> (0 <=? Scenario.totalCosts inputs) = true.
Proof.
  intros V. destruct (parse_ok_costs _ V). apply add_nonneg; assumption.
Qed.

(** The sign of the net and of the ROI, from the comparison of the unrounded
    benefit and costs. *)
Lemma scenario_nonneg (inputs : RoiInputsType) :
  (0 <=? Scenario.totalCosts inputs) = true ->
  Number_isFinite (Scenario.totalCosts inputs) = true ->
  (Scenario.totalCosts inputs <=? Scenario.totalBenefit inputs) = true ->
  (0 <=? (scenario_value inputs).(year1Net)) = true /\
  (0 <=? (scenario_value inputs).(roiPct)) = true.
Proof.
  intros Nc Fc L.
  assert (Kd : is_nan (Scenario.totalBenefit inputs - Scenario.totalCosts inputs) = false)
    by (apply sub_finite_not_nan; [exact (leb_is_nan_r _ _ L) | exact Fc]).
  pose proof (sub_nonneg _ _ Nc L Kd) as Nd.
  unfold scenario_value. cbn [year1Net roiPct]. split.
  - apply Math_round_nonneg. exact Nd.
  - apply round_one_decimal_nonneg. unfold Scenario.roiPct.
    destruct (0 <? Scenario.totalCosts inputs) eqn:P; [|reflexivity].
    assert (Q : (0 <=? (Scenario.totalBenefit inputs - Scenario.totalCosts inputs)
                        / Scenario.totalCosts inputs) = true)
      by (apply div_nonneg; [exact Nd | exact P | right; exact Fc]).
    apply mul_nonneg; [exact Q | reflexivity |].
    apply (mul_finite_not_nan _ 100 _ _ Q eq_refl).
Qed.

Lemma scenario_nonpos (inputs : RoiInputsType) :
  (0 <=? Scenario.totalBenefit inputs) = true ->
  Number_isFinite (Scenario.totalCosts inputs) = true ->
  (Scenario.totalBenefit inputs <=? Scenario.totalCosts inputs) = true ->
  ((scenario_value inputs).(year1Net) <=? 0) = true /\
  ((scenario_value inputs).(roiPct) <=? 0) = true.
Proof.
  intros Nb Fc L.
  assert (Kd : is_nan (Scenario.totalBenefit inputs - Scenario.totalCosts inputs) = false)
    by (apply sub_finite_not_nan; [exact (leb_is_nan_l _ _ L) | exact Fc]).
  pose proof (sub_nonpos _ _ Nb L Kd) as Nd.
  unfold scenario_value. cbn [year1Net roiPct]. split.
  - apply Math_round_nonpos. exact Nd.
  - apply round_one_decimal_nonpos. unfold Scenario.roiPct.
    destruct (0 <? Scenario.totalCosts inputs) eqn:P; [|reflexivity].
    assert (Q : ((Scenario.totalBenefit inputs - Scenario.totalCosts inputs)
                 / Scenario.totalCosts inputs <=? 0) = true)
      by (apply div_nonpos; [exact Nd | exact P | right; exact Fc]).
    apply mul_nonpos; [exact Q | reflexivity |].
    apply (mul_const_not_nan _ 100 _ _ (nonpos_not_nan _ Q) eq_refl).
Qed.

(** The last warning of [validateRoiInputs] is there exactly when the
    unrounded benefit is below the licence cost. *)
Lemma license_warning_iff (inputs : RoiInputsType) :
  In "Total benefits may not justify license costs"%string (validateRoiInputs inputs) <->
  (Scenario.totalBenefit inputs <? inputs.(licenseCostAnnual)) = true.
Proof.
  unfold validateRoiInputs, push, Scenario.totalBenefit, Scenario.laborSavings,
    Scenario.qualitySavings, Scenario.cloudSavings, Scenario.riskAvoidance.
  destruct (160 <? inputs.(hoursSavedPerPersonPerMonth));
    destruct (200 <? inputs.(costPerHour));
    destruct (0.9 <? inputs.(errorReductionPct));
    destruct (0.5 <? inputs.(cloudReductionPct));
    destruct (0.8 <? inputs.(riskReductionPct));
    match goal with |- context [?a <? licenseCostAnnual inputs] =>
      destruct (a <? licenseCostAnnual inputs) end;
    cbn [app In]; split; intros H; try reflexivity; try discriminate H;
    try (repeat (destruct H as [H|H]; [discriminate H|]); contradiction);
    auto 10.
Qed.

Lemma pos_finite_cases (f : number) :
  (0 <? f) = true -> is_finite f = true ->
  exists (m : positive) (e : Z), Prim2SF f = S754_finite false m e.
Proof.
  intros P F.
  destruct (is_finite_nonneg_cases _ (ltb_zero_leb _ P) F) as [[s E]|[m [e E]]].
  - exfalso. rewrite ltb_zero_pos, E in P. destruct s; discriminate P.
  - exists m, e. exact E.
Qed.

Lemma eqb_Infinity (x : number) : (x =? Infinity) = true <-> x = Infinity.
Proof.
  rewrite eqb_spec. change (Prim2SF Infinity) with (S754_infinity false). split.
  - intros H. apply Prim2SF_inj. change (Prim2SF Infinity) with (S754_infinity false).
    destruct (Prim2SF x) as [s|s| |s m e]; try destruct s; try discriminate H; reflexivity.
  - intros ->. reflexivity.
Qed.

Lemma length_append (s t : string) :
  String.length (s ++ t) = (String.length s + String.length t)%nat.
Proof. induction s as [|a s IH]; simpl; congruence. Qed.

Lemma months_not_Never (s : string) : (s ++ " months")%string <> "Never"%string.
Proof.
  intros H. apply (f_equal String.length) in H.
  rewrite length_append in H. simpl in H. lia.
Qed.

(** [s] has [t] as a substring. *)
Definition substring_of (t s : string) : Prop :=
  exists a b : string, s = (a ++ t ++ b)%string.

Lemma prefix_iff (t s : string) : prefix t s = true <-> exists b, s = (t ++ b)%string.
Proof.
  revert s. induction t as [|c t IH]; intros s.
  - split; [intros _; exists s; reflexivity|]. intros _. destruct s; reflexivity.
  - destruct s as [|d s]; simpl.
    + split; [discriminate|]. intros [b H]. discriminate H.
    + destruct (Ascii.ascii_dec c d) as [->|N].
      * rewrite IH. split; intros [b H]; exists b; congruence.
      * split; [discriminate|]. intros [b H]. congruence.
Qed.

Lemma includes_iff (s t : string) : includes s t = true <-> substring_of t s.
Proof.
  unfold substring_of. induction s as [|c s IH]; cbn [includes].
  - rewrite orb_false_r, prefix_iff. split.
    + intros [b H]. exists EmptyString, b. exact H.
    + intros (a & b & H). destruct a as [|x a]; [exists b; exact H | discriminate H].
  - rewrite orb_true_iff, prefix_iff, IH. split.
    + intros [[b H]|(a & b & H)].
      * exists EmptyString, b. exact H.
      * exists (String c a), b. simpl. congruence.
    + intros (a & b & H). destruct a as [|x a].
      * left. exists b. exact H.
      * right. exists a, b. simpl in H. congruence.
Qed.

Lemma join_includes (sep x : string) (l : list string) :
  In x l -> substring_of x (join sep l).
Proof.
  unfold join. induction l as [|y l IH]; intros H; [contradiction|].
  destruct H as [->|H].
  - destruct l as [|z l].
    + exists EmptyString, EmptyString. simpl.
      clear. induction x as [|c x IH]; simpl; congruence.
    + exists EmptyString, (sep ++ String.concat sep (z :: l))%string. reflexivity.
  - destruct (IH H) as (a & b & E). destruct l as [|z l]; [contradiction|].
    exists (y ++ sep ++ a)%string, b.
    change (String.concat sep (y :: z :: l))
      with (y ++ sep ++ String.concat sep (z :: l))%string.
    rewrite E. clear.
    induction y as [|c y IH]; simpl.
    + induction sep as [|c sep IH]; simpl; congruence.
    + congruence.
Qed.

(** Numbers that differ are distinguished by a comparison. *)
Ltac number_neq :=
  let H := fresh in
  intros H; apply (f_equal Prim2SF) in H; vm_compute in H; discriminate H.

(** [v] is what is read back for the number [x]: a number equal to [x] when
    [x] is finite, and [null] when it is not. *)
Definition read_back_of (x : number) (v : JsValue) : Prop :=
  (Number_isFinite x = true -> exists y : number, v = VNumber y /\ (y =? x) = true) /\
  (Number_isFinite x = false -> v = VNull).

(** Induction on values, through the arrays and the objects. *)
Section JsValue_induction.

Variable P : JsValue -> Prop.
Hypothesis HUndefined : P VUndefined.
Hypothesis HNull : P VNull.
Hypothesis HBoolean : forall b, P (VBoolean b).
Hypothesis HNumber : forall x, P (VNumber x).
Hypothesis HString : forall s, P (VString s).
Hypothesis HArray : forall elements, Forall P elements -> P (VArray elements).
Hypothesis HObject :
  forall properties, Forall (fun p => P (snd p)) properties -> P (VObject properties).

Fixpoint JsValue_induction (v : JsValue) : P v :=
  match v with
  | VUndefined => HUndefined
  | VNull => HNull
  | VBoolean b => HBoolean b
  | VNumber x => HNumber x
  | VString s => HString s
  | VArray elements =>
      HArray elements
        ((fix all (l : list JsValue) : Forall P l :=
            match l with
            | [] => Forall_nil P
            | e :: l' => Forall_cons e (JsValue_induction e) (all l')
            end) elements)
  | VObject properties =>
      HObject properties
        ((fix all (l : list (string * JsValue)) : Forall (fun p => P (snd p)) l :=
            match l with
            | [] => Forall_nil _
            | p :: l' => Forall_cons p (JsValue_induction (snd p)) (all l')
            end) properties)
  end.

End JsValue_induction.

Lemma stringify_number_canonical (x : number) :
  Number_isFinite x = true ->
  JSON_stringify (VNumber (if x =? 0 then 0 else x))
  = Some (JNumber (if x =? 0 then 0 else x)).
Proof.
  intros F. cbn [JSON_stringify].
  destruct (x =? 0) eqn:Z; [reflexivity|]. rewrite F, Z. reflexivity.
Qed.

(** A text that [JSON.stringify] wrote is written again as it is once
    parsed. *)
Lemma stringify_parse (v : JsValue) :
  forall text, JSON_stringify v = Some text -> JSON_stringify (JSON_parse text) = Some text.
Proof.
  induction v as [| |b|x|s|elements IHe|properties IHp] using JsValue_induction;
    intros text H; cbn [JSON_stringify] in H.
  - discriminate H.
  - injection H as <-. reflexivity.
  - injection H as <-. reflexivity.
  - injection H as <-. destruct (Number_isFinite x) eqn:F; [|reflexivity].
    cbn [JSON_parse]. apply stringify_number_canonical, F.
  - injection H as <-. reflexivity.
  - injection H as <-. cbn [JSON_parse JSON_stringify]. do 2 f_equal.
    rewrite map_map.
    induction IHe as [|e l He Hl IH]; [reflexivity|].
    cbn [map]. f_equal; [|exact IH].
    destruct (JSON_stringify e) as [j|] eqn:E.
    + rewrite (He j eq_refl). reflexivity.
    + reflexivity.
  - injection H as <-. cbn [JSON_parse JSON_stringify]. do 2 f_equal.
    induction IHp as [|p l Hp Hl IH]; [reflexivity|].
    cbn [flat_map]. rewrite map_app, flat_map_app, IH. f_equal.
    destruct (JSON_stringify (snd p)) as [j|] eqn:E; [|reflexivity].
    cbn [map flat_map fst snd]. rewrite (Hp j eq_refl). reflexivity.
Qed.

Lemma eqb_finite_refl (x : number) : Number_isFinite x = true -> (x =? x) = true.
Proof.
  unfold Number_isFinite. rewrite is_finite_spec, eqb_spec. unfold SFeqb. intros F.
  rewrite SFcompare_refl; [reflexivity|]. intros E. rewrite E in F. discriminate F.
Qed.

Lemma read_back_stringify (x : number) :
  read_back_of x
    (JSON_parse (if Number_isFinite x then JNumber (if x =? 0 then 0 else x) else JNull)).
Proof.
  unfold read_back_of. destruct (Number_isFinite x) eqn:F; split; try discriminate.
  - intros _. cbn [JSON_parse]. eexists. split; [reflexivity|].
    destruct (x =? 0) eqn:Z.
    + destruct (eqb_zero_cases _ Z) as [->| ->]; reflexivity.
    + apply eqb_finite_refl, F.
  - reflexivity.
Qed.

(** * Small integers as doubles *)

Lemma Z2number_units (n : Z) :
  (0 < n < 2 ^ 53)%Z ->
  exists (m : positive) (e : Z),
    Prim2SF (Z2number n) = S754_finite false m e /\
    bounded prec emax m e = true /\
    units m e = (n * 2 ^ 1074)%Z.
Proof.
  intros B. destruct n as [|p|p]; try lia.
  pose proof (Z2number_carries (Zpos p) false ltac:(lia) ltac:(simpl Z.abs; lia)) as C.
  destruct C as (m & e & E & V). change (Zpos p <? 0)%Z with false in E.
  { exists m, e.
    pose proof (Prim2SF_valid (Z2number (Zpos p))) as Vb. rewrite E in Vb.
    split; [exact E|]. split; [exact Vb|].
    pose proof (bounded_facts _ _ Vb) as [Ee _].
    unfold units.
    destruct (Z.le_gt_cases 0 e) as [L|L].
    - replace (Z.max 0 (- e)) with 0%Z in V by lia.
      rewrite Z.add_0_r, Z.pow_0_r in V.
      replace (e - -1074)%Z with (e + 1074)%Z by lia.
      rewrite Z.pow_add_r by lia. simpl Z.abs in V. nia.
    - replace (Z.max 0 (- e)) with (- e)%Z in V by lia.
      replace (e + - e)%Z with 0%Z in V by lia. rewrite Z.pow_0_r in V.
      simpl Z.abs in V.
      replace (Zpos m) with (Zpos p * 2 ^ (- e))%Z by lia.
      rewrite <- Z.mul_assoc, <- Z.pow_add_r by lia.
      replace (- e + (e - -1074))%Z with 1074%Z by lia. reflexivity. }
Qed.

(** The conversion is monotone and one-to-one on the integers it represents
    exactly. *)
Lemma Z2number_mono (a b : Z) :
  (0 <= a <= b)%Z -> (b < 2 ^ 53)%Z -> (Z2number a <=? Z2number b) = true.
Proof.
  intros L B. rewrite leb_spec.
  destruct (Z.eq_dec a 0) as [->|Na].
  - change (Prim2SF (Z2number 0)) with (S754_zero false).
    destruct (Z.eq_dec b 0) as [->|Nb]; [reflexivity|].
    destruct (Z2number_units b ltac:(lia)) as (m & e & E & _). rewrite E. reflexivity.
  - destruct (Z2number_units a ltac:(lia)) as (ma & ea & Ea & Va & Ua).
    destruct (Z2number_units b ltac:(lia)) as (mb & eb & Eb & Vb & Ub).
    rewrite Ea, Eb.
    apply (rounds_from_mono _ _ ma mb ea eb (rounds_from_valid _ _ Va)
             (rounds_from_valid _ _ Vb)).
    rewrite Ua, Ub. apply Z.mul_le_mono_nonneg_r; lia.
Qed.

Lemma Z2number_inj (a b : Z) :
  (0 <= a < 2 ^ 53)%Z -> (0 <= b < 2 ^ 53)%Z -> Z2number a = Z2number b -> a = b.
Proof.
  intros Ba Bb H. apply (f_equal Prim2SF) in H.
  destruct (Z.eq_dec a 0) as [->|Na], (Z.eq_dec b 0) as [->|Nb]; try reflexivity.
  - destruct (Z2number_units b ltac:(lia)) as (m & e & E & _).
    rewrite E in H. discriminate H.
  - destruct (Z2number_units a ltac:(lia)) as (m & e & E & _).
    rewrite E in H. discriminate H.
  - destruct (Z2number_units a ltac:(lia)) as (ma & ea & Ea & Va & Ua).
    destruct (Z2number_units b ltac:(lia)) as (mb & eb & Eb & Vb & Ub).
    rewrite Ea, Eb in H. injection H as -> ->. rewrite Ua in Ub.
    apply Z.mul_reg_r in Ub; [exact Ub|]. pose proof (two_pow_pos 1074 ltac:(lia)). lia.
Qed.

(** The score on integers. *)
Definition points {ProjectType EvidenceItem PainType StakeholderType OutreachAssetType : Type}
    (data : ExportData ProjectType EvidenceItem PainType StakeholderType OutreachAssetType)
  : Z :=
  ((if (1 <=? List.length data.(evidence))%nat then 10 else 0) +
   (if (3 <=? List.length data.(evidence))%nat then 10 else 0) +
   (if (5 <=? List.length data.(evidence))%nat then 10 else 0) +
   (if (1 <=? List.length data.(pains))%nat then 15 else 0) +
   (if (3 <=? List.length data.(pains))%nat then 10 else 0) +
   (match data.(roiOutput) with Some _ => 20 | None => 0 end) +
   (if (1 <=? List.length data.(stakeholders))%nat then 10 else 0) +
   (if (3 <=? List.length data.(stakeholders))%nat then 5 else 0) +
   (if (1 <=? List.length data.(outreachAssets))%nat then 10 else 0))%Z.

Lemma calculateCompleteness_points
  {ProjectType EvidenceItem PainType StakeholderType OutreachAssetType : Type}
  (data : ExportData ProjectType EvidenceItem PainType StakeholderType OutreachAssetType) :
  calculateCompleteness data = Z2number (points data).
Proof.
  unfold calculateCompleteness, points.
  destruct (1 <=? List.length data.(evidence))%nat, (3 <=? List.length data.(evidence))%nat,
    (5 <=? List.length data.(evidence))%nat, (1 <=? List.length data.(pains))%nat,
    (3 <=? List.length data.(pains))%nat, data.(roiOutput),
    (1 <=? List.length data.(stakeholders))%nat, (3 <=? List.length data.(stakeholders))%nat,
    (1 <=? List.length data.(outreachAssets))%nat; reflexivity.
Qed.

Lemma points_range
  {ProjectType EvidenceItem PainType StakeholderType OutreachAssetType : Type}
  (data : ExportData ProjectType EvidenceItem PainType StakeholderType OutreachAssetType) :
  (0 <= points data <= 100)%Z.
Proof.
  unfold points.
  destruct (1 <=? List.length data.(evidence))%nat, (3 <=? List.length data.(evidence))%nat,
    (5 <=? List.length data.(evidence))%nat, (1 <=? List.length data.(pains))%nat,
    (3 <=? List.length data.(pains))%nat, data.(roiOutput),
    (1 <=? List.length data.(stakeholders))%nat, (3 <=? List.length data.(stakeholders))%nat,
    (1 <=? List.length data.(outreachAssets))%nat; lia.
Qed.

Lemma step_mono (k n m : nat) (a : Z) :
  (n <= m)%nat -> (0 <= a)%Z ->
  ((if (k <=? n)%nat then a else 0) <= (if (k <=? m)%nat then a else 0))%Z.
Proof.
  intros L A. destruct (Nat.leb_spec k n), (Nat.leb_spec k m); lia.
Qed.

(** * Differences and negative values *)

Section Binary64Differences.

Local Open Scope Z_scope.

(** Negation mirrors the order. *)
Lemma SFcompare_opp (x y : spec_float) :
  SFcompare (SFopp x) (SFopp y) = SFcompare y x.
Proof.
  destruct x as [s|s| |s m e], y as [t|t| |t n f]; try reflexivity;
    try (destruct s; reflexivity); try (destruct t; reflexivity);
    try (destruct s, t; reflexivity).
  destruct s, t; try reflexivity; cbn [SFopp negb SFcompare].
  - rewrite (Z.compare_antisym e f).
    destruct (e ?= f); cbn [CompOpp]; try reflexivity.
    change (Pos.compare_cont Eq n m) with (Pos.compare n m).
    change (Pos.compare_cont Eq m n) with (Pos.compare m n).
    rewrite (Pos.compare_antisym n m). reflexivity.
  - rewrite (Z.compare_antisym e f).
    destruct (e ?= f); cbn [CompOpp]; try reflexivity.
    change (Pos.compare_cont Eq n m) with (Pos.compare n m).
    change (Pos.compare_cont Eq m n) with (Pos.compare m n).
    rewrite (Pos.compare_antisym n m), CompOpp_involutive. reflexivity.
Qed.

Lemma SFleb_opp (x y : spec_float) : SFleb (SFopp x) (SFopp y) = SFleb y x.
Proof. unfold SFleb. rewrite SFcompare_opp. reflexivity. Qed.

(** Rounding with the negative sign is the negation of rounding with the
    positive one. *)
Lemma binary_round_aux_opp (m e : Z) (l : location) :
  binary_round_aux prec emax true m e l = SFopp (binary_round_aux prec emax false m e l).
Proof.
  unfold binary_round_aux.
  destruct (shr_fexp prec emax m e l) as [mrs' e'].
  destruct (shr_fexp prec emax (round_nearest_even (shr_m mrs') (loc_of_shr_record mrs')) e'
              loc_Exact) as [mrs'' e''].
  destruct (shr_m mrs'') as [|p|p]; try reflexivity.
  destruct (e'' <=? emax - prec); reflexivity.
Qed.

Lemma binary_round_opp (m : positive) (e : Z) :
  binary_round prec emax true m e = SFopp (binary_round prec emax false m e).
Proof.
  unfold binary_round.
  destruct (shl_align m e (fexp prec emax (Zpos (digits2_pos m) + e))) as [mz ez].
  apply binary_round_aux_opp.
Qed.

(** The value of a non-negative finite double or zero, in units of
    [2^-1074]. *)
Definition SFunits (x : spec_float) : Z :=
  match x with
  | S754_finite _ m e => units m e
  | _ => 0
  end.

(** [r] is the correctly rounded double of the integer [D] (in units of
    [2^-1074]): the rounding of [D] when [D > 0], the negation of the
    rounding of [-D] when [D < 0], and a zero when [D = 0]. *)
Definition rounds_signed (r : spec_float) (D : Z) : Prop :=
  match D with
  | Z0 => exists s, r = S754_zero s
  | Zpos _ => exists (m : positive) (e : Z), rounds_from r m e /\ units m e = D
  | Zneg _ => exists (r' : spec_float) (m : positive) (e : Z),
                r = SFopp r' /\ rounds_from r' m e /\ units m e = - D
  end.

Lemma rounds_signed_mono (a b : spec_float) (Da Db : Z) :
  rounds_signed a Da -> rounds_signed b Db -> Da <= Db -> SFleb a b = true.
Proof.
  intros Ha Hb L.
  destruct Da as [|pa|pa], Db as [|pb|pb]; try lia; cbn [rounds_signed] in Ha, Hb.
  - destruct Ha as [s ->], Hb as [t ->]. reflexivity.
  - destruct Ha as [s ->], Hb as (m & e & R & _).
    apply SFleb_zero_l. exact (rounds_from_nonneg _ _ _ R).
  - destruct Ha as (ma & ea & Ra & Ua), Hb as (mb & eb & Rb & Ub).
    apply (rounds_from_mono _ _ _ _ _ _ Ra Rb). lia.
  - destruct Ha as (a' & ma & ea & -> & Ra & Ua), Hb as [t ->].
    apply SFleb_nonpos_nonneg; [|reflexivity].
    apply SFopp_nonpos. exact (rounds_from_nonneg _ _ _ Ra).
  - destruct Ha as (a' & ma & ea & -> & Ra & Ua), Hb as (mb & eb & Rb & Ub).
    apply SFleb_nonpos_nonneg.
    + apply SFopp_nonpos. exact (rounds_from_nonneg _ _ _ Ra).
    + exact (rounds_from_nonneg _ _ _ Rb).
  - destruct Ha as (a' & ma & ea & -> & Ra & Ua), Hb as (b' & mb & eb & -> & Rb & Ub).
    rewrite SFleb_opp. apply (rounds_from_mono _ _ _ _ _ _ Rb Ra). lia.
Qed.

Lemma rounds_signed_zero (r : spec_float) (D : Z) :
  D = 0 -> (exists s, r = S754_zero s) -> rounds_signed r D.
Proof. intros -> H. exact H. Qed.

Lemma rounds_signed_pos (r : spec_float) (D : Z) :
  0 < D -> (exists (m : positive) (e : Z), rounds_from r m e /\ units m e = D) ->
  rounds_signed r D.
Proof. intros P H. destruct D; try lia. exact H. Qed.

Lemma rounds_signed_neg (r : spec_float) (D : Z) :
  D < 0 ->
  (exists (r' : spec_float) (m : positive) (e : Z),
      r = SFopp r' /\ rounds_from r' m e /\ units m e = - D) ->
  rounds_signed r D.
Proof. intros P H. destruct D; try lia. exact H. Qed.

(** A zero or a positive finite double. *)
Definition SFfinite_nonneg (x : spec_float) : bool :=
  match x with
  | S754_zero _ => true
  | S754_finite s _ _ => negb s
  | _ => false
  end.

(** The difference of two such doubles is the correct rounding of the
    difference of their values. *)
Lemma SFsub_rounds_signed (x y : spec_float) :
  valid_binary x = true -> valid_binary y = true ->
  SFfinite_nonneg x = true -> SFfinite_nonneg y = true ->
  rounds_signed (SFsub prec emax x y) (SFunits x - SFunits y).
Proof.
  intros Vx Vy Fx Fy.
  destruct x as [s|s| |s m e], y as [t|t| |t n f];
    try discriminate Fx; try discriminate Fy.
  - apply rounds_signed_zero; [reflexivity|]. destruct s, t; eexists; reflexivity.
  - destruct t; [discriminate Fy|].
    pose proof (bounded_facts _ _ Vy) as [Ef _].
    pose proof (units_pos n f ltac:(lia)) as U.
    apply rounds_signed_neg; [cbn [SFunits]; lia|].
    exists (S754_finite false n f), n, f. split; [reflexivity|].
    split; [apply rounds_from_valid, Vy | cbn [SFunits]; lia].
  - destruct s; [discriminate Fx|].
    pose proof (bounded_facts _ _ Vx) as [Ee _].
    pose proof (units_pos m e ltac:(lia)) as U.
    apply rounds_signed_pos; [cbn [SFunits]; lia|].
    exists m, e. split; [apply rounds_from_valid, Vx | cbn [SFunits]; lia].
  - destruct s; [discriminate Fx|]. destruct t; [discriminate Fy|].
    pose proof (bounded_facts _ _ Vx) as [Ee _].
    pose proof (bounded_facts _ _ Vy) as [Ef _].
    unfold SFsub. cbn [cond_Zopp SFunits].
    destruct (shl_align_spec m e (Z.min e f)) as [_ Hx].
    destruct (shl_align_spec n f (Z.min e f)) as [_ Hy].
    replace (Z.min e (Z.min e f)) with (Z.min e f) in Hx by lia.
    replace (Z.min f (Z.min e f)) with (Z.min e f) in Hy by lia.
    set (ez := Z.min e f) in *.
    assert (Ux : units m e = Zpos (fst (shl_align m e ez)) * 2 ^ (ez - -1074)).
    { rewrite Hx. unfold units. rewrite <- Z.mul_assoc, <- Z.pow_add_r by lia.
      f_equal. f_equal. lia. }
    assert (Uy : units n f = Zpos (fst (shl_align n f ez)) * 2 ^ (ez - -1074)).
    { rewrite Hy. unfold units. rewrite <- Z.mul_assoc, <- Z.pow_add_r by lia.
      f_equal. f_equal. lia. }
    pose proof (two_pow_pos (ez - -1074) ltac:(lia)) as P.
    rewrite Ux, Uy, <- Z.mul_sub_distr_r.
    destruct (Zpos (fst (shl_align m e ez)) - Zpos (fst (shl_align n f ez))) as [|p|p].
    + apply rounds_signed_zero; [lia|]. eexists. reflexivity.
    + apply rounds_signed_pos; [lia|]. cbn [binary_normalize].
      destruct (binary_round_rounds_from p ez ltac:(lia)) as (mz & ez' & R & U).
      exists mz, ez'. split; [exact R|]. rewrite U. reflexivity.
    + apply rounds_signed_neg; [lia|]. cbn [binary_normalize].
      destruct (binary_round_rounds_from p ez ltac:(lia)) as (mz & ez' & R & U).
      exists (binary_round prec emax false p ez), mz, ez'.
      split; [apply binary_round_opp|]. split; [exact R|]. rewrite U. unfold units. lia.
Qed.

(** The order of two such doubles is the order of their values. *)
Lemma SFleb_units (x y : spec_float) :
  valid_binary x = true -> valid_binary y = true ->
  SFfinite_nonneg x = true -> SFfinite_nonneg y = true ->
  SFleb x y = true -> SFunits x <= SFunits y.
Proof.
  intros Vx Vy Fx Fy L.
  destruct x as [s|s| |s m e], y as [t|t| |t n f];
    try discriminate Fx; try discriminate Fy; cbn [SFunits].
  - lia.
  - destruct t; [discriminate Fy|].
    pose proof (bounded_facts _ _ Vy) as [Ef _].
    pose proof (units_pos n f ltac:(lia)). lia.
  - destruct s; [discriminate Fx|]. discriminate L.
  - destruct s; [discriminate Fx|]. destruct t; [discriminate Fy|].
    apply valid_leb_units; assumption.
Qed.

Lemma SFleb_any_inf (r : spec_float) :
  r <> S754_nan -> SFleb r (S754_infinity false) = true.
Proof.
  destruct r as [s|s| |s m e]; try destruct s; try reflexivity. intros K. contradiction.
Qed.

(** Subtracting the same non-negative value keeps the order. *)
Lemma SFsub_mono_l (x1 x2 y : spec_float) :
  valid_binary x1 = true -> valid_binary x2 = true -> valid_binary y = true ->
  SFnonneg x1 = true -> SFnonneg y = true ->
  SFleb x1 x2 = true ->
  SFsub prec emax x1 y <> S754_nan -> SFsub prec emax x2 y <> S754_nan ->
  SFleb (SFsub prec emax x1 y) (SFsub prec emax x2 y) = true.
Proof.
  intros V1 V2 Vy N1 Ny L K1 K2.
  pose proof (SFleb_nonneg_r _ _ N1 L) as N2.
  destruct (SFfinite_nonneg y) eqn:Fy.
  - destruct (SFfinite_nonneg x2) eqn:F2.
    + assert (F1 : SFfinite_nonneg x1 = true).
      { destruct x1 as [s|s| |s m e]; try discriminate N1; try reflexivity.
        - destruct s; [discriminate N1|].
          destruct x2 as [t|t| |t n f]; try discriminate F2; discriminate L.
        - destruct s; [discriminate N1 | reflexivity]. }
      apply (rounds_signed_mono _ _ _ _ (SFsub_rounds_signed x1 y V1 Vy F1 Fy)
               (SFsub_rounds_signed x2 y V2 Vy F2 Fy)).
      pose proof (SFleb_units x1 x2 V1 V2 F1 F2 L). lia.
    + assert (E : SFsub prec emax x2 y = S754_infinity false).
      { destruct x2 as [t|t| |t n f]; try discriminate N2; try discriminate F2;
          destruct t; try discriminate N2; try discriminate F2.
        destruct y as [u|u| |u k g]; try discriminate Fy; reflexivity. }
      rewrite E. apply SFleb_any_inf, K1.
  - assert (Ey : y = S754_infinity false).
    { destruct y as [u|u| |u k g]; try discriminate Ny; try discriminate Fy;
        destruct u; try discriminate Ny; try discriminate Fy. reflexivity. }
    subst y.
    assert (E : forall x, SFnonneg x = true ->
                          SFsub prec emax x (S754_infinity false) <> S754_nan ->
                          SFsub prec emax x (S754_infinity false) = S754_infinity true).
    { intros x N K. destruct x as [s|s| |s m e]; try discriminate N; try reflexivity.
      destruct s; [discriminate N|]. exfalso. apply K. reflexivity. }
    rewrite (E x1 N1 K1), (E x2 N2 K2). reflexivity.
Qed.

End Binary64Differences.

(** ** [Math.round] is monotone *)

(** The nearest integers of two values are ordered as the values. *)
Lemma nearest_integer_mono (Nx Ny vx vy ex ey e0 : Z) :
  nearest_integer Nx vx ex -> nearest_integer Ny vy ey ->
  (e0 <= ex)%Z -> (e0 <= ey)%Z ->
  (vx * 2 ^ (ex - e0) <= vy * 2 ^ (ey - e0))%Z ->
  (Nx <= Ny)%Z.
Proof.
  unfold nearest_integer. intros [Hx _] [_ Hy] Lx Ly L.
  set (kx := Z.max 0 (- ex)) in *. set (ky := Z.max 0 (- ey)) in *.
  set (K := Z.max 0 (- e0)).
  assert (Pk : (0 < 2 ^ K)%Z) by (apply two_pow_pos; lia).
  assert (A : ((2 * Nx - 1) * 2 ^ K <= 2 * (vx * 2 ^ (ex + K)))%Z).
  { assert (E1 : (2 ^ K = 2 ^ kx * 2 ^ (K - kx))%Z)
      by (rewrite <- Z.pow_add_r by lia; f_equal; lia).
    assert (E2 : (2 ^ (ex + K) = 2 ^ (ex + kx) * 2 ^ (K - kx))%Z)
      by (rewrite <- Z.pow_add_r by lia; f_equal; lia).
    rewrite E1, E2.
    pose proof (two_pow_pos (K - kx) ltac:(lia)) as Q.
    replace ((2 * Nx - 1) * (2 ^ kx * 2 ^ (K - kx)))%Z
      with ((2 * Nx - 1) * 2 ^ kx * 2 ^ (K - kx))%Z by ring.
    replace (2 * (vx * (2 ^ (ex + kx) * 2 ^ (K - kx))))%Z
      with (2 * vx * 2 ^ (ex + kx) * 2 ^ (K - kx))%Z by ring.
    apply Z.mul_le_mono_nonneg_r; [lia | exact Hx]. }
  assert (B : (2 * (vy * 2 ^ (ey + K)) < (2 * Ny + 1) * 2 ^ K)%Z).
  { assert (E1 : (2 ^ K = 2 ^ ky * 2 ^ (K - ky))%Z)
      by (rewrite <- Z.pow_add_r by lia; f_equal; lia).
    assert (E2 : (2 ^ (ey + K) = 2 ^ (ey + ky) * 2 ^ (K - ky))%Z)
      by (rewrite <- Z.pow_add_r by lia; f_equal; lia).
    rewrite E1, E2.
    pose proof (two_pow_pos (K - ky) ltac:(lia)) as Q.
    replace ((2 * Ny + 1) * (2 ^ ky * 2 ^ (K - ky)))%Z
      with ((2 * Ny + 1) * 2 ^ ky * 2 ^ (K - ky))%Z by ring.
    replace (2 * (vy * (2 ^ (ey + ky) * 2 ^ (K - ky))))%Z
      with (2 * vy * 2 ^ (ey + ky) * 2 ^ (K - ky))%Z by ring.
    apply Zmult_lt_compat_r; [exact Q | exact Hy]. }
  assert (C : (vx * 2 ^ (ex + K) <= vy * 2 ^ (ey + K))%Z).
  { assert (E1 : (2 ^ (ex + K) = 2 ^ (ex - e0) * 2 ^ (e0 + K))%Z)
      by (rewrite <- Z.pow_add_r by lia; f_equal; lia).
    assert (E2 : (2 ^ (ey + K) = 2 ^ (ey - e0) * 2 ^ (e0 + K))%Z)
      by (rewrite <- Z.pow_add_r by lia; f_equal; lia).
    rewrite E1, E2, !Z.mul_assoc.
    apply Z.mul_le_mono_nonneg_r; [apply Z.lt_le_incl, two_pow_pos; lia | exact L]. }
  nia.
Qed.

(** The value of a double that carries an integer. *)
Lemma carries_units (m : positive) (e A : Z) :
  bounded prec emax m e = true ->
  (Zpos m * 2 ^ (e + Z.max 0 (- e)) = A * 2 ^ Z.max 0 (- e))%Z ->
  units m e = (A * 2 ^ 1074)%Z.
Proof.
  intros Vb V. pose proof (bounded_facts _ _ Vb) as [Ee _]. unfold units.
  destruct (Z.le_gt_cases 0 e) as [L|L].
  - replace (Z.max 0 (- e)) with 0%Z in V by lia.
    rewrite Z.add_0_r, Z.pow_0_r in V.
    replace (e - -1074)%Z with (e + 1074)%Z by lia.
    rewrite Z.pow_add_r by lia. nia.
  - replace (Z.max 0 (- e)) with (- e)%Z in V by lia.
    replace (e + - e)%Z with 0%Z in V by lia. rewrite Z.pow_0_r in V.
    replace (Zpos m) with (A * 2 ^ (- e))%Z by lia.
    rewrite <- Z.mul_assoc, <- Z.pow_add_r by lia.
    replace (- e + (e - -1074))%Z with 1074%Z by lia. reflexivity.
Qed.

Lemma Math_round_mono_neg (x y : number) (mx my : positive) (ex ey : Z) :
  Prim2SF x = S754_finite true mx ex -> Prim2SF y = S754_finite true my ey ->
  (x <=? y) = true -> (Math_round x <=? Math_round y) = true.
Proof.
  intros Ex Ey L.
  pose proof (Prim2SF_valid x) as Vx. pose proof (Prim2SF_valid y) as Vy.
  rewrite Ex in Vx. rewrite Ey in Vy.
  assert (Ny0 : (Math_round y <=? 0) = true).
  { apply Math_round_nonpos. rewrite leb_zero_nonpos, Ey. reflexivity. }
  assert (Nx0 : (Math_round x <=? 0) = true).
  { apply Math_round_nonpos. rewrite leb_zero_nonpos, Ex. reflexivity. }
  pose proof (Math_round_nearest x) as Rx. pose proof (Math_round_nearest y) as Ry.
  unfold nearest_whole_unit in Rx, Ry. rewrite Ex in Rx. rewrite Ey in Ry.
  destruct Rx as (Nx & Bx & Cx). destruct Ry as (Ny & By & Cy).
  assert (LN : (Nx <= Ny)%Z).
  { apply (nearest_integer_mono Nx Ny _ _ ex ey (Z.min ex ey) Bx By); try lia.
    cbn [cond_Zopp].
    rewrite leb_spec, Ex, Ey in L.
    change (S754_finite true mx ex) with (SFopp (S754_finite false mx ex)) in L.
    change (S754_finite true my ey) with (SFopp (S754_finite false my ey)) in L.
    rewrite SFleb_opp in L.
    pose proof (valid_leb_value my mx ey ex (Z.min ex ey) Vy Vx L ltac:(lia) ltac:(lia)).
    lia. }
  unfold carries in Cx, Cy.
  destruct Ny as [|py|py].
  - (* the greater result is a zero *)
    apply nonpos_leb_nonneg; [exact Nx0|]. rewrite Cy. reflexivity.
  - (* a negative value does not round to a positive integer *)
    exfalso. destruct Cy as (m & e & Cy & _).
    rewrite leb_zero_nonpos, Cy in Ny0. discriminate Ny0.
  - destruct Nx as [|px|px]; try lia.
    destruct Cx as (mrx & erx & Cx & Ux). destruct Cy as (mry & ery & Cy & Uy).
    pose proof (Prim2SF_valid (Math_round x)) as Vrx. rewrite Cx in Vrx.
    pose proof (Prim2SF_valid (Math_round y)) as Vry. rewrite Cy in Vry.
    rewrite leb_spec, Cx, Cy.
    change (S754_finite (Z.neg px <? 0)%Z mrx erx) with (SFopp (S754_finite false mrx erx)).
    change (S754_finite (Z.neg py <? 0)%Z mry ery) with (SFopp (S754_finite false mry ery)).
    rewrite SFleb_opp.
    apply (rounds_from_mono _ _ mry mrx ery erx (rounds_from_valid _ _ Vry)
             (rounds_from_valid _ _ Vrx)).
    rewrite (carries_units _ _ _ Vry Uy), (carries_units _ _ _ Vrx Ux).
    apply Z.mul_le_mono_nonneg_r; [apply Z.lt_le_incl, two_pow_pos; lia|].
    simpl Z.abs. lia.
Qed.

(** [Math.round] keeps the order of any two numbers. *)
Lemma Math_round_monotone (x y : number) :
  (x <=? y) = true -> (Math_round x <=? Math_round y) = true.
Proof.
  intros L.
  destruct (sign_cases y (leb_is_nan_r _ _ L)) as [Py|Ny]; [apply Math_round_leb; assumption|].
  pose proof L as L'. rewrite leb_spec in L'. rewrite leb_zero_nonpos in Ny.
  destruct (Prim2SF y) as [t|t| |t n f] eqn:Ey; try discriminate Ny.
  - apply Math_round_leb; [|exact L]. rewrite leb_zero_nonneg, Ey. reflexivity.
  - cbn [SFnonpos] in Ny. subst t.
    destruct (Prim2SF x) as [s|s| |s m e] eqn:Ex; try destruct s; try discriminate L'.
    rewrite leb_spec. unfold Math_round. rewrite Ex, Ey, Ex, Ey. reflexivity.
  - cbn [SFnonpos] in Ny. subst t.
    destruct (Prim2SF x) as [s|s| |s m e] eqn:Ex; try destruct s; try discriminate L'.
    + rewrite leb_spec. unfold Math_round at 1. rewrite Ex, Ex.
      assert (K : Prim2SF (Math_round y) <> S754_nan).
      { apply is_nan_false_iff, nonpos_not_nan, Math_round_nonpos.
        rewrite leb_zero_nonpos, Ey. reflexivity. }
      destruct (Prim2SF (Math_round y)) as [u|u| |u k g]; try destruct u; try reflexivity.
      contradiction.
    + apply (Math_round_mono_neg x y m n e f Ex Ey L).
Qed.

Lemma sub_mono_l (x1 x2 y : number) :
  (0 <=? x1) = true -> (0 <=? y) = true -> (x1 <=? x2) = true ->
  is_nan (x1 - y) = false -> is_nan (x2 - y) = false ->
  (x1 - y <=? x2 - y) = true.
Proof.
  rewrite !leb_zero_nonneg, !is_nan_false_iff, !leb_spec, !sub_spec.
  apply SFsub_mono_l; apply Prim2SF_valid.
Qed.

(** The costs are not scaled. *)
Lemma totalCosts_scaleInputs (inputs : RoiInputsType) (factor : number) :
  Scenario.totalCosts (scaleInputs inputs factor) = Scenario.totalCosts inputs.
Proof. reflexivity. Qed.

(** * Division

    The quotient of two doubles is the nearest double to the exact quotient:
    the integer quotient that [SFdiv_core_binary] computes and the location of
    the remainder round as the rational they stand for. *)

Section Binary64Division.

Local Open Scope Z_scope.

(** The record [rec] holds the quotient of [N] by [T] and the position of the
    remainder with respect to [T / 2]. *)
Definition shr_invT (N T : Z) (rec : shr_record) : Prop :=
  shr_m rec = N / T /\
  (shr_r rec = true <-> T <= 2 * (N mod T)) /\
  (shr_s rec = true <-> N mod T <> 0 /\ 2 * (N mod T) <> T).

Lemma shr_invT_step (N T : Z) (rec : shr_record) :
  0 <= N -> 0 < T -> shr_invT N T rec -> shr_invT N (2 * T) (shr_1 rec).
Proof.
  intros HN HT (Hm & Hr & Hs). destruct rec as [m r s]. cbn [shr_m shr_r shr_s] in Hm, Hr, Hs.
  pose proof (Z.div_mod N T ltac:(lia)) as DM.
  pose proof (Z.mod_pos_bound N T HT) as BM.
  assert (Nm : 0 <= m) by (subst m; apply Z.div_pos; lia).
  rewrite shr_1_spec by exact Nm.
  pose proof (Z.div_mod m 2 ltac:(lia)) as Dm.
  pose proof (Z.mod_pos_bound m 2 ltac:(lia)) as Bm.
  assert (E : N = 2 * T * (m / 2) + (N mod T + T * (m mod 2))) by nia.
  assert (Dq : N / (2 * T) = m / 2).
  { symmetry. apply (Zdiv_unique _ _ _ (N mod T + T * (m mod 2))); [nia | exact E]. }
  assert (Dr : N mod (2 * T) = N mod T + T * (m mod 2)).
  { symmetry. apply (Zmod_unique _ _ (m / 2)); [nia | exact E]. }
  unfold shr_invT. cbn [shr_m shr_r shr_s]. rewrite Dr, Dq.
  assert (O : Z.odd m = true <-> m mod 2 = 1).
  { rewrite Zodd_mod. split; intros H; [apply Z.eqb_eq in H; exact H | apply Z.eqb_eq; exact H]. }
  split; [reflexivity|].
  assert (B2 : m mod 2 = 0 \/ m mod 2 = 1) by lia.
  clear DM Dm E Dq Dr Hm.
  generalize dependent (N mod T).
  intros a Hr Hs Ba.
  split.
  - rewrite O. destruct B2 as [B2|B2]; rewrite B2; split; intros H; lia.
  - rewrite orb_true_iff. split.
    + intros [H|H].
      * subst r. destruct Hr as [Hr _]. specialize (Hr eq_refl).
        destruct B2 as [B2|B2]; rewrite B2; lia.
      * apply Hs in H. destruct H as [H1 H2].
        destruct B2 as [B2|B2]; rewrite B2; lia.
    + intros [H1 H2].
      destruct r; [now left|right]. apply Hs.
      assert (~ T <= 2 * a) by (intros C; apply Hr in C; discriminate C).
      destruct B2 as [B2|B2]; rewrite B2 in H1, H2; lia.
Qed.

Lemma shr_invT_iter (N : Z) (p : positive) :
  0 <= N ->
  forall (T : Z) (rec : shr_record),
    0 < T -> shr_invT N T rec -> shr_invT N (T * 2 ^ Zpos p) (iter_pos shr_1 p rec).
Proof.
  intros HN. induction p as [p IH|p IH|]; intros T rec HT H; simpl iter_pos.
  - replace (T * 2 ^ Zpos p~1) with (2 * T * 2 ^ Zpos p * 2 ^ Zpos p).
    + pose proof (two_pow_pos (Zpos p) ltac:(lia)).
      apply IH; [nia|]. apply IH; [lia|]. apply shr_invT_step; assumption.
    + assert (E : 2 ^ Zpos p~1 = 2 * (2 ^ Zpos p * 2 ^ Zpos p)).
      { rewrite <- Z.pow_add_r, <- Z.pow_succ_r by lia. f_equal. lia. }
      rewrite E. ring.
  - replace (T * 2 ^ Zpos p~0) with (T * 2 ^ Zpos p * 2 ^ Zpos p).
    + pose proof (two_pow_pos (Zpos p) ltac:(lia)).
      apply IH; [nia|]. apply IH; assumption.
    + assert (E : 2 ^ Zpos p~0 = 2 ^ Zpos p * 2 ^ Zpos p).
      { rewrite <- Z.pow_add_r by lia. f_equal. lia. }
      rewrite E. ring.
  - change (2 ^ 1) with 2. replace (T * 2) with (2 * T) by lia.
    apply shr_invT_step; assumption.
Qed.

(** [N / T] rounded to the nearest integer, ties to even. *)
Definition rne_rat (N T : Z) : Z :=
  let q := N / T in
  let r := N mod T in
  if 2 * r <? T then q
  else if 2 * r =? T then (if Z.even q then q else q + 1)
  else q + 1.

Lemma round_nearest_even_shrT (N T : Z) (rec : shr_record) :
  0 < T -> shr_invT N T rec ->
  round_nearest_even (shr_m rec) (loc_of_shr_record rec) = rne_rat N T.
Proof.
  intros P (Hm & Hr & Hs). unfold rne_rat. rewrite <- Hm.
  pose proof (Z.mod_pos_bound N T P) as BM.
  destruct rec as [m r s]. cbn [shr_m shr_r shr_s] in *.
  unfold loc_of_shr_record, round_nearest_even.
  destruct (2 * (N mod T) <? T) eqn:A.
  - apply Z.ltb_lt in A.
    destruct r; [assert (T <= 2 * (N mod T)) by (now apply Hr); lia|].
    destruct s; reflexivity.
  - apply Z.ltb_ge in A. assert (R : r = true) by (now apply Hr). subst r.
    destruct (2 * (N mod T) =? T) eqn:B.
    + apply Z.eqb_eq in B.
      destruct s; [assert (N mod T <> 0 /\ 2 * (N mod T) <> T) by (now apply Hs); lia|].
      reflexivity.
    + apply Z.eqb_neq in B.
      assert (S : s = true) by (apply Hs; lia).
      subst s. reflexivity.
Qed.

(** The location [new_location] gives to a remainder. *)
Lemma new_location_inv (N T : Z) :
  0 <= N -> 0 < T ->
  shr_invT N T (shr_record_of_loc (N / T) (new_location T (N mod T))).
Proof.
  intros HN HT. pose proof (Z.mod_pos_bound N T HT) as B.
  unfold shr_invT, new_location, new_location_even, new_location_odd.
  generalize dependent (N mod T). intros r B.
  assert (Od : Z.even T = false -> T mod 2 = 1).
  { intros Ev. rewrite Zeven_mod in Ev. apply Z.eqb_neq in Ev.
    pose proof (Z.mod_pos_bound T 2 ltac:(lia)). lia. }
  pose proof (Z.div_mod T 2 ltac:(lia)) as DT.
  destruct (Z.even T) eqn:Ev; [|specialize (Od eq_refl)].
  - destruct (Z.eqb_spec r 0) as [->|Nr];
      [|destruct (Z.compare_spec (2 * r) T) as [C|C|C]];
      cbn [shr_record_of_loc shr_m shr_r shr_s]; repeat split; intros;
      try lia; try discriminate;
      try (match goal with H : _ /\ _ |- _ => destruct H; lia end).
  - destruct (Z.eqb_spec r 0) as [->|Nr];
      [|destruct (Z.compare_spec (2 * r + 1) T) as [C|C|C]];
      cbn [shr_record_of_loc shr_m shr_r shr_s]; repeat split; intros;
      try lia; try discriminate;
      try (match goal with H : _ /\ _ |- _ => destruct H; lia end).
Qed.

(** [rne_rat] is monotone in the quotient. *)
Lemma rne_rat_mono (Na Da Nb Db : Z) :
  0 < Da -> 0 < Db -> 0 <= Na -> Na * Db <= Nb * Da ->
  rne_rat Na Da <= rne_rat Nb Db.
Proof.
  intros PDa PDb HNa H. unfold rne_rat.
  pose proof (Z.div_mod Na Da ltac:(lia)) as Ea.
  pose proof (Z.div_mod Nb Db ltac:(lia)) as Eb.
  pose proof (Z.mod_pos_bound Na Da PDa) as Ba.
  pose proof (Z.mod_pos_bound Nb Db PDb) as Bb.
  assert (Q : Na / Da <= Nb / Db).
  { apply Z.div_le_lower_bound; [lia|].
    assert (Na / Da * Da <= Na) by nia.
    assert (0 <= Na / Da) by (apply Z.div_pos; lia).
    nia. }
  generalize dependent (Na mod Da). generalize dependent (Nb mod Db).
  generalize dependent (Na / Da). generalize dependent (Nb / Db).
  intros qb qa Q rb Eb Bb ra Ea Ba.
  destruct (Z.eq_dec qa qb) as [E|E].
  - subst qb. assert (R : ra * Db <= rb * Da) by nia.
    destruct (2 * ra <? Da) eqn:A1; [destruct (2 * rb <? Db);
      [lia | destruct (2 * rb =? Db); [destruct (Z.even qa); lia | lia]]|].
    apply Z.ltb_ge in A1.
    assert (B1 : (2 * rb <? Db) = false) by (apply Z.ltb_ge; nia).
    rewrite B1.
    destruct (2 * ra =? Da) eqn:A2.
    + destruct (2 * rb =? Db); destruct (Z.even qa); lia.
    + apply Z.eqb_neq in A2.
      assert (B2 : (2 * rb =? Db) = false) by (apply Z.eqb_neq; nia).
      rewrite B2. lia.
  - destruct (2 * ra <? Da); destruct (2 * rb <? Db);
      destruct (2 * ra =? Da); destruct (2 * rb =? Db);
      destruct (Z.even qa); destruct (Z.even qb); lia.
Qed.

Lemma rne_rat_bounds (N T : Z) : N / T <= rne_rat N T <= N / T + 1.
Proof.
  unfold rne_rat.
  destruct (2 * (N mod T) <? T); [lia|].
  destruct (2 * (N mod T) =? T); [destruct (Z.even (N / T)); lia | lia].
Qed.

(** The shift of [binary_round_aux] on the quotient and its location. *)
Lemma shr_loc (N T : Z) (rec : shr_record) (e n : Z) :
  0 <= N -> 0 < T -> 0 <= n -> shr_invT N T rec ->
  exists rec', shr rec e n = (rec', e + n) /\ shr_invT N (T * 2 ^ n) rec'.
Proof.
  intros HN HT Hn I. destruct n as [|p|p]; try lia.
  - exists rec. split.
    + unfold shr. rewrite Z.add_0_r. reflexivity.
    + rewrite Z.pow_0_r, Z.mul_1_r. exact I.
  - exists (iter_pos shr_1 p rec). split; [reflexivity|].
    apply shr_invT_iter; assumption.
Qed.

(** The second shift of [binary_round_aux], after the rounding. *)
Lemma round_finish (s : bool) (m1 E : Z) :
  0 <= m1 <= 2 ^ 53 -> -1074 <= E ->
  (let '(mrs, e) := shr_fexp prec emax m1 E loc_Exact in
   match shr_m mrs with
   | Z0 => S754_zero s
   | Zpos m => if e <=? emax - prec then S754_finite s m e else S754_infinity s
   | Zneg _ => S754_nan
   end) = finish s m1 E.
Proof.
  intros B Emin. unfold finish, shr_fexp. unfold shr_record_of_loc.
  destruct (m1 =? 2 ^ 53) eqn:C.
  - apply Z.eqb_eq in C. subst m1.
    change (Zdigits2 (2 ^ 53)) with 54. rewrite fexp_eq.
    replace (Z.max (54 + E - 53) (-1074) - E) with 1 by lia.
    reflexivity.
  - apply Z.eqb_neq in C.
    destruct m1 as [|p|p]; try lia.
    + rewrite shr_none; [reflexivity|]. change (Zdigits2 0) with 0. rewrite fexp_eq. lia.
    + rewrite shr_none; [reflexivity|]. rewrite Zdigits2_pos, fexp_eq.
      assert (Zpos (digits2_pos p) <= 53) by (apply digits2_pos_le; lia). lia.
Qed.

(** The quotient of two positive finite values: the exact quotient
    [mx * 2^s / (my * 2^n)], in units of [2^E], rounded to the nearest
    integer; the exponent [E] is the least one of the format or leaves the
    quotient 53 bits. *)
Lemma SFdiv_finite (mx my : positive) (ex ey : Z) :
  exists s n E : Z,
    0 <= s /\ 0 <= n /\ -1074 <= E /\ s - n + E = ex - ey /\
    SFdiv prec emax (S754_finite false mx ex) (S754_finite false my ey)
    = finish false (rne_rat (Zpos mx * 2 ^ s) (Zpos my * 2 ^ n)) E /\
    Zpos mx * 2 ^ s < 2 ^ 53 * (Zpos my * 2 ^ n) /\
    (E = -1074 \/ 2 ^ 52 * (Zpos my * 2 ^ n) <= Zpos mx * 2 ^ s).
Proof.
  unfold SFdiv, SFdiv_core_binary. cbn [xorb].
  rewrite !Zdigits2_pos.
  set (d1 := Zpos (digits2_pos mx)). set (d2 := Zpos (digits2_pos my)).
  set (e' := Z.min (fexp prec emax (d1 + ex - (d2 + ey))) (ex - ey)).
  set (s := ex - ey - e').
  assert (Hs : 0 <= s) by (unfold s, e'; lia).
  set (N := Zpos mx * 2 ^ s).
  assert (EN : match s with
               | Zpos _ => Z.shiftl (Zpos mx) s
               | 0 => Zpos mx
               | Zneg _ => 0
               end = N).
  { unfold N. clearbody s. destruct s as [|p|p]; try lia.
    rewrite Z.shiftl_mul_pow2 by lia. reflexivity. }
  rewrite EN.
  assert (DE : Z.div_eucl N (Zpos my) = (N / Zpos my, N mod Zpos my)).
  { unfold Z.div, Z.modulo. destruct (Z.div_eucl N (Zpos my)). reflexivity. }
  rewrite DE.
  pose proof (two_pow_pos s Hs) as Ps.
  assert (PN : 0 < N) by (unfold N; nia).
  set (q := N / Zpos my).
  assert (Hq : 0 <= q) by (apply Z.div_pos; lia).
  pose proof (Z.div_mod N (Zpos my) ltac:(lia)) as DM.
  pose proof (Z.mod_pos_bound N (Zpos my) ltac:(lia)) as BM.
  fold q in DM.
  unfold binary_round_aux. unfold shr_fexp at 1.
  set (E := fexp prec emax (Zdigits2 q + e')).
  assert (Emin : -1074 <= E) by (unfold E; rewrite fexp_eq; lia).
  pose proof (digits2_pos_lower mx) as Lx. fold d1 in Lx.
  pose proof (digits2_pos_upper my) as Uy. fold d2 in Uy.
  assert (Pd1 : 0 < d1) by (unfold d1; lia).
  assert (Pd2 : 0 < d2) by (unfold d2; lia).
  assert (Le : e' <= E).
  { destruct (Z_le_gt_dec e' (-1074)) as [L|G]; [lia|].
    assert (L53 : e' <= d1 + ex - (d2 + ey) - 53).
    { unfold e' in *. rewrite fexp_eq in *. lia. }
    assert (Q : 2 ^ 52 <= q).
    { apply Z.div_le_lower_bound; [lia|].
      assert (A : 2 ^ (d1 - 1 + s) <= N).
      { unfold N. rewrite Z.pow_add_r by lia. apply Z.mul_le_mono_nonneg_r; lia. }
      assert (B : 2 ^ (d2 + 52) <= 2 ^ (d1 - 1 + s)) by (apply Z.pow_le_mono_r; unfold s; lia).
      rewrite Z.pow_add_r in B by lia. nia. }
    destruct q as [|pq|pq] eqn:Eq; try lia.
    assert (53 <= Zpos (digits2_pos pq)) by (apply digits2_pos_ge; exact Q).
    unfold E. rewrite Zdigits2_pos, fexp_eq. lia. }
  set (n := E - e') in *.
  assert (Hn : 0 <= n) by (unfold n; lia).
  pose proof (two_pow_pos n Hn) as Pn.
  destruct (shr_loc N (Zpos my) (shr_record_of_loc q (new_location (Zpos my) (N mod Zpos my)))
              e' n ltac:(lia) ltac:(lia) Hn (new_location_inv N (Zpos my) ltac:(lia) ltac:(lia)))
    as (rec & Sh & I).
  rewrite Sh. replace (e' + n) with E by (unfold n; lia).
  rewrite (round_nearest_even_shrT N (Zpos my * 2 ^ n) rec ltac:(nia) I).
  assert (DD : N / (Zpos my * 2 ^ n) = q / 2 ^ n).
  { unfold q. rewrite Z.div_div by lia. reflexivity. }
  assert (U : q / 2 ^ n < 2 ^ 53).
  { destruct q as [|pq|pq] eqn:Eq; try lia.
    - rewrite Z.div_0_l by lia. reflexivity.
    - apply (div_pow2_lt _ (Zpos (digits2_pos pq))); try lia.
      + apply digits2_pos_upper.
      + unfold n, E. rewrite Zdigits2_pos, fexp_eq. lia. }
  pose proof (rne_rat_bounds N (Zpos my * 2 ^ n)) as RB. rewrite DD in RB.
  assert (Q0 : 0 <= q / 2 ^ n) by (apply Z.div_pos; lia).
  rewrite round_finish by lia.
  exists s, n, E. fold N.
  split; [exact Hs|]. split; [exact Hn|]. split; [exact Emin|].
  split; [unfold n, s; lia|]. split; [reflexivity|]. split.
  - pose proof (Z.div_mod N (Zpos my * 2 ^ n) ltac:(nia)) as DM2.
    pose proof (Z.mod_pos_bound N (Zpos my * 2 ^ n) ltac:(nia)) as BM2.
    rewrite DD in DM2. nia.
  - destruct (Z.eq_dec E (-1074)) as [E0|E0]; [now left | right].
    destruct q as [|pq|pq] eqn:Eq; try lia.
    + exfalso. unfold E in E0. change (Zdigits2 0) with 0 in E0.
      rewrite fexp_eq in E0. unfold n, E in Hn. change (Zdigits2 0) with 0 in Hn.
      rewrite fexp_eq in Hn. lia.
    + assert (En : n = Zpos (digits2_pos pq) - 53).
      { unfold n, E in *. rewrite Zdigits2_pos, fexp_eq in *. lia. }
      pose proof (digits2_pos_lower pq) as Lq.
      assert (B : 2 ^ (Zpos (digits2_pos pq) - 1) = 2 ^ 52 * 2 ^ n).
      { rewrite <- Z.pow_add_r by lia. f_equal. lia. }
      nia.
Qed.

Lemma pow2_scale_le (A B p q p' q' : Z) :
  0 <= p -> 0 <= q -> 0 <= p' -> 0 <= q' -> p' - p = q' - q ->
  A * 2 ^ p <= B * 2 ^ q -> A * 2 ^ p' <= B * 2 ^ q'.
Proof.
  intros Hp Hq Hp' Hq' E H. destruct (Z_le_gt_dec p p') as [L|G].
  - replace p' with (p + (p' - p)) by lia. replace q' with (q + (p' - p)) by lia.
    rewrite !Z.pow_add_r by lia. pose proof (two_pow_pos (p' - p) ltac:(lia)). nia.
  - replace p with (p' + (p - p')) in H by lia. replace q with (q' + (p - p')) in H by lia.
    rewrite !Z.pow_add_r in H by lia. pose proof (two_pow_pos (p - p') ltac:(lia)). nia.
Qed.

(** The order of two rounded quotients is the order of the quotients. *)
Lemma finish_rat_le (Na Da Ea Nb Db Eb : Z) :
  0 <= Na -> 0 < Da -> 0 <= Nb -> 0 < Db -> -1074 <= Ea -> -1074 <= Eb ->
  Na < 2 ^ 53 * Da -> Nb < 2 ^ 53 * Db ->
  (Ea = -1074 \/ 2 ^ 52 * Da <= Na) -> (Eb = -1074 \/ 2 ^ 52 * Db <= Nb) ->
  Na * Db * 2 ^ (Ea + 1074) <= Nb * Da * 2 ^ (Eb + 1074) ->
  SFleb (finish false (rne_rat Na Da) Ea) (finish false (rne_rat Nb Db) Eb) = true.
Proof.
  intros HNa PDa HNb PDb MEa MEb Ua Ub La Lb K.
  pose proof (rne_rat_bounds Na Da) as Ba. pose proof (rne_rat_bounds Nb Db) as Bb.
  assert (Qa : 0 <= Na / Da < 2 ^ 53).
  { split; [apply Z.div_pos; lia | apply Z.div_lt_upper_bound; lia]. }
  assert (Qb : 0 <= Nb / Db < 2 ^ 53).
  { split; [apply Z.div_pos; lia | apply Z.div_lt_upper_bound; lia]. }
  pose proof (two_pow_pos (Ea + 1074) ltac:(lia)) as Pa.
  pose proof (two_pow_pos (Eb + 1074) ltac:(lia)) as Pb.
  apply finish_le; [lia | lia |].
  destruct (Z.lt_trichotomy Ea Eb) as [L|[E|G]].
  - right. split; [exact L|].
    destruct Lb as [Lb|Lb]; [lia|].
    assert (2 ^ 52 <= Nb / Db) by (apply Z.div_le_lower_bound; lia). lia.
  - left. split; [exact E|]. subst Eb.
    apply rne_rat_mono; try assumption. nia.
  - exfalso. destruct La as [La|La]; [lia|].
    assert (S : 2 ^ (Ea + 1074) = 2 ^ (Ea - Eb) * 2 ^ (Eb + 1074)).
    { rewrite <- Z.pow_add_r by lia. f_equal. lia. }
    assert (T : 2 <= 2 ^ (Ea - Eb)).
    { change 2 with (2 ^ 1) at 1. apply Z.pow_le_mono_r; lia. }
    change (2 ^ 53) with (2 * 2 ^ 52) in Ub.
    rewrite S in K. clear S Pa Qa Qb Ba Bb Lb Ua.
    set (c := 2 ^ 52) in *. set (d := 2 ^ (Ea - Eb)) in *. set (pb := 2 ^ (Eb + 1074)) in *.
    assert (Pc : 0 < c) by reflexivity.
    clearbody c d pb.
    assert (A1 : c * Da * Db * (d * pb) <= Na * Db * (d * pb)).
    { apply Z.mul_le_mono_nonneg_r; [nia|]. apply Z.mul_le_mono_nonneg_r; lia. }
    assert (A2 : Nb * Da * pb < 2 * c * Db * Da * pb).
    { apply Z.mul_lt_mono_pos_r; [lia|]. apply Z.mul_lt_mono_pos_r; lia. }
    assert (A3 : 2 * c * Db * Da * pb <= c * Da * Db * (d * pb)).
    { replace (2 * c * Db * Da * pb) with (2 * (c * Da * Db * pb)) by ring.
      replace (c * Da * Db * (d * pb)) with (d * (c * Da * Db * pb)) by ring.
      apply Z.mul_le_mono_nonneg_r; [|lia].
      apply Z.mul_nonneg_nonneg; [|lia]. apply Z.mul_nonneg_nonneg; [|lia].
      apply Z.mul_nonneg_nonneg; lia. }
    lia.
Qed.

(** Division is monotone in the dividend and antitone in the divisor, on
    positive finite values. *)
Lemma SFdiv_finite_mono (mx1 my1 mx2 my2 : positive) (ex1 ey1 ex2 ey2 e0 : Z) :
  e0 <= ex1 -> e0 <= ey1 -> e0 <= ex2 -> e0 <= ey2 ->
  Zpos mx1 * 2 ^ (ex1 - e0) <= Zpos mx2 * 2 ^ (ex2 - e0) ->
  Zpos my2 * 2 ^ (ey2 - e0) <= Zpos my1 * 2 ^ (ey1 - e0) ->
  SFleb (SFdiv prec emax (S754_finite false mx1 ex1) (S754_finite false my1 ey1))
        (SFdiv prec emax (S754_finite false mx2 ex2) (S754_finite false my2 ey2)) = true.
Proof.
  intros Hx1 Hy1 Hx2 Hy2 Lx Ly.
  destruct (SFdiv_finite mx1 my1 ex1 ey1) as (sa & na & Ea & Hsa & Hna & MEa & Va & -> & Ua & La).
  destruct (SFdiv_finite mx2 my2 ex2 ey2) as (sb & nb & Eb & Hsb & Hnb & MEb & Vb & -> & Ub & Lb).
  pose proof (two_pow_pos sa Hsa) as Psa. pose proof (two_pow_pos na Hna) as Pna.
  pose proof (two_pow_pos sb Hsb) as Psb. pose proof (two_pow_pos nb Hnb) as Pnb.
  apply finish_rat_le; try assumption; try nia.
  assert (H : Zpos mx1 * Zpos my2 * 2 ^ (ex1 - e0 + (ey2 - e0))
              <= Zpos mx2 * Zpos my1 * 2 ^ (ex2 - e0 + (ey1 - e0))).
  { rewrite !Z.pow_add_r by lia.
    pose proof (two_pow_pos (ex1 - e0) ltac:(lia)). pose proof (two_pow_pos (ey2 - e0) ltac:(lia)).
    pose proof (two_pow_pos (ex2 - e0) ltac:(lia)). pose proof (two_pow_pos (ey1 - e0) ltac:(lia)).
    replace (Zpos mx1 * Zpos my2 * (2 ^ (ex1 - e0) * 2 ^ (ey2 - e0)))
      with (Zpos mx1 * 2 ^ (ex1 - e0) * (Zpos my2 * 2 ^ (ey2 - e0))) by ring.
    replace (Zpos mx2 * Zpos my1 * (2 ^ (ex2 - e0) * 2 ^ (ey1 - e0)))
      with (Zpos mx2 * 2 ^ (ex2 - e0) * (Zpos my1 * 2 ^ (ey1 - e0))) by ring.
    apply Z.mul_le_mono_nonneg; lia. }
  apply (pow2_scale_le _ _ _ _ (sa + nb + (Ea + 1074)) (sb + na + (Eb + 1074))) in H; try lia.
  rewrite (Z.pow_add_r 2 (sa + nb) (Ea + 1074)), (Z.pow_add_r 2 sa nb),
    (Z.pow_add_r 2 (sb + na) (Eb + 1074)), (Z.pow_add_r 2 sb na) in H by lia.
  replace (Zpos mx1 * 2 ^ sa * (Zpos my2 * 2 ^ nb) * 2 ^ (Ea + 1074))
    with (Zpos mx1 * Zpos my2 * (2 ^ sa * 2 ^ nb * 2 ^ (Ea + 1074))) by ring.
  replace (Zpos mx2 * 2 ^ sb * (Zpos my1 * 2 ^ na) * 2 ^ (Eb + 1074))
    with (Zpos mx2 * Zpos my1 * (2 ^ sb * 2 ^ na * 2 ^ (Eb + 1074))) by ring.
  exact H.
Qed.

(** ** Odd functions

    A function that commutes with the negation and is monotone and
    non-negative on the non-negative values is monotone everywhere. *)

Lemma SFopp_involutive (x : spec_float) : SFopp (SFopp x) = x.
Proof. destruct x as [s|s| |s m e]; try reflexivity; destruct s; reflexivity. Qed.

Lemma valid_binary_opp (x : spec_float) : valid_binary (SFopp x) = valid_binary x.
Proof. destruct x; reflexivity. Qed.

Lemma SFopp_nonneg (x : spec_float) :
  x <> S754_nan -> SFnonneg x = false -> SFnonneg (SFopp x) = true.
Proof.
  destruct x as [s|s| |s m e]; try destruct s; simpl; try congruence.
Qed.

Lemma odd_monotone (f : spec_float -> spec_float) :
  (forall x, f (SFopp x) = SFopp (f x)) ->
  (forall x, valid_binary x = true -> SFnonneg x = true -> SFnonneg (f x) = true) ->
  (forall x y, valid_binary x = true -> valid_binary y = true ->
               SFnonneg x = true -> SFnonneg y = true ->
               SFleb x y = true -> SFleb (f x) (f y) = true) ->
  forall x y, valid_binary x = true -> valid_binary y = true ->
              SFleb x y = true -> SFleb (f x) (f y) = true.
Proof.
  intros Odd Pos Mono x y Vx Vy L.
  assert (Kx : x <> S754_nan) by (intros ->; discriminate L).
  assert (Ky : y <> S754_nan) by (intros ->; destruct x as [s|s| |s m e]; try destruct s; discriminate L).
  destruct (SFnonneg x) eqn:Nx.
  - apply Mono; try assumption. exact (SFleb_nonneg_r _ _ Nx L).
  - pose proof (SFopp_nonneg _ Kx Nx) as Nx'.
    assert (Fx : SFnonpos (f x) = true).
    { rewrite <- (SFopp_involutive x), (Odd (SFopp x)). apply SFopp_nonpos, Pos; [|exact Nx'].
      rewrite valid_binary_opp. exact Vx. }
    destruct (SFnonneg y) eqn:Ny.
    + apply SFleb_nonpos_nonneg; [exact Fx | apply Pos; assumption].
    + pose proof (SFopp_nonneg _ Ky Ny) as Ny'.
      rewrite <- (SFopp_involutive x), <- (SFopp_involutive y).
      rewrite (Odd (SFopp x)), (Odd (SFopp y)), SFleb_opp.
      apply Mono; try assumption; try (rewrite valid_binary_opp; assumption).
      rewrite SFleb_opp. exact L.
Qed.

(** ** Division by a positive finite value *)

Lemma SFdiv_opp_l (x : spec_float) (my : positive) (ey : Z) :
  SFdiv prec emax (SFopp x) (S754_finite false my ey)
  = SFopp (SFdiv prec emax x (S754_finite false my ey)).
Proof.
  destruct x as [s|s| |s m e]; try reflexivity; try (destruct s; reflexivity).
  unfold SFdiv. cbn [SFopp].
  destruct (SFdiv_core_binary prec emax (Zpos m) e (Zpos my) ey) as [[mz ez] lz].
  destruct s; cbn [negb xorb]; [|apply binary_round_aux_opp].
  rewrite binary_round_aux_opp, SFopp_involutive. reflexivity.
Qed.

Lemma SFdiv_mono_l (x1 x2 : spec_float) (my : positive) (ey : Z) :
  valid_binary x1 = true -> valid_binary x2 = true ->
  SFleb x1 x2 = true ->
  SFleb (SFdiv prec emax x1 (S754_finite false my ey))
        (SFdiv prec emax x2 (S754_finite false my ey)) = true.
Proof.
  apply (odd_monotone (fun x => SFdiv prec emax x (S754_finite false my ey))).
  - intros x. apply SFdiv_opp_l.
  - intros x _ N. apply SFdiv_nonneg; [exact N | reflexivity | right; reflexivity].
  - intros x y Vx Vy Nx Ny L.
    assert (Fy : SFnonneg (SFdiv prec emax y (S754_finite false my ey)) = true)
      by (apply SFdiv_nonneg; [exact Ny | reflexivity | right; reflexivity]).
    assert (Fx : SFnonneg (SFdiv prec emax x (S754_finite false my ey)) = true)
      by (apply SFdiv_nonneg; [exact Nx | reflexivity | right; reflexivity]).
    destruct x as [s|s| |s m e]; try discriminate Nx.
    + apply SFleb_zero_l. exact Fy.
    + destruct s; try discriminate Nx.
      destruct y as [t|t| |t n f]; try discriminate L; destruct t; try discriminate L.
      reflexivity.
    + destruct s; try discriminate Nx.
      destruct y as [t|t| |t n f]; try discriminate L; destruct t; try discriminate L.
      * apply SFleb_inf_r. exact Fx.
      * apply (SFdiv_finite_mono _ _ _ _ _ _ _ _ (Z.min (Z.min e f) ey)); try lia.
        apply valid_leb_value; try assumption; lia.
Qed.

(** ** Division of a non-negative value by positive ones *)

Lemma SFdiv_anti_r (x y1 y2 : spec_float) :
  valid_binary y1 = true -> valid_binary y2 = true ->
  SFnonneg x = true -> SFltb (S754_zero false) y1 = true -> SFleb y1 y2 = true ->
  SFdiv prec emax x y1 <> S754_nan -> SFdiv prec emax x y2 <> S754_nan ->
  SFleb (SFdiv prec emax x y2) (SFdiv prec emax x y1) = true.
Proof.
  intros V1 V2 Nx P1 L K1 K2.
  destruct y1 as [s1|s1| |s1 m1 e1]; try discriminate P1; destruct s1; try discriminate P1.
  - destruct y2 as [s2|s2| |s2 m2 e2]; try discriminate L; destruct s2; try discriminate L.
    destruct x as [s|s| |s m e]; try discriminate Nx; try reflexivity.
    exfalso. apply K1. reflexivity.
  - destruct y2 as [s2|s2| |s2 m2 e2]; try discriminate L; destruct s2; try discriminate L.
    + destruct x as [s|s| |s m e]; try discriminate Nx.
      * reflexivity.
      * exfalso. apply K2. reflexivity.
      * destruct s; try discriminate Nx. apply SFleb_zero_l.
        apply SFdiv_nonneg; [reflexivity | reflexivity | right; reflexivity].
    + destruct x as [s|s| |s m e]; try discriminate Nx.
      * reflexivity.
      * destruct s; try discriminate Nx. reflexivity.
      * destruct s; try discriminate Nx.
        apply (SFdiv_finite_mono _ _ _ _ _ _ _ _ (Z.min (Z.min e1 e2) e)); try lia.
        apply valid_leb_value; try assumption; lia.
Qed.

(** ** Multiplication by a positive finite value *)

Lemma SFmul_opp_l (x : spec_float) (mk : positive) (ek : Z) :
  SFmul prec emax (SFopp x) (S754_finite false mk ek)
  = SFopp (SFmul prec emax x (S754_finite false mk ek)).
Proof.
  destruct x as [s|s| |s m e]; try reflexivity; try (destruct s; reflexivity).
  unfold SFmul. cbn [SFopp].
  destruct s; cbn [negb xorb]; [|apply binary_round_aux_opp].
  rewrite binary_round_aux_opp, SFopp_involutive. reflexivity.
Qed.

Lemma SFmul_const_not_nan (x : spec_float) (mk : positive) (ek : Z) :
  x <> S754_nan -> SFmul prec emax x (S754_finite false mk ek) <> S754_nan.
Proof.
  intros K. destruct x as [s|s| |s m e]; try discriminate; try contradiction.
  unfold SFmul.
  pose proof (binary_round_aux_signed (xorb s false) (Zpos (m * mk)) (e + ek) loc_Exact
                ltac:(lia)) as S.
  destruct (binary_round_aux prec emax (xorb s false) (Zpos (m * mk)) (e + ek) loc_Exact);
    try discriminate; discriminate S.
Qed.

Lemma SFmul_mono_const (x1 x2 : spec_float) (mk : positive) (ek : Z) :
  bounded prec emax mk ek = true ->
  valid_binary x1 = true -> valid_binary x2 = true ->
  SFleb x1 x2 = true ->
  SFleb (SFmul prec emax x1 (S754_finite false mk ek))
        (SFmul prec emax x2 (S754_finite false mk ek)) = true.
Proof.
  intros Vk.
  assert (NN : forall x, SFnonneg x = true -> x <> S754_nan)
    by (intros x N ->; discriminate N).
  apply (odd_monotone (fun x => SFmul prec emax x (S754_finite false mk ek))).
  - intros x. apply SFmul_opp_l.
  - intros x Vx N. apply SFmul_nonneg; try assumption; [reflexivity|].
    apply SFmul_const_not_nan, NN, N.
  - intros x y Vx Vy Nx Ny L.
    apply SFmul_mono; try assumption; try reflexivity.
    + apply SFleb_refl. discriminate.
    + apply SFmul_const_not_nan, NN, Nx.
    + apply SFmul_const_not_nan, NN, Ny.
Qed.

End Binary64Division.

(** ** The order and the primitive division *)

Lemma div_mono_l (x1 x2 y : number) (my : positive) (ey : Z) :
  Prim2SF y = S754_finite false my ey ->
  (x1 <=? x2) = true -> (x1 / y <=? x2 / y) = true.
Proof.
  intros Ey. rewrite !leb_spec, !div_spec, Ey.
  apply SFdiv_mono_l; apply Prim2SF_valid.
Qed.

Lemma div_anti_r (x y1 y2 : number) :
  (0 <=? x) = true -> (0 <? y1) = true -> (y1 <=? y2) = true ->
  is_nan (x / y1) = false -> is_nan (x / y2) = false ->
  (x / y2 <=? x / y1) = true.
Proof.
  rewrite leb_zero_nonneg, ltb_zero_pos, !is_nan_false_iff, !leb_spec, !div_spec.
  apply SFdiv_anti_r; apply Prim2SF_valid.
Qed.

Lemma mul_mono_const (x1 x2 k : number) (mk : positive) (ek : Z) :
  Prim2SF k = S754_finite false mk ek ->
  (x1 <=? x2) = true -> (x1 * k <=? x2 * k) = true.
Proof.
  intros Ek. rewrite !leb_spec, !mul_spec.
  pose proof (Prim2SF_valid k) as Vk. rewrite Ek in *.
  apply SFmul_mono_const; try apply Prim2SF_valid. exact Vk.
Qed.

Lemma div_not_nan_l (x y : number) : is_nan (x / y) = false -> is_nan x = false.
Proof.
  rewrite !is_nan_spec, div_spec.
  destruct (Prim2SF x) as [s|s| |s m e]; try (intros _; reflexivity).
  destruct (Prim2SF y); intros H; discriminate H.
Qed.

Lemma leb_Infinity (x : number) : is_nan x = false -> (x <=? Infinity) = true.
Proof.
  rewrite is_nan_false_iff, leb_spec. apply SFleb_any_inf.
Qed.

(** What is above a positive value is positive. *)
Lemma ltb_leb_pos (x y : number) :
  (0 <? x) = true -> (x <=? y) = true -> (0 <? y) = true.
Proof.
  rewrite !ltb_zero_pos, leb_spec.
  destruct (Prim2SF x) as [s|s| |s m e], (Prim2SF y) as [t|t| |t n f];
    try destruct s; try destruct t; try discriminate; try reflexivity.
Qed.

(** ** The ratios of two records with the same costs *)

(** A ratio of the net to the costs that is a number has finite costs. *)
Lemma roi_ratio_finite_costs (x y : number) :
  (0 <? y) = true -> is_nan ((x - y) / y) = false ->
  exists (m : positive) (e : Z), Prim2SF y = S754_finite false m e.
Proof.
  rewrite ltb_zero_pos, is_nan_spec, div_spec, sub_spec.
  destruct (Prim2SF y) as [t|t| |t n f]; try discriminate; destruct t; try discriminate.
  - intros _ H. exfalso.
    destruct (Prim2SF x) as [s|s| |s m e]; try destruct s; discriminate H.
  - intros _ _. exists n, f. reflexivity.
Qed.

(** With the same costs, the rounded ROI follows the benefit. *)
Lemma roiPct_mono (a b : RoiInputsType) :
  benefit_fields_nonneg a -> benefit_le a b ->
  Scenario.totalCosts b = Scenario.totalCosts a ->
  (0 <=? Scenario.totalCosts a) = true ->
  is_nan (Math_round (Scenario.roiPct a * 10) / 10) = false ->
  is_nan (Math_round (Scenario.roiPct b * 10) / 10) = false ->
  (Math_round (Scenario.roiPct a * 10) / 10 <=? Math_round (Scenario.roiPct b * 10) / 10) = true.
Proof.
  intros N L EC NC Ka Kb.
  apply (div_mono_l _ _ 10 _ _ eq_refl), Math_round_monotone, (mul_mono_const _ _ 10 _ _ eq_refl).
  apply div_not_nan_l, Math_round_not_nan, mul_not_nan in Ka, Kb.
  destruct Ka as [Ka _], Kb as [Kb _].
  unfold Scenario.roiPct in *. rewrite EC in Kb |- *.
  destruct (0 <? Scenario.totalCosts a) eqn:P; [|reflexivity].
  apply mul_not_nan in Ka, Kb. destruct Ka as [Ka _], Kb as [Kb _].
  destruct (roi_ratio_finite_costs _ _ P Ka) as (m & e & F).
  pose proof (div_not_nan_l _ _ Ka) as Sa. pose proof (div_not_nan_l _ _ Kb) as Sb.
  destruct (sub_not_nan _ _ Sa) as [Ta _]. destruct (sub_not_nan _ _ Sb) as [Tb _].
  destruct (totalBenefit_mono _ _ N L Ta Tb) as [P1 Q1].
  apply (mul_mono_const _ _ 100 _ _ eq_refl), (div_mono_l _ _ _ m e F), sub_mono_l; assumption.
Qed.

(** With the same costs, the rounded payback period goes against the
    benefit. *)
Lemma paybackMonths_anti (a b : RoiInputsType) :
  benefit_fields_nonneg a -> benefit_le a b ->
  Scenario.totalCosts b = Scenario.totalCosts a ->
  (0 <=? Scenario.totalCosts a) = true ->
  is_nan (Scenario.totalBenefit a) = false ->
  is_nan (Scenario.totalBenefit b) = false ->
  is_nan (Math_round (Scenario.paybackMonths a * 10) / 10) = false ->
  is_nan (Math_round (Scenario.paybackMonths b * 10) / 10) = false ->
  (Math_round (Scenario.paybackMonths b * 10) / 10
   <=? Math_round (Scenario.paybackMonths a * 10) / 10) = true.
Proof.
  intros N L EC NC Ta Tb Ka Kb.
  apply (div_mono_l _ _ 10 _ _ eq_refl), Math_round_monotone, (mul_mono_const _ _ 10 _ _ eq_refl).
  apply div_not_nan_l, Math_round_not_nan, mul_not_nan in Ka, Kb.
  destruct Ka as [Ka _], Kb as [Kb _].
  destruct (totalBenefit_mono _ _ N L Ta Tb) as [P1 Q1].
  pose proof (div_mono_l _ _ 12 _ _ eq_refl Q1) as M.
  unfold Scenario.paybackMonths, Scenario.monthlyBenefit in *. rewrite EC in Kb |- *.
  destruct (0 <? Scenario.totalBenefit b / 12) eqn:Pb.
  - destruct (0 <? Scenario.totalBenefit a / 12) eqn:Pa.
    + apply div_anti_r; assumption.
    + apply leb_Infinity. exact Kb.
  - destruct (0 <? Scenario.totalBenefit a / 12) eqn:Pa; [|reflexivity].
    rewrite (ltb_leb_pos _ _ Pa M) in Pb. discriminate Pb.
Qed.

(** * Outreach generation *)

Definition is_number (value : JsValue) : bool :=
  match value with
  | VNumber _ => true
  | _ => false
  end.

(** There is no ROI output, or the three values [generateOutreachAsset] calls
    [toFixed] on are numbers. *)
Definition roiOutput_readable (roiOutput : JsValue) : bool :=
  match roiOutput with
  | VUndefined | VNull => true
  | _ => is_number (get (get roiOutput "mostLikely") "roiPct")
         && is_number (get (get roiOutput "low") "roiPct")
         && is_number (get (get roiOutput "mostLikely") "paybackMonths")
  end.

(** The three pairs that have a template. *)
Definition has_template (kind : OutreachKind) (persona : PersonaType) : Prop :=
  (kind = email_economic /\ (persona = Economic_Decider \/ persona = Technical_Evaluator))
  \/ (kind = linkedin_dm /\ persona = Economic_Decider).

Lemma has_template_lookup (kind : OutreachKind) (persona : PersonaType) :
  has_template kind persona <->
  exists templates template,
    templates_of kind OUTREACH_TEMPLATES = Some templates /\
    template_of persona templates = Some template.
Proof.
  unfold has_template. split.
  - intros [[-> [-> | ->]] | [-> ->]]; eexists; eexists; split; reflexivity.
  - intros (templates & template & A & B).
    destruct kind; vm_compute in A; try discriminate A; injection A as <-;
      destruct persona; vm_compute in B; try discriminate B; auto.
Qed.

Lemma has_template_available (kind : OutreachKind) (persona : PersonaType) :
  has_template kind persona <-> In kind (getAvailableOutreachTypes persona).
Proof.
  unfold has_template. split.
  - intros [[-> [-> | ->]] | [-> ->]]; vm_compute; auto.
  - destruct persona; vm_compute; intros H;
      repeat (destruct H as [H|H]; [subst kind; auto|]); contradiction.
Qed.

Section OutreachFacts.

Variable Number_toFixed_1 : number -> string.
Variable Intl_NumberFormat_format : JsValue -> string.
Variable String_replace : string -> string -> string -> string.
Variable TypeError_message : JsValue -> string -> string.

Lemma toFixed_chain (object : JsValue) (key : string) :
  (is_number (get object key) = true /\
   exists s, and_then (member TypeError_message object key) (fun value =>
             and_then (toFixed_1 Number_toFixed_1 TypeError_message value) (fun s =>
             Returned (Some s))) = Returned (Some s))
  \/ (is_number (get object key) = false /\
      exists e, and_then (member TypeError_message object key) (fun value =>
                and_then (toFixed_1 Number_toFixed_1 TypeError_message value) (fun s =>
                Returned (Some s))) = Thrown e).
Proof.
  destruct object as [| |b|x|s|elements|properties];
    try (right; split; [reflexivity | eexists; reflexivity]).
  unfold member. cbn [and_then].
  destruct (get (VObject properties) key) as [| |b|x|s|elements|properties'];
    try (right; split; [reflexivity | eexists; reflexivity]).
  left. split; [reflexivity | eexists; reflexivity].
Qed.

Lemma number_member (object : JsValue) (key key' : string) :
  is_number (get object key) = true ->
  member TypeError_message object key' = Returned (get object key').
Proof. destruct object; try discriminate. reflexivity. Qed.

(** [templateVars] is built exactly when the ROI output is readable. *)
Lemma templateVars_returns (stakeholder : Stakeholder.t) (projectData : ProjectData.t)
  (senderName : string) :
  (exists vars, templateVars Number_toFixed_1 Intl_NumberFormat_format TypeError_message
                  stakeholder projectData senderName = Returned vars)
  <-> roiOutput_readable projectData.(ProjectData.roiOutput) = true.
Proof.
  unfold templateVars, roiOutput_readable, optional_toFixed, optional_year1Net.
  destruct projectData as [cn pc ps ro ss]. cbn [ProjectData.roiOutput].
  assert (G : forall o,
             ((exists vars,
                 and_then
                   (and_then (member TypeError_message (get o "mostLikely") "roiPct") (fun value =>
                    and_then (toFixed_1 Number_toFixed_1 TypeError_message value) (fun s =>
                    Returned (Some s)))) (fun roiPct =>
                 and_then
                   (and_then (member TypeError_message (get o "low") "roiPct") (fun value =>
                    and_then (toFixed_1 Number_toFixed_1 TypeError_message value) (fun s =>
                    Returned (Some s)))) (fun lowRoiPct =>
                 and_then
                   (and_then (member TypeError_message (get o "mostLikely") "paybackMonths")
                      (fun value =>
                    and_then (toFixed_1 Number_toFixed_1 TypeError_message value) (fun s =>
                    Returned (Some s)))) (fun paybackMonths =>
                 and_then (member TypeError_message (get o "mostLikely") "year1Net")
                   (fun year1Net =>
                 Returned
                   [("stakeholderName", stakeholder.(Stakeholder.name));
                    ("companyName", cn);
                    ("productCategory", pc);
                    ("senderName", senderName);
                    ("roiPct", or_TBD roiPct);
                    ("lowRoiPct", or_TBD lowRoiPct);
                    ("paybackMonths", or_TBD paybackMonths);
                    ("year1Net", formatCurrency Intl_NumberFormat_format
                                   (if truthy year1Net then year1Net else VNumber 0));
                    ("businessMetrics", join ", " (map Pain.businessMetric ps))]%string))))
                 = Returned vars)
              <-> is_number (get (get o "mostLikely") "roiPct")
                  && is_number (get (get o "low") "roiPct")
                  && is_number (get (get o "mostLikely") "paybackMonths") = true)).
  { intros o.
    destruct (toFixed_chain (get o "mostLikely") "roiPct") as [[N1 [s1 E1]]|[N1 [e1 E1]]];
      rewrite E1, N1; cbn [and_then andb];
      [|split; [intros [vars H]; discriminate H | discriminate]].
    destruct (toFixed_chain (get o "low") "roiPct") as [[N2 [s2 E2]]|[N2 [e2 E2]]];
      rewrite E2, N2; cbn [and_then andb];
      [|split; [intros [vars H]; discriminate H | discriminate]].
    destruct (toFixed_chain (get o "mostLikely") "paybackMonths") as [[N3 [s3 E3]]|[N3 [e3 E3]]];
      rewrite E3, N3; cbn [and_then andb];
      [|split; [intros [vars H]; discriminate H | discriminate]].
    rewrite (number_member _ _ "year1Net" N1). cbn [and_then].
    split; [reflexivity | intros _; eexists; reflexivity]. }
  destruct ro as [| |b|x|s|elements|properties];
    try (split; [reflexivity | intros _; eexists; reflexivity]);
    apply G.
Qed.

End OutreachFacts.

(** What is read back of a stored scenario is a number exactly when the
    field was finite. *)
Lemma stored_field_is_number (x : number) :
  is_number (JSON_parse (if Number_isFinite x then JNumber (if x =? 0 then 0 else x) else JNull))
  = Number_isFinite x.
Proof. destruct (Number_isFinite x); reflexivity. Qed.

Lemma parsed_roiOutput_readable (lowS mostLikelyS highS : RoiScenarioType)
  (lowScenario mostLikelyScenario highScenario : Json) :
  JSON_stringify (scenario_object lowS) = Some lowScenario ->
  JSON_stringify (scenario_object mostLikelyS) = Some mostLikelyScenario ->
  JSON_stringify (scenario_object highS) = Some highScenario ->
  roiOutput_readable (parsed_roiOutput lowScenario mostLikelyScenario highScenario)
  = Number_isFinite mostLikelyS.(roiPct) && Number_isFinite lowS.(roiPct)
    && Number_isFinite mostLikelyS.(paybackMonths).
Proof.
  intros L M H.
  cbn [JSON_stringify scenario_object flat_map app fst snd] in L, M, H.
  injection L as <-. injection M as <-. injection H as <-.
  unfold roiOutput_readable, parsed_roiOutput.
  cbn [JSON_parse map fst snd get lookup String.eqb Ascii.eqb Bool.eqb].
  rewrite !stored_field_is_number. reflexivity.
Qed.

(** [generateOutreachAsset] returns exactly when there is a template and the
    ROI output is readable. *)
Lemma generateOutreachAsset_returns_iff
  (toFixed : number -> string) (format : JsValue -> string)
  (replace : string -> string -> string -> string) (message : JsValue -> string -> string)
  (kind : OutreachKind) (stakeholder : Stakeholder.t) (projectData : ProjectData.t)
  (senderName : option string) (c : list outreach_line) :
  (exists asset, fst (generateOutreachAsset toFixed format replace message
                        kind stakeholder projectData senderName c) = Returned asset)
  <-> has_template kind stakeholder.(Stakeholder.persona) /\
      roiOutput_readable projectData.(ProjectData.roiOutput) = true.
Proof.
  pose proof (has_template_lookup kind stakeholder.(Stakeholder.persona)) as L.
  pose proof (templateVars_returns toFixed format message stakeholder projectData
                (match senderName with Some s => s | None => "Sales Team"%string end)) as T.
  unfold generateOutreachAsset.
  destruct (templates_of kind OUTREACH_TEMPLATES) as [templates|] eqn:E1;
    [destruct (template_of stakeholder.(Stakeholder.persona) templates) as [template|] eqn:E2|].
  - assert (H : has_template kind stakeholder.(Stakeholder.persona)) by (apply L; eauto).
    destruct (templateVars toFixed format message stakeholder projectData _) as [vars|e] eqn:E3.
    + destruct (fold_left _ vars _) as [subject body]. cbn [fst].
      split; [intros _; split; [exact H | apply T; eauto] | intros _; eexists; reflexivity].
    + cbn [fst]. split; [intros [asset Q]; discriminate Q|].
      intros [_ R]. apply T in R. destruct R as [vars R]. discriminate R.
  - cbn [fst]. split; [intros [asset Q]; discriminate Q|].
    intros [H _]. apply L in H. destruct H as (ts & t & Q1 & Q2).
    try rewrite E1 in Q1. injection Q1 as <-. try rewrite E2 in Q2. discriminate Q2.
  - cbn [fst]. split; [intros [asset Q]; discriminate Q|].
    intros [H _]. apply L in H. destruct H as (ts & t & Q1 & Q2).
    try rewrite E1 in Q1. discriminate Q1.
Qed.

(** * The range of the finite doubles *)

(** [Number.MAX_VALUE], the largest finite double. *)
Definition Number_MAX_VALUE : number := 0x1.fffffffffffffp1023.

(** The largest total benefit whose twelfth underflows to zero: six units of
    [2^-1074]. *)
Definition monthly_underflow : number := 0x6p-1074.

Lemma finite_bounds (x : number) :
  is_finite x = true ->
  (- Number_MAX_VALUE <=? x) = true /\ (x <=? Number_MAX_VALUE) = true.
Proof.
  rewrite is_finite_spec, !leb_spec.
  change (Prim2SF (- Number_MAX_VALUE)) with (S754_finite true 9007199254740991 971).
  change (Prim2SF Number_MAX_VALUE) with (S754_finite false 9007199254740991 971).
  pose proof (Prim2SF_valid x) as V.
  destruct (Prim2SF x) as [s|s| |s m e]; try discriminate; intros _.
  - split; reflexivity.
  - pose proof (bounded_facts _ _ V) as [C B].
    pose proof (digits2_pos_upper m) as U.
    assert (D : (Zpos (digits2_pos m) <= 53)%Z) by lia.
    assert (M : (Zpos m < 2 ^ 53)%Z).
    { eapply Z.lt_le_trans; [exact U|]. apply Z.pow_le_mono_r; lia. }
    change (2 ^ 53)%Z with 9007199254740992%Z in M.
    assert (L : SFleb (S754_finite false m e) (S754_finite false 9007199254740991 971) = true).
    { apply SFleb_finite_iff. lia. }
    destruct s.
    + split; [|reflexivity].
      change (S754_finite true 9007199254740991 971)
        with (SFopp (S754_finite false 9007199254740991 971)).
      change (S754_finite true m e) with (SFopp (S754_finite false m e)).
      rewrite SFleb_opp. exact L.
    + split; [reflexivity | exact L].
Qed.

Lemma bounded_is_finite (a x b : number) :
  (a <=? x) = true -> (x <=? b) = true ->
  is_finite a = true -> is_finite b = true -> is_finite x = true.
Proof.
  rewrite !is_finite_spec, !leb_spec.
  destruct (Prim2SF a) as [sa|sa| |sa ma ea], (Prim2SF x) as [s|s| |s m e],
    (Prim2SF b) as [sb|sb| |sb mb eb];
    try discriminate; try reflexivity;
    destruct s; try discriminate; try (destruct sa; discriminate);
    try (destruct sb; discriminate).
Qed.

(** Rounding to an integer and dividing by ten keep a finite value finite. *)
Lemma Math_round_is_finite (x : number) :
  is_finite x = true -> is_finite (Math_round x) = true.
Proof.
  intros F. destruct (finite_bounds x F) as [L U].
  apply (bounded_is_finite (Math_round (- Number_MAX_VALUE)) _ (Math_round Number_MAX_VALUE));
    try reflexivity; apply Math_round_monotone; assumption.
Qed.

Lemma div_10_is_finite (x : number) :
  is_finite x = true -> is_finite (x / 10) = true.
Proof.
  intros F. destruct (finite_bounds x F) as [L U].
  apply (bounded_is_finite (- Number_MAX_VALUE / 10) _ (Number_MAX_VALUE / 10));
    try reflexivity; apply (div_mono_l _ _ 10 _ _ eq_refl); assumption.
Qed.

(** A value is one of: [NaN], an infinity, or finite. *)
Lemma number_cases (x : number) :
  is_nan x = true \/ x = Infinity \/ x = - Infinity \/ is_finite x = true.
Proof.
  rewrite is_nan_spec, is_finite_spec.
  destruct (Prim2SF x) as [s|s| |s m e] eqn:E; auto.
  destruct s; [right; right; left | right; left]; apply Prim2SF_inj; rewrite E; reflexivity.
Qed.

Lemma finite_not_nan (x : number) : is_finite x = true -> is_nan x = false.
Proof. rewrite is_finite_spec, is_nan_spec. destruct (Prim2SF x); congruence. Qed.

(** [NaN] goes through the rounding to one decimal, and nothing else gives
    it. *)
Lemma Math_round_nan (x : number) : is_nan (Math_round x) = is_nan x.
Proof.
  destruct (is_nan x) eqn:K.
  - rewrite is_nan_spec in *. unfold Math_round.
    destruct (Prim2SF x) as [s|s| |s m e] eqn:E; try discriminate K. rewrite E. reflexivity.
  - destruct (sign_cases x K) as [N|N].
    + apply nonneg_not_nan, Math_round_nonneg, N.
    + apply nonpos_not_nan, Math_round_nonpos, N.
Qed.

Lemma div_10_nan (x : number) : is_nan (x / 10) = is_nan x.
Proof.
  destruct (is_nan x) eqn:K.
  - rewrite is_nan_spec in *. rewrite div_spec.
    destruct (Prim2SF x) as [s|s| |s m e]; try discriminate K. reflexivity.
  - destruct (sign_cases x K) as [N|N].
    + apply nonneg_not_nan, div_nonneg; [exact N | reflexivity | right; reflexivity].
    + apply nonpos_not_nan, div_nonpos; [exact N | reflexivity | right; reflexivity].
Qed.

Lemma mul_10_nan (x : number) : is_nan (x * 10) = is_nan x.
Proof.
  destruct (is_nan x) eqn:K.
  - rewrite is_nan_spec in *. rewrite mul_spec.
    destruct (Prim2SF x) as [s|s| |s m e]; try discriminate K. reflexivity.
  - apply (mul_const_not_nan x 10 _ _ K eq_refl).
Qed.

(** The rounding to one decimal gives [Infinity] only from [Infinity]. *)
Lemma Math_round_Infinity (x : number) : Math_round x = Infinity <-> x = Infinity.
Proof.
  split; [|intros ->; reflexivity].
  intros H. destruct (number_cases x) as [K|[E|[E|F]]].
  - rewrite <- Math_round_nan, H in K. discriminate K.
  - exact E.
  - rewrite E in H. discriminate H.
  - apply Math_round_is_finite in F. rewrite H in F. discriminate F.
Qed.

Lemma div_10_Infinity (x : number) : x / 10 = Infinity <-> x = Infinity.
Proof.
  split; [|intros ->; reflexivity].
  intros H. destruct (number_cases x) as [K|[E|[E|F]]].
  - rewrite <- div_10_nan, H in K. discriminate K.
  - exact E.
  - rewrite E in H. discriminate H.
  - apply div_10_is_finite in F. rewrite H in F. discriminate F.
Qed.

Lemma round_one_decimal_Infinity (x : number) :
  Math_round (x * 10) / 10 = Infinity <-> x * 10 = Infinity.
Proof. rewrite div_10_Infinity, Math_round_Infinity. reflexivity. Qed.

Lemma round_one_decimal_nan (x : number) :
  is_nan (Math_round (x * 10) / 10) = is_nan x.
Proof. rewrite div_10_nan, Math_round_nan, mul_10_nan. reflexivity. Qed.

Lemma round_one_decimal_is_finite (x : number) :
  is_finite (x * 10) = true -> is_finite (Math_round (x * 10) / 10) = true.
Proof. intros F. apply div_10_is_finite, Math_round_is_finite, F. Qed.

(** A quotient of a non-negative value by a positive one that is a number
    has a finite operand. *)
Lemma div_not_nan_finite (x y : number) :
  (0 <=? x) = true -> (0 <? y) = true -> is_nan (x / y) = false ->
  is_finite x = true \/ is_finite y = true.
Proof.
  rewrite leb_zero_nonneg, ltb_zero_pos, is_nan_spec, !is_finite_spec, div_spec.
  destruct (Prim2SF x) as [s|s| |s m e], (Prim2SF y) as [t|t| |t n f];
    try discriminate; auto.
Qed.

(** A value of at least one half rounds to at least one, and a tenth of it
    is positive. *)
Lemma round_one_decimal_pos (x : number) :
  (0.5 <=? x * 10) = true -> (0 <? Math_round (x * 10) / 10) = true.
Proof.
  intros H.
  apply (ltb_leb_pos (Math_round 0.5 / 10)); [reflexivity|].
  apply (div_mono_l _ _ 10 _ _ eq_refl), Math_round_monotone, H.
Qed.

(** ** When the monthly benefit is positive *)

(** The doubles above six units of [2^-1074] start at seven. *)
Lemma above_monthly_underflow (x : number) :
  (0 <=? x) = true -> (x <=? monthly_underflow) = false ->
  (0x7p-1074 <=? x) = true.
Proof.
  rewrite leb_zero_nonneg, !leb_spec.
  change (Prim2SF monthly_underflow) with (S754_finite false 6 (-1074)).
  change (Prim2SF 0x7p-1074) with (S754_finite false 7 (-1074)).
  pose proof (Prim2SF_valid x) as V. intros N H.
  destruct (Prim2SF x) as [s|s| |s m e]; try destruct s;
    try discriminate N; try discriminate H; try reflexivity.
  pose proof (bounded_facts _ _ V) as [C _].
  apply SFleb_finite_iff.
  destruct (Z.eq_dec e (-1074)) as [E|E]; [right | left; lia].
  split; [symmetry; exact E|].
  destruct (Z_le_gt_dec (Zpos m) 6) as [Q|Q]; [|lia].
  exfalso. assert (T : SFleb (S754_finite false m e) (S754_finite false 6 (-1074)) = true)
    by (apply SFleb_finite_iff; right; split; assumption).
  rewrite T in H. discriminate H.
Qed.

(** On a non-negative total benefit the guard [monthlyBenefit > 0] fails
    exactly when the benefit is at most six units of [2^-1074]: zero, or so
    small that its twelfth underflows to zero. *)
Lemma monthlyBenefit_guard (inputs : RoiInputsType) :
  (0 <=? Scenario.totalBenefit inputs) = true ->
  ((0 <? Scenario.monthlyBenefit inputs) = false
   <-> (Scenario.totalBenefit inputs <=? monthly_underflow) = true).
Proof.
  intros N. unfold Scenario.monthlyBenefit. split.
  - intros G. destruct (Scenario.totalBenefit inputs <=? monthly_underflow) eqn:L;
      [reflexivity|].
    pose proof (above_monthly_underflow _ N L) as A.
    apply (div_mono_l _ _ 12 _ _ eq_refl) in A.
    rewrite (ltb_leb_pos (0x7p-1074 / 12) _ eq_refl A) in G. discriminate G.
  - intros L. apply (div_mono_l _ _ 12 _ _ eq_refl) in L.
    apply leb_not_ltb. exact L.
Qed.

(** The doubles below one half end at its predecessor. *)
Lemma below_half (x : number) :
  is_nan x = false -> (0.5 <=? x) = false -> (x <=? 0x1.fffffffffffffp-2) = true.
Proof.
  rewrite is_nan_spec, !leb_spec.
  change (Prim2SF 0.5) with (S754_finite false 4503599627370496 (-53)).
  change (Prim2SF 0x1.fffffffffffffp-2) with (S754_finite false 9007199254740991 (-54)).
  pose proof (Prim2SF_valid x) as V. intros K H.
  destruct (Prim2SF x) as [s|s| |s m e]; try destruct s;
    try discriminate K; try discriminate H; try reflexivity.
  pose proof (bounded_facts _ _ V) as [C _].
  pose proof (digits2_pos_upper m) as U. pose proof (digits2_pos_lower m) as L.
  assert (M : (Zpos m < 2 ^ 53)%Z).
  { eapply Z.lt_le_trans; [exact U|]. apply Z.pow_le_mono_r; lia. }
  change (2 ^ 53)%Z with 9007199254740992%Z in M.
  apply SFleb_finite_iff.
  destruct (Z_le_gt_dec e (-54)) as [E|E]; [lia|].
  exfalso.
  assert (T : SFleb (S754_finite false 4503599627370496 (-53)) (S754_finite false m e) = true).
  { apply SFleb_finite_iff. destruct (Z.eq_dec e (-53)) as [E'|E']; [right | left; lia].
    split; [symmetry; exact E'|].
    assert (D : Zpos (digits2_pos m) = 53%Z) by lia.
    rewrite D in L. change (2 ^ (53 - 1))%Z with 4503599627370496%Z in L. exact L. }
  rewrite T in H. discriminate H.
Qed.

(** The rounding to one decimal is positive exactly from one half of a
    tenth on. *)
Lemma round_one_decimal_pos_iff (x : number) :
  is_nan (x * 10) = false ->
  ((0 <? Math_round (x * 10) / 10) = true <-> (0.5 <=? x * 10) = true).
Proof.
  intros K. split; [|apply round_one_decimal_pos].
  intros P. destruct (0.5 <=? x * 10) eqn:H; [reflexivity|].
  pose proof (below_half _ K H) as B.
  apply Math_round_monotone, (div_mono_l _ _ 10 _ _ eq_refl) in B.
  apply leb_not_ltb in B.
  change (Math_round 0x1.fffffffffffffp-2 / 10) with 0 in B.
  rewrite B in P. discriminate P.
Qed.

(** A quotient of a non-negative value by a positive one is [NaN] exactly
    when both are infinite. *)
Lemma div_nan_iff (x y : number) :
  (0 <=? x) = true -> (0 <? y) = true ->
  (is_nan (x / y) = true <-> x = Infinity /\ y = Infinity).
Proof.
  intros N P. split.
  - intros K.
    destruct (is_finite x) eqn:Fx.
    + pose proof (div_nonneg x y N P (or_introl Fx)) as Q.
      apply nonneg_not_nan in Q. rewrite Q in K. discriminate K.
    + destruct (is_finite y) eqn:Fy.
      * pose proof (div_nonneg x y N P (or_intror Fy)) as Q.
        apply nonneg_not_nan in Q. rewrite Q in K. discriminate K.
      * split.
        -- destruct (number_cases x) as [A|[A|[A|A]]]; try congruence.
           ++ rewrite (nonneg_not_nan _ N) in A. discriminate A.
           ++ rewrite A in N. discriminate N.
        -- destruct (number_cases y) as [A|[A|[A|A]]]; try congruence.
           ++ rewrite (ltb_is_nan_r _ _ P) in A. discriminate A.
           ++ rewrite A in P. discriminate P.
  - intros [-> ->]. reflexivity.
Qed.

(** With a monthly benefit of at least 1 and costs of at most [1e307], the
    quotient does not overflow, nor does its product by ten. *)
Lemma quotient_no_overflow (x y : number) :
  (0 <=? x) = true -> (x <=? 1e307) = true -> (1 <=? y) = true ->
  is_finite (x / y * 10) = true.
Proof.
  intros N U L.
  assert (F : is_finite x = true)
    by (apply (bounded_is_finite 0 x 1e307); try assumption; reflexivity).
  pose proof (one_leb_pos _ L) as P.
  pose proof (div_nonneg x y N P (or_introl F)) as Q.
  pose proof (div_nonneg x 1 N eq_refl (or_introl F)) as Q1.
  assert (A : (x / y <=? 1e307 / 1) = true).
  { apply (fleb_trans _ (x / 1)).
    - exact Q.
    - apply div_anti_r; try assumption; try reflexivity; apply nonneg_not_nan; assumption.
    - apply (div_mono_l _ _ 1 _ _ eq_refl). exact U. }
  apply (bounded_is_finite (0 * 10) _ (1e307 / 1 * 10)); try reflexivity;
    apply (mul_mono_const _ _ 10 _ _ eq_refl); assumption.
Qed.

(** * The properties of the specification *)

(** C1. [calculateScenario] returns the scenario of the specification's closed
    forms: the total benefit is the sum of the four savings, the costs are
    licence plus implementation, the net is their difference; the two amounts
    are these values rounded to the nearest whole unit and the two ratios are
    rounded to one decimal, each rounded once, from the unrounded value.  On
    the worked example the most-likely scenario is 80000 / 10000 / 14.3 /
    10.5. *)
Theorem calculateScenario_closed_form :
  (forall (inputs : RoiInputsType) (c : console),
      exists s,
        result_of (calculateScenario inputs) c = Returned s /\
        Spec.rounded_to_whole_unit (Spec.totalBenefit inputs) s.(totalBenefit) /\
        Spec.rounded_to_whole_unit (Spec.year1Net inputs) s.(year1Net) /\
        Spec.rounded_to_one_decimal (Spec.roiPct inputs) s.(roiPct) /\
        Spec.rounded_to_one_decimal (Spec.paybackMonths inputs) s.(paybackMonths))
  /\ (exists out,
        result_of (calculateRoiScenarios example_inputs) [] = Returned out /\
        out.(mostLikely).(totalBenefit) = 80000 /\
        out.(mostLikely).(year1Net) = 10000 /\
        out.(mostLikely).(roiPct) = 14.3 /\
        out.(mostLikely).(paybackMonths) = 10.5).
Proof.
  split.
  - intros inputs c. exists (scenario_value inputs). split; [reflexivity|].
    unfold Spec.rounded_to_whole_unit, Spec.rounded_to_one_decimal, scenario_value.
    cbn [totalBenefit year1Net roiPct paybackMonths].
    repeat split; try apply Math_round_nearest.
    + exists (Math_round (Scenario.roiPct inputs * 10)).
      split; [apply Math_round_nearest | reflexivity].
    + exists (Math_round (Scenario.paybackMonths inputs * 10)).
      split; [apply Math_round_nearest | reflexivity].
  - eexists. split; [reflexivity|]. repeat split; reflexivity.
Qed.

(** C2. On a record whose [nPeople] is an integer, [calculateRoiScenarios]
    throws exactly when [nPeople < 1] or [costPerHour < 0]; a throwing call
    has built no scenario, and a call that does not throw returns the full
    output.  It throws for [nPeople = 0] and for [costPerHour = -1] and
    returns for [nPeople = 1], [costPerHour = 0]. *)
Theorem calculateRoiScenarios_InvalidInput :
  (forall (inputs : RoiInputsType) (c : console),
      Number_isInteger inputs.(nPeople) = true ->
      (raises_InvalidInput inputs c <->
       (inputs.(nPeople) <? 1) = true \/ (inputs.(costPerHour) <? 0) = true) /\
      (~ raises_InvalidInput inputs c ->
       calculateRoiScenarios inputs c = (Returned (output_value inputs), c ++ success_lines inputs)))
  /\ raises_InvalidInput (with_nPeople 0 example_inputs) []
  /\ raises_InvalidInput (with_costPerHour (-1) example_inputs) []
  /\ returns_output (with_nPeople 1 (with_costPerHour 0 example_inputs)) [].
Proof.
  split; [|split; [|split]].
  - intros inputs c I. unfold raises_InvalidInput.
    rewrite calculateRoiScenarios_run, (integer_leb_zero_ltb_one _ I).
    destruct (inputs.(nPeople) <? 1) eqn:N.
    + split.
      * split; [intros _; now left | intros _; eexists; reflexivity].
      * intros H. exfalso. apply H. eexists. reflexivity.
    + destruct (inputs.(costPerHour) <? 0) eqn:C.
      * split.
        -- split; [intros _; now right | intros _; eexists; reflexivity].
        -- intros H. exfalso. apply H. eexists. reflexivity.
      * split.
        -- split.
           ++ intros [e H]. discriminate H.
           ++ intros [H|H]; discriminate H.
        -- intros _. reflexivity.
  - exists (Error "Number of people must be greater than 0"). reflexivity.
  - exists (Error "Cost per hour cannot be negative"). reflexivity.
  - exists (output_value (with_nPeople 1 (with_costPerHour 0 example_inputs))),
      (success_lines (with_nPeople 1 (with_costPerHour 0 example_inputs))).
    reflexivity.
Qed.

Lemma calculateRoiScenarios_InvalidInput_witness :
  Number_isInteger (with_nPeople 0 example_inputs).(nPeople) = true /\
  raises_InvalidInput (with_nPeople 0 example_inputs) [LogCompleted].
Proof.
  split; [reflexivity|].
  apply (proj1 calculateRoiScenarios_InvalidInput (with_nPeople 0 example_inputs) [LogCompleted]).
  - reflexivity.
  - left. reflexivity.
Defined.

(** The integrality of [nPeople] matters: on the fractional head count 0.5,
    which the schema rejects, the guard [nPeople <= 0] lets the call through. *)
Lemma fractional_nPeople_passes :
  Number_isInteger 0.5 = false /\ (0.5 <? 1) = true /\
  returns_output (with_nPeople 0.5 example_inputs) [].
Proof.
  split; [reflexivity|]. split; [reflexivity|].
  exists (output_value (with_nPeople 0.5 example_inputs)),
    (success_lines (with_nPeople 0.5 example_inputs)).
  reflexivity.
Qed.

(** C3, as the specification states it: the payback is the sentinel exactly
    when the total benefit is zero, and a finite positive number otherwise. *)
Definition paybackMonths_claim (inputs : RoiInputsType) : Prop :=
  forall (c : console) (s : RoiScenarioType),
    result_of (calculateScenario inputs) c = Returned s ->
    (s.(paybackMonths) = Infinity <-> (Scenario.totalBenefit inputs =? 0) = true) /\
    ((Scenario.totalBenefit inputs =? 0) = false ->
     Number_isFinite s.(paybackMonths) = true /\ (0 <? s.(paybackMonths)) = true).

(** C3 fails: with no costs and a benefit of 80000 the payback is [0], finite
    but not positive. *)
Lemma paybackMonths_claim_fails :
  ~ paybackMonths_claim (with_costs 0 0 example_inputs).
Proof.
  intros H.
  destruct (H [] (scenario_value (with_costs 0 0 example_inputs)) eq_refl) as [_ P].
  destruct (P eq_refl) as [_ Q]. discriminate Q.
Qed.

(** Three further records the schema accepts.  On the first the benefit is
    not zero and yet the payback is the sentinel, the quotient having
    overflowed; on the second benefit and costs are both infinite and the
    payback is [NaN]; on the third the benefit is not zero but its twelfth
    underflows to zero, and the payback is the sentinel.  Neither "exactly
    when" nor "never NaN" survives overflow and underflow. *)
Lemma paybackMonths_overflow :
  RoiInputs_parse_ok payback_overflow_inputs = true /\
  (Scenario.totalBenefit payback_overflow_inputs =? 0) = false /\
  (scenario_value payback_overflow_inputs).(paybackMonths) = Infinity.
Proof. repeat split. Qed.

Lemma paybackMonths_nan :
  RoiInputs_parse_ok payback_nan_inputs = true /\
  (scenario_value payback_nan_inputs).(paybackMonths) = NaN.
Proof. repeat split. Qed.

Lemma paybackMonths_underflow :
  RoiInputs_parse_ok payback_underflow_inputs = true /\
  (Scenario.totalBenefit payback_underflow_inputs =? 0) = false /\
  (Scenario.monthlyBenefit payback_underflow_inputs =? 0) = true /\
  (scenario_value payback_underflow_inputs).(paybackMonths) = Infinity.
Proof. repeat split. Qed.

(** C3, amended.  [paybackMonths] is the [Infinity] sentinel exactly when
    [monthlyBenefit > 0] does not hold or the quotient
    [totalCosts / monthlyBenefit], multiplied by ten for the rounding,
    overflows to [Infinity]; it is the sentinel in particular when the total
    benefit is zero, and on a non-negative total benefit [monthlyBenefit > 0]
    fails exactly when the benefit is at most six units of [2^-1074] (zero,
    or so small that its twelfth underflows).  In every other case in which
    that product is finite, [paybackMonths] is a finite number, positive
    exactly when the product is at least one half, that is, when the quotient
    rounds to 0.1 or more; so it is [0], not positive, when the costs are
    zero.  It is [NaN] exactly when [monthlyBenefit > 0] and the quotient is
    [NaN].  With non-negative cost fields it is non-negative whenever it is a
    number, the quotient is [NaN] exactly when costs and monthly benefit are
    both [Infinity], and the product is finite whenever the monthly benefit
    is at least 1 and the costs are at most [1e307]. *)
Theorem paybackMonths_sentinel (inputs : RoiInputsType) (c : console) :
  let monthlyBenefit := Scenario.monthlyBenefit inputs in
  let quotient := Scenario.totalCosts inputs / monthlyBenefit in
  exists s, result_of (calculateScenario inputs) c = Returned s /\
    (s.(paybackMonths) = Infinity <->
     (0 <? monthlyBenefit) = false \/ quotient * 10 = Infinity) /\
    ((Scenario.totalBenefit inputs =? 0) = true -> s.(paybackMonths) = Infinity) /\
    ((0 <=? Scenario.totalBenefit inputs) = true ->
     ((0 <? monthlyBenefit) = false
      <-> (Scenario.totalBenefit inputs <=? monthly_underflow) = true)) /\
    ((0 <? monthlyBenefit) = true -> Number_isFinite (quotient * 10) = true ->
     Number_isFinite s.(paybackMonths) = true /\
     ((0 <? s.(paybackMonths)) = true <-> (0.5 <=? quotient * 10) = true)) /\
    (Number_isNaN s.(paybackMonths) = true <->
     (0 <? monthlyBenefit) = true /\ Number_isNaN quotient = true) /\
    ((0 <=? inputs.(licenseCostAnnual)) = true ->
     (0 <=? inputs.(implementationOneTime)) = true ->
     (Number_isNaN s.(paybackMonths) = false -> (0 <=? s.(paybackMonths)) = true) /\
     ((0 <? monthlyBenefit) = true ->
      (Number_isNaN quotient = true <->
       Scenario.totalCosts inputs = Infinity /\ monthlyBenefit = Infinity)) /\
     ((1 <=? monthlyBenefit) = true -> (Scenario.totalCosts inputs <=? 1e307) = true ->
      Number_isFinite (quotient * 10) = true)).
Proof.
  intros monthlyBenefit quotient.
  exists (scenario_value inputs). split; [reflexivity|].
  assert (S : (0 <? monthlyBenefit) = false ->
              (scenario_value inputs).(paybackMonths) = Infinity).
  { intros H. unfold scenario_value, paybackMonths, Scenario.paybackMonths.
    fold monthlyBenefit. rewrite H. reflexivity. }
  assert (T : (0 <? monthlyBenefit) = true ->
              (scenario_value inputs).(paybackMonths) = Math_round (quotient * 10) / 10).
  { intros H. unfold scenario_value, paybackMonths, Scenario.paybackMonths.
    fold monthlyBenefit. rewrite H. reflexivity. }
  unfold Number_isNaN, Number_isFinite.
  split; [|split; [|split; [|split; [|split]]]].
  - destruct (0 <? monthlyBenefit) eqn:G.
    + rewrite (T eq_refl), round_one_decimal_Infinity. split; [auto|].
      intros [H|H]; [discriminate H | exact H].
    + split; [auto | intros _; apply S; reflexivity].
  - intros Z. apply S. unfold monthlyBenefit, Scenario.monthlyBenefit.
    destruct (eqb_zero_cases _ Z) as [E|E]; rewrite E; reflexivity.
  - apply monthlyBenefit_guard.
  - intros G F. rewrite (T G). split.
    + apply round_one_decimal_is_finite, F.
    + apply round_one_decimal_pos_iff, finite_not_nan, F.
  - destruct (0 <? monthlyBenefit) eqn:G.
    + rewrite (T eq_refl), round_one_decimal_nan. split; [auto | intros [_ H]; exact H].
    + rewrite (S eq_refl). split; [discriminate | intros [H _]; discriminate H].
  - intros L I.
    assert (N : (0 <=? Scenario.totalCosts inputs) = true) by (apply add_nonneg; assumption).
    split; [|split].
    + destruct (0 <? monthlyBenefit) eqn:G.
      * rewrite (T eq_refl), round_one_decimal_nan. intros K.
        apply round_one_decimal_nonneg, div_nonneg; try assumption.
        apply div_not_nan_finite; assumption.
      * rewrite (S eq_refl). reflexivity.
    + intros G. apply div_nan_iff; assumption.
    + intros G U. apply quotient_no_overflow; assumption.
Qed.

Lemma paybackMonths_sentinel_witness :
  (0 <? Scenario.monthlyBenefit example_inputs) = true /\
  Number_isFinite
    (Scenario.totalCosts example_inputs / Scenario.monthlyBenefit example_inputs * 10) = true /\
  exists s, result_of (calculateScenario example_inputs) [] = Returned s /\
            s.(paybackMonths) <> Infinity /\
            Number_isFinite s.(paybackMonths) = true /\ (0 <? s.(paybackMonths)) = true.
Proof.
  split; [reflexivity|]. split; [reflexivity|].
  destruct (paybackMonths_sentinel example_inputs []) as (s & R & A & _ & _ & B & _).
  exists s. split; [exact R|]. split.
  - intros E. apply A in E. destruct E as [E|E]; discriminate E.
  - destruct (B eq_refl eq_refl) as [F P]. split; [exact F|]. apply P. reflexivity.
Defined.

(** C4. [scaleInputs] changes the benefit-driving fields only: the hours are
    multiplied by the factor, each reduction percentage is multiplied by the
    factor and capped at 1, and every other field is the one of the input;
    0.9 scaled by 1.25 is capped to 1, not 1.125. *)
Theorem scaleInputs_frame :
  (forall (inputs : RoiInputsType) (factor : number),
      let s := scaleInputs inputs factor in
      s.(hoursSavedPerPersonPerMonth) = inputs.(hoursSavedPerPersonPerMonth) * factor /\
      capped_at_1 (inputs.(errorReductionPct) * factor) s.(errorReductionPct) /\
      capped_at_1 (inputs.(cloudReductionPct) * factor) s.(cloudReductionPct) /\
      capped_at_1 (inputs.(riskReductionPct) * factor) s.(riskReductionPct) /\
      s.(licenseCostAnnual) = inputs.(licenseCostAnnual) /\
      s.(implementationOneTime) = inputs.(implementationOneTime) /\
      s.(nPeople) = inputs.(nPeople) /\
      s.(costPerHour) = inputs.(costPerHour) /\
      s.(errorCostAnnual) = inputs.(errorCostAnnual) /\
      s.(cloudSpendAnnual) = inputs.(cloudSpendAnnual) /\
      s.(riskCostAnnual) = inputs.(riskCostAnnual))
  /\ 0.9 * 1.25 = 1.125
  /\ (scaleInputs (with_errorReductionPct 0.9 example_inputs) 1.25).(errorReductionPct) = 1.
Proof.
  split; [|split; reflexivity].
  intros inputs factor s. unfold s, scaleInputs. cbn [hoursSavedPerPersonPerMonth
    errorReductionPct cloudReductionPct riskReductionPct licenseCostAnnual
    implementationOneTime nPeople costPerHour errorCostAnnual cloudSpendAnnual riskCostAnnual].
  repeat split; try reflexivity; apply Math_min_1_capped.
Qed.

(** C5, as the specification states it, on a record the schema accepts. *)
Definition scenarios_ordered_claim (inputs : RoiInputsType) : Prop :=
  forall (c c' : console) (out : RoiOutputType),
    calculateRoiScenarios inputs c = (Returned out, c') ->
    (out.(low).(totalBenefit) <=? out.(mostLikely).(totalBenefit)) = true /\
    (out.(mostLikely).(totalBenefit) <=? out.(high).(totalBenefit)) = true.

(** C5 fails: with one person, 1e308 hours and a cost per hour of 0 the labour
    product overflows, every total benefit is [NaN], and no two are ordered. *)
Lemma scenarios_ordered_claim_fails :
  RoiInputs_parse_ok overflow_inputs = true /\
  ~ scenarios_ordered_claim overflow_inputs.
Proof.
  split; [reflexivity|].
  intros H.
  destruct (H [] _ (output_value overflow_inputs) eq_refl) as [L _].
  discriminate L.
Qed.

(** C5, amended.  On a record the schema accepts, whenever the three total
    benefits are numbers (not [NaN]) they are ordered, low <= mostLikely <=
    high.  They are numbers, in particular, whenever the cost per hour is
    positive and finite and the three annual amounts are finite.  The cap at 1
    never inverts the order; 0.9 scaled by 1.25 is capped to 1. *)
Theorem scenarios_ordered :
  (forall (inputs : RoiInputsType) (c c' : console) (out : RoiOutputType),
      RoiInputs_parse_ok inputs = true ->
      calculateRoiScenarios inputs c = (Returned out, c') ->
      Number_isNaN out.(low).(totalBenefit) = false ->
      Number_isNaN out.(mostLikely).(totalBenefit) = false ->
      Number_isNaN out.(high).(totalBenefit) = false ->
      (out.(low).(totalBenefit) <=? out.(mostLikely).(totalBenefit)) = true /\
      (out.(mostLikely).(totalBenefit) <=? out.(high).(totalBenefit)) = true)
  /\ (forall (inputs : RoiInputsType) (c c' : console) (out : RoiOutputType),
      RoiInputs_parse_ok inputs = true ->
      calculateRoiScenarios inputs c = (Returned out, c') ->
      (0 <? inputs.(costPerHour)) = true ->
      Number_isFinite inputs.(costPerHour) = true ->
      Number_isFinite inputs.(errorCostAnnual) = true ->
      Number_isFinite inputs.(cloudSpendAnnual) = true ->
      Number_isFinite inputs.(riskCostAnnual) = true ->
      (out.(low).(totalBenefit) <=? out.(mostLikely).(totalBenefit)) = true /\
      (out.(mostLikely).(totalBenefit) <=? out.(high).(totalBenefit)) = true)
  /\ Math_min 1 (0.9 * 1.25) = 1.
Proof.
  split; [|split; [|reflexivity]].
  - intros inputs c c' out V R.
    destruct (parse_ok_run inputs c V) as (_ & _ & R').
    rewrite R' in R. injection R as <- _.
    apply output_ordered. exact V.
  - intros inputs c c' out V R Pc Fc Fec Fcs Frc.
    destruct (parse_ok_run inputs c V) as (_ & _ & R').
    rewrite R' in R. injection R as <- _.
    pose proof (scaled_totalBenefit_not_nan inputs 0.75 _ _ V eq_refl Pc Fc Fec Fcs Frc) as Kl.
    pose proof (scaled_totalBenefit_not_nan inputs 1.25 _ _ V eq_refl Pc Fc Fec Fcs Frc) as Kh.
    assert (Km : is_nan (Scenario.totalBenefit inputs) = false).
    { destruct (band_low _ V) as [Nlow Llow].
      destruct (band_high _ V) as [N Lhigh].
      destruct (parse_ok_fields _ V) as (_ & EP1 & CP1 & RP1).
      pose proof N as (Nn & _ & Nh & Nec & Nep & Ncs & Ncp & Nrc & Nrp).
      assert (In : Number_isInteger inputs.(nPeople) = true /\ (1 <=? inputs.(nPeople)) = true).
      { revert V. unfold RoiInputs_parse_ok. rewrite !andb_true_iff. tauto. }
      destruct In as [In Ln].
      apply totalBenefit_not_nan; try assumption;
        try (apply leb_1_finite; assumption).
      - apply one_leb_pos, Ln.
      - apply integer_finite, In. }
    destruct (band_low _ V) as [Nlow Llow]. destruct (band_high _ V) as [N Lhigh].
    destruct (totalBenefit_mono _ _ Nlow Llow Kl Km) as [P1 Q1].
    destruct (totalBenefit_mono _ _ N Lhigh Km Kh) as [P2 Q2].
    unfold output_value, scenario_value. cbn [low mostLikely high totalBenefit].
    split; apply Math_round_mono; assumption.
Qed.

Lemma scenarios_ordered_witness :
  RoiInputs_parse_ok example_inputs = true /\
  ((output_value example_inputs).(low).(totalBenefit)
   <=? (output_value example_inputs).(mostLikely).(totalBenefit)) = true /\
  ((output_value example_inputs).(mostLikely).(totalBenefit)
   <=? (output_value example_inputs).(high).(totalBenefit)) = true.
Proof.
  split; [reflexivity|].
  apply (proj1 scenarios_ordered example_inputs [] (success_lines example_inputs)
           (output_value example_inputs));
    reflexivity.
Defined.

(** C6. When the costs add up to zero, [roiPct] of the returned scenario is
    exactly [0] (a finite number, neither [NaN] nor an infinity), whatever the
    benefit. *)
Theorem roiPct_zero_costs (inputs : RoiInputsType) (c : console) :
  (inputs.(licenseCostAnnual) + inputs.(implementationOneTime) =? 0) = true ->
  exists s, result_of (calculateScenario inputs) c = Returned s /\
            s.(roiPct) = 0 /\ Number_isFinite s.(roiPct) = true.
Proof.
  intros H. exists (scenario_value inputs). split; [reflexivity|].
  assert (E : (scenario_value inputs).(roiPct) = 0).
  { unfold scenario_value, roiPct, Scenario.roiPct, Scenario.totalCosts.
    rewrite (eqb_not_ltb _ _ H). reflexivity. }
  rewrite E. split; reflexivity.
Qed.

Lemma roiPct_zero_costs_witness :
  exists s, result_of (calculateScenario (with_costs 0 0 example_inputs)) [] = Returned s /\
            s.(roiPct) = 0 /\ Number_isFinite s.(roiPct) = true.
Proof.
  apply (roiPct_zero_costs (with_costs 0 0 example_inputs) []). reflexivity.
Defined.

(** C7. [validateRoiInputs] returns exactly the warnings whose threshold is
    breached, each decided on its own, in the order of the checks; none on the
    worked example, and only the cost-per-hour warning once [costPerHour] is
    250. *)
Theorem validateRoiInputs_breached :
  (forall inputs : RoiInputsType,
      validateRoiInputs inputs = Spec.breached (Spec.reasonableness_checks inputs))
  /\ validateRoiInputs example_inputs = []
  /\ validateRoiInputs (with_costPerHour 250 example_inputs)
     = ["Cost per hour seems high (>$200)"%string].
Proof.
  split; [|split; reflexivity].
  intros inputs.
  unfold validateRoiInputs, Spec.breached, Spec.reasonableness_checks, Spec.totalBenefit,
    Spec.laborSavings, Spec.qualitySavings, Spec.cloudSavings, Spec.riskAvoidance, push.
  destruct (160 <? inputs.(hoursSavedPerPersonPerMonth));
    destruct (200 <? inputs.(costPerHour));
    destruct (0.9 <? inputs.(errorReductionPct));
    destruct (0.5 <? inputs.(cloudReductionPct));
    destruct (0.8 <? inputs.(riskReductionPct));
    match goal with |- context [?a <? licenseCostAnnual inputs] =>
      destruct (a <? licenseCostAnnual inputs) end;
    reflexivity.
Qed.

(** C8. The [mostLikely] scenario of an accepted call is what
    [calculateScenario] returns on the unscaled inputs, field for field. *)
Theorem mostLikely_is_calculateScenario
  (inputs : RoiInputsType) (c c' : console) (out : RoiOutputType) :
  calculateRoiScenarios inputs c = (Returned out, c') ->
  forall c0, result_of (calculateScenario inputs) c0 = Returned out.(mostLikely).
Proof.
  rewrite calculateRoiScenarios_run.
  destruct (inputs.(nPeople) <=? 0); [discriminate|].
  destruct (inputs.(costPerHour) <? 0); [discriminate|].
  intros H c0. injection H as <- _. reflexivity.
Qed.

Lemma mostLikely_is_calculateScenario_witness :
  result_of (calculateScenario example_inputs) [LogStarting]
  = Returned (output_value example_inputs).(mostLikely).
Proof.
  apply (mostLikely_is_calculateScenario example_inputs [] _ _ eq_refl).
Defined.

(** C9. A call's outcome does not depend on the console the earlier calls
    left, the only state the calls share: from any two consoles the same
    inputs give the same outcome and append the same lines; and in any
    sequence of calls, two calls on equal records have equal outcomes,
    whatever was called before or between them. *)
Theorem calculateRoiScenarios_stateless :
  (forall (inputs : RoiInputsType) (c1 c2 : console),
      result_of (calculateRoiScenarios inputs) c1 = result_of (calculateRoiScenarios inputs) c2
      /\ exists written,
           console_after (calculateRoiScenarios inputs) c1 = c1 ++ written /\
           console_after (calculateRoiScenarios inputs) c2 = c2 ++ written)
  /\ (forall (calls : list RoiInputsType) (c : console) (j k : nat) (d : RoiInputsType),
        nth j calls d = nth k calls d ->
        nth j (fst (invoke_all calls c)) (result_of (calculateRoiScenarios d) [])
        = nth k (fst (invoke_all calls c)) (result_of (calculateRoiScenarios d) [])).
Proof.
  split.
  - intros inputs c1 c2. split.
    + rewrite (result_of_any_console inputs c1), (result_of_any_console inputs c2). reflexivity.
    + unfold console_after. rewrite !calculateRoiScenarios_run.
      destruct (inputs.(nPeople) <=? 0); [eexists; split; reflexivity|].
      destruct (inputs.(costPerHour) <? 0); eexists; split; reflexivity.
  - intros calls c j k d E.
    rewrite invoke_all_outcomes.
    rewrite !(map_nth (fun inputs => result_of (calculateRoiScenarios inputs) [])).
    rewrite E. reflexivity.
Qed.

Lemma calculateRoiScenarios_stateless_witness :
  let calls := [example_inputs; with_nPeople 0 example_inputs; example_inputs] in
  nth 0 calls example_inputs = nth 2 calls example_inputs /\
  nth 0 (fst (invoke_all calls [])) (result_of (calculateRoiScenarios example_inputs) [])
  = nth 2 (fst (invoke_all calls [])) (result_of (calculateRoiScenarios example_inputs) []).
Proof.
  split; [reflexivity|].
  apply (proj2 calculateRoiScenarios_stateless
           [example_inputs; with_nPeople 0 example_inputs; example_inputs] [] 0%nat 2%nat
           example_inputs).
  reflexivity.
Defined.

(** C10. A record the [RoiInputs] schema accepts never makes
    [calculateRoiScenarios] throw: both guards are unreachable and the full
    output is returned. *)
Theorem calculateRoiScenarios_total_on_schema
  (inputs : RoiInputsType) (c : console) :
  RoiInputs_parse_ok inputs = true ->
  (inputs.(nPeople) <=? 0) = false /\
  (inputs.(costPerHour) <? 0) = false /\
  exists out, calculateRoiScenarios inputs c = (Returned out, c ++ success_lines inputs).
Proof.
  intros V. destruct (parse_ok_run inputs c V) as (N & C & R).
  split; [exact N|]. split; [exact C|]. exists (output_value inputs). exact R.
Qed.

Lemma calculateRoiScenarios_total_on_schema_witness :
  (example_inputs.(nPeople) <=? 0) = false /\
  (example_inputs.(costPerHour) <? 0) = false /\
  exists out, calculateRoiScenarios example_inputs []
              = (Returned out, [] ++ success_lines example_inputs).
Proof.
  apply (calculateRoiScenarios_total_on_schema example_inputs []). reflexivity.
Defined.

(** * Further properties of the ROI engine *)

(** X1. Scaling by the factor 1 leaves a record the schema accepts as it is:
    the hours are multiplied exactly and no ratio is capped.  So the
    most-likely scenario is the scenario of the band at factor 1. *)
Theorem scaleInputs_one (inputs : RoiInputsType) :
  RoiInputs_parse_ok inputs = true ->
  scaleInputs inputs 1 = inputs /\
  forall c : console,
    result_of (calculateScenario (scaleInputs inputs 1)) c
    = result_of (calculateScenario inputs) c.
Proof.
  intros V.
  assert (E : scaleInputs inputs 1 = inputs).
  { destruct (parse_ok_fields _ V) as (N & EP1 & CP1 & RP1).
    destruct N as (Nn & Nc & Nh & Nec & Nep & Ncs & Ncp & Nrc & Nrp).
    destruct inputs as [n cph h ec ep cs cp rc rp lic impl]. unfold scaleInputs.
    cbn [nPeople costPerHour hoursSavedPerPersonPerMonth errorCostAnnual errorReductionPct
         cloudSpendAnnual cloudReductionPct riskCostAnnual riskReductionPct
         licenseCostAnnual implementationOneTime] in *.
    rewrite !mul_1_r by assumption.
    rewrite !Math_min_1_below by assumption. reflexivity. }
  split; [exact E|]. intros c. rewrite E. reflexivity.
Qed.

Lemma scaleInputs_one_witness :
  scaleInputs example_inputs 1 = example_inputs.
Proof.
  apply (scaleInputs_one example_inputs). reflexivity.
Defined.

(** X2. A record the schema accepts, scaled by a positive finite factor, is
    again a record the schema accepts: the scaled hours are a non-negative
    number and the scaled ratios stay in [[0, 1]].  Both factors of the band
    are such factors, so [calculateScenario] only ever sees valid records. *)
Theorem scaleInputs_keeps_schema (inputs : RoiInputsType) (factor : number) :
  RoiInputs_parse_ok inputs = true ->
  (0 <? factor) = true -> Number_isFinite factor = true ->
  RoiInputs_parse_ok (scaleInputs inputs factor) = true.
Proof.
  intros V P F. destruct (pos_finite_cases _ P F) as (mf & ef & Ef).
  destruct (parse_ok_fields _ V) as (N & EP1 & CP1 & RP1).
  pose proof N as (Nn & Nc & Nh & Nec & Nep & Ncs & Ncp & Nrc & Nrp).
  pose proof (ltb_zero_leb _ P) as Nf.
  assert (S : forall p, (0 <=? p) = true ->
              (0 <=? Math_min 1 (p * factor)) = true /\
              (Math_min 1 (p * factor) <=? 1) = true).
  { intros p Np.
    pose proof (mul_finite_not_nan p factor mf ef Np Ef) as K.
    assert (Nq : (0 <=? p * factor) = true) by (apply mul_nonneg; assumption).
    split; [|apply Math_min_1_leb, K].
    destruct (fleb_total (p * factor) 1 K eq_refl) as [H|H].
    - rewrite Math_min_1_below by exact H. exact Nq.
    - rewrite Math_min_1_above by exact H. reflexivity. }
  destruct (S _ Nep) as [A1 A2]. destruct (S _ Ncp) as [B1 B2]. destruct (S _ Nrp) as [C1 C2].
  assert (H : (0 <=? inputs.(hoursSavedPerPersonPerMonth) * factor) = true).
  { apply mul_nonneg; try assumption. apply (mul_finite_not_nan _ factor mf ef Nh Ef). }
  revert V. unfold RoiInputs_parse_ok, scaleInputs.
  cbn [nPeople costPerHour hoursSavedPerPersonPerMonth errorCostAnnual errorReductionPct
       cloudSpendAnnual cloudReductionPct riskCostAnnual riskReductionPct
       licenseCostAnnual implementationOneTime].
  rewrite !andb_true_iff. tauto.
Qed.

Lemma scaleInputs_keeps_schema_witness :
  RoiInputs_parse_ok (scaleInputs example_inputs 0.75) = true /\
  RoiInputs_parse_ok (scaleInputs example_inputs 1.25) = true.
Proof.
  split.
  - apply (scaleInputs_keeps_schema example_inputs 0.75); reflexivity.
  - apply (scaleInputs_keeps_schema example_inputs 1.25); reflexivity.
Defined.

(** X3. The two amounts of a scenario carry no fraction: [totalBenefit] and
    [year1Net] are integers whenever they are finite. *)
Theorem amounts_are_whole (inputs : RoiInputsType) (c : console) :
  exists s, result_of (calculateScenario inputs) c = Returned s /\
    (Number_isFinite s.(totalBenefit) = true -> Number_isInteger s.(totalBenefit) = true) /\
    (Number_isFinite s.(year1Net) = true -> Number_isInteger s.(year1Net) = true).
Proof.
  exists (scenario_value inputs). split; [reflexivity|].
  unfold scenario_value. cbn [totalBenefit year1Net].
  split; apply Math_round_integer.
Qed.

Lemma amounts_are_whole_witness :
  exists s, result_of (calculateScenario example_inputs) [] = Returned s /\
    Number_isInteger s.(totalBenefit) = true /\ Number_isInteger s.(year1Net) = true.
Proof.
  destruct (amounts_are_whole example_inputs []) as (s & R & A & B).
  exists s. injection R as <-. split; [reflexivity|].
  split; [apply A | apply B]; reflexivity.
Defined.

(** X4. On a record the schema accepts, the first-year net never exceeds the
    total benefit, whenever the net is a number. *)
Theorem year1Net_le_totalBenefit (inputs : RoiInputsType) (c : console) :
  RoiInputs_parse_ok inputs = true ->
  exists s, result_of (calculateScenario inputs) c = Returned s /\
    (Number_isNaN s.(year1Net) = false ->
     (s.(year1Net) <=? s.(totalBenefit)) = true).
Proof.
  intros V. exists (scenario_value inputs). split; [reflexivity|].
  unfold scenario_value, Number_isNaN. cbn [totalBenefit year1Net].
  unfold Scenario.year1Net. intros K. apply Math_round_not_nan in K.
  destruct (sub_not_nan _ _ K) as [Kb _].
  pose proof (totalBenefit_nonneg _ V Kb) as Nb.
  apply Math_round_leb; [exact Nb|].
  apply sub_leb_l; [exact Nb | apply totalCosts_nonneg, V | exact K].
Qed.

Lemma year1Net_le_totalBenefit_witness :
  exists s, result_of (calculateScenario example_inputs) [] = Returned s /\
            (s.(year1Net) <=? s.(totalBenefit)) = true.
Proof.
  destruct (year1Net_le_totalBenefit example_inputs [] eq_refl) as (s & R & H).
  exists s. injection R as <-. split; [reflexivity|]. apply H. reflexivity.
Defined.

(** X5. On a record the schema accepts whose costs are finite, the signs of
    the net and of the ROI follow the comparison of benefit and costs before
    rounding: when the benefit covers the costs neither is negative, and when
    it does not exceed them neither is positive. *)
Theorem roi_sign (inputs : RoiInputsType) (c : console) :
  RoiInputs_parse_ok inputs = true ->
  Number_isFinite (Scenario.totalCosts inputs) = true ->
  exists s, result_of (calculateScenario inputs) c = Returned s /\
    ((Scenario.totalCosts inputs <=? Scenario.totalBenefit inputs) = true ->
     (0 <=? s.(year1Net)) = true /\ (0 <=? s.(roiPct)) = true) /\
    ((Scenario.totalBenefit inputs <=? Scenario.totalCosts inputs) = true ->
     (s.(year1Net) <=? 0) = true /\ (s.(roiPct) <=? 0) = true).
Proof.
  intros V Fc. exists (scenario_value inputs). split; [reflexivity|]. split.
  - intros L. apply scenario_nonneg; [apply totalCosts_nonneg, V | exact Fc | exact L].
  - intros L. apply scenario_nonpos; [|exact Fc | exact L].
    apply totalBenefit_nonneg; [exact V | exact (leb_is_nan_l _ _ L)].
Qed.

Lemma roi_sign_witness :
  (exists s, result_of (calculateScenario example_inputs) [] = Returned s /\
             (0 <=? s.(year1Net)) = true /\ (0 <=? s.(roiPct)) = true) /\
  (exists s, result_of (calculateScenario (with_costs 90000 10000 example_inputs)) []
             = Returned s /\
             (s.(year1Net) <=? 0) = true /\ (s.(roiPct) <=? 0) = true).
Proof.
  split.
  - destruct (roi_sign example_inputs [] eq_refl eq_refl) as (s & R & H & _).
    exists s. split; [exact R|]. apply H. reflexivity.
  - destruct (roi_sign (with_costs 90000 10000 example_inputs) [] eq_refl eq_refl)
      as (s & R & _ & H).
    exists s. split; [exact R|]. apply H. reflexivity.
Defined.

(** X6. The warning "Total benefits may not justify license costs" is
    consistent with the scenario: on a record the schema accepts whose costs
    are finite, whenever [validateRoiInputs] gives this warning the scenario
    [calculateScenario] computes has a net and an ROI that are not positive. *)
Theorem license_warning_nonpositive_roi (inputs : RoiInputsType) (c : console) :
  RoiInputs_parse_ok inputs = true ->
  Number_isFinite (Scenario.totalCosts inputs) = true ->
  In "Total benefits may not justify license costs"%string (validateRoiInputs inputs) ->
  exists s, result_of (calculateScenario inputs) c = Returned s /\
    (s.(year1Net) <=? 0) = true /\ (s.(roiPct) <=? 0) = true.
Proof.
  intros V Fc W. apply license_warning_iff in W.
  exists (scenario_value inputs). split; [reflexivity|].
  destruct (parse_ok_costs _ V) as [Nl Ni].
  pose proof (ltb_leb _ _ W) as L.
  pose proof (totalBenefit_nonneg _ V (leb_is_nan_l _ _ L)) as Nb.
  apply scenario_nonpos; [exact Nb | exact Fc |].
  apply (fleb_trans _ inputs.(licenseCostAnnual)); [exact Nb | exact L |].
  apply leb_add_r; assumption.
Qed.

Lemma license_warning_nonpositive_roi_witness :
  In "Total benefits may not justify license costs"%string
     (validateRoiInputs (with_costs 90000 10000 example_inputs)) /\
  exists s, result_of (calculateScenario (with_costs 90000 10000 example_inputs)) []
            = Returned s /\
            (s.(year1Net) <=? 0) = true /\ (s.(roiPct) <=? 0) = true.
Proof.
  assert (W : In "Total benefits may not justify license costs"%string
                 (validateRoiInputs (with_costs 90000 10000 example_inputs)))
    by (left; reflexivity).
  split; [exact W|].
  apply (license_warning_nonpositive_roi (with_costs 90000 10000 example_inputs) []
           eq_refl eq_refl W).
Defined.

(** * Further properties: the band of the first-year net *)

(** X7. On a record the schema accepts, the three scenarios are ordered by
    their first-year net as well, low <= mostLikely <= high, whenever the
    three nets are numbers: the costs are the same in the three scenarios and
    neither the subtraction nor the rounding inverts the order of the
    benefits. *)
Theorem year1Net_ordered
  (inputs : RoiInputsType) (c c' : console) (out : RoiOutputType) :
  RoiInputs_parse_ok inputs = true ->
  calculateRoiScenarios inputs c = (Returned out, c') ->
  Number_isNaN out.(low).(year1Net) = false ->
  Number_isNaN out.(mostLikely).(year1Net) = false ->
  Number_isNaN out.(high).(year1Net) = false ->
  (out.(low).(year1Net) <=? out.(mostLikely).(year1Net)) = true /\
  (out.(mostLikely).(year1Net) <=? out.(high).(year1Net)) = true.
Proof.
  intros V R.
  destruct (parse_ok_run inputs c V) as (_ & _ & R').
  rewrite R' in R. injection R as <- _.
  unfold output_value, scenario_value, Number_isNaN. cbn [low mostLikely high year1Net].
  unfold Scenario.year1Net. rewrite !totalCosts_scaleInputs.
  intros Kl Km Kh. apply Math_round_not_nan in Kl, Km, Kh.
  destruct (sub_not_nan _ _ Kl) as [Bl _].
  destruct (sub_not_nan _ _ Km) as [Bm _].
  destruct (sub_not_nan _ _ Kh) as [Bh _].
  destruct (band_low _ V) as [Nlow Llow]. destruct (band_high _ V) as [N Lhigh].
  destruct (totalBenefit_mono _ _ Nlow Llow Bl Bm) as [P1 Q1].
  destruct (totalBenefit_mono _ _ N Lhigh Bm Bh) as [P2 Q2].
  pose proof (totalCosts_nonneg _ V) as Nc.
  split; apply Math_round_monotone, sub_mono_l; assumption.
Qed.

Lemma year1Net_ordered_witness :
  ((output_value example_inputs).(low).(year1Net)
   <=? (output_value example_inputs).(mostLikely).(year1Net)) = true /\
  ((output_value example_inputs).(mostLikely).(year1Net)
   <=? (output_value example_inputs).(high).(year1Net)) = true.
Proof.
  apply (year1Net_ordered example_inputs [] (success_lines example_inputs)
           (output_value example_inputs));
    reflexivity.
Defined.

(** * Further properties: the band of the two ratios *)

(** X8. On a record the schema accepts, the three scenarios are ordered by
    their ROI percentage, low <= mostLikely <= high, whenever the three
    percentages are numbers: the costs are the same in the three scenarios,
    and neither the subtraction, the division by the costs, the two
    multiplications, the rounding nor the division by 10 inverts the order of
    the benefits. *)
Theorem roiPct_ordered
  (inputs : RoiInputsType) (c c' : console) (out : RoiOutputType) :
  RoiInputs_parse_ok inputs = true ->
  calculateRoiScenarios inputs c = (Returned out, c') ->
  Number_isNaN out.(low).(roiPct) = false ->
  Number_isNaN out.(mostLikely).(roiPct) = false ->
  Number_isNaN out.(high).(roiPct) = false ->
  (out.(low).(roiPct) <=? out.(mostLikely).(roiPct)) = true /\
  (out.(mostLikely).(roiPct) <=? out.(high).(roiPct)) = true.
Proof.
  intros V R.
  destruct (parse_ok_run inputs c V) as (_ & _ & R').
  rewrite R' in R. injection R as <- _.
  unfold output_value, scenario_value, Number_isNaN. cbn [low mostLikely high roiPct].
  intros Kl Km Kh.
  destruct (band_low _ V) as [Nlow Llow]. destruct (band_high _ V) as [N Lhigh].
  pose proof (totalCosts_nonneg _ V) as Nc.
  split; apply roiPct_mono; try assumption; reflexivity.
Qed.

Lemma roiPct_ordered_witness :
  ((output_value example_inputs).(low).(roiPct)
   <=? (output_value example_inputs).(mostLikely).(roiPct)) = true /\
  ((output_value example_inputs).(mostLikely).(roiPct)
   <=? (output_value example_inputs).(high).(roiPct)) = true.
Proof.
  apply (roiPct_ordered example_inputs [] (success_lines example_inputs)
           (output_value example_inputs));
    reflexivity.
Defined.

(** X9. On a record the schema accepts, the three scenarios are ordered by
    their payback period the other way round, high <= mostLikely <= low,
    whenever the three total benefits and the three payback periods are
    numbers: a larger benefit never pays back later, and a scenario whose
    payback is the [Infinity] sentinel is not followed by a finite one. *)
Theorem paybackMonths_ordered
  (inputs : RoiInputsType) (c c' : console) (out : RoiOutputType) :
  RoiInputs_parse_ok inputs = true ->
  calculateRoiScenarios inputs c = (Returned out, c') ->
  Number_isNaN out.(low).(totalBenefit) = false ->
  Number_isNaN out.(mostLikely).(totalBenefit) = false ->
  Number_isNaN out.(high).(totalBenefit) = false ->
  Number_isNaN out.(low).(paybackMonths) = false ->
  Number_isNaN out.(mostLikely).(paybackMonths) = false ->
  Number_isNaN out.(high).(paybackMonths) = false ->
  (out.(high).(paybackMonths) <=? out.(mostLikely).(paybackMonths)) = true /\
  (out.(mostLikely).(paybackMonths) <=? out.(low).(paybackMonths)) = true.
Proof.
  intros V R.
  destruct (parse_ok_run inputs c V) as (_ & _ & R').
  rewrite R' in R. injection R as <- _.
  unfold output_value, scenario_value, Number_isNaN.
  cbn [low mostLikely high totalBenefit paybackMonths].
  intros Tl Tm Th Kl Km Kh.
  apply Math_round_not_nan in Tl, Tm, Th.
  destruct (band_low _ V) as [Nlow Llow]. destruct (band_high _ V) as [N Lhigh].
  pose proof (totalCosts_nonneg _ V) as Nc.
  split; apply paybackMonths_anti; try assumption; reflexivity.
Qed.

Lemma paybackMonths_ordered_witness :
  ((output_value example_inputs).(high).(paybackMonths)
   <=? (output_value example_inputs).(mostLikely).(paybackMonths)) = true /\
  ((output_value example_inputs).(mostLikely).(paybackMonths)
   <=? (output_value example_inputs).(low).(paybackMonths)) = true.
Proof.
  apply (paybackMonths_ordered example_inputs [] (success_lines example_inputs)
           (output_value example_inputs));
    reflexivity.
Defined.

(** * Further properties: display and error reporting *)

(** X10. [formatRoiScenario] shows the payback as "Never" exactly when it is
    the [Infinity] sentinel, whatever the rendering of numbers; so every
    scenario [calculateScenario] computes from a monthly benefit that is not
    positive is shown as "Never".  The four numbers are passed on as they
    are. *)
Theorem formatRoiScenario_Never
  (format toString : number -> string) :
  (forall scenario : RoiScenarioType,
      let f := formatRoiScenario format toString scenario in
      (f.(Formatted.paybackMonthsFormatted) = "Never"%string
       <-> scenario.(paybackMonths) = Infinity) /\
      f.(Formatted.totalBenefit) = scenario.(totalBenefit) /\
      f.(Formatted.year1Net) = scenario.(year1Net) /\
      f.(Formatted.roiPct) = scenario.(roiPct) /\
      f.(Formatted.paybackMonths) = scenario.(paybackMonths))
  /\ (forall (inputs : RoiInputsType) (c : console) (scenario : RoiScenarioType),
        result_of (calculateScenario inputs) c = Returned scenario ->
        (0 <? Scenario.monthlyBenefit inputs) = false ->
        (formatRoiScenario format toString scenario).(Formatted.paybackMonthsFormatted)
        = "Never"%string).
Proof.
  assert (A : forall scenario : RoiScenarioType,
             (formatRoiScenario format toString scenario).(Formatted.paybackMonthsFormatted)
             = "Never"%string <-> scenario.(paybackMonths) = Infinity).
  { intros scenario. unfold formatRoiScenario. cbn [Formatted.paybackMonthsFormatted].
    destruct (scenario.(paybackMonths) =? Infinity) eqn:E.
    - apply eqb_Infinity in E. tauto.
    - split.
      + intros H. exfalso. exact (months_not_Never _ H).
      + intros H. apply eqb_Infinity in H. congruence. }
  split.
  - intros scenario f. split; [apply A|]. repeat split.
  - intros inputs c scenario R P. apply A.
    change (Returned (scenario_value inputs) = Returned scenario) in R.
    injection R as <-.
    unfold scenario_value, paybackMonths, Scenario.paybackMonths. rewrite P. reflexivity.
Qed.

Lemma formatRoiScenario_Never_witness :
  (formatRoiScenario (fun _ => EmptyString) (fun _ => EmptyString)
     (scenario_value no_benefit_inputs)).(Formatted.paybackMonthsFormatted)
  = "Never"%string.
Proof.
  apply (proj2 (formatRoiScenario_Never (fun _ => EmptyString) (fun _ => EmptyString))
           no_benefit_inputs []);
    reflexivity.
Defined.

(** X11. What [handleApiError] answers to an [Error].  In production the
    answer is 500 "Internal Server Error" without a detail: the message is
    not sent.  Elsewhere the status is 401 exactly when the message contains
    "Unauthorized", 403 exactly when it contains "Forbidden" and not
    "Unauthorized", and 500 otherwise; the detail is the message when the
    message is not empty, and there is no detail when it is empty (the status
    is then 500). *)
Theorem handleApiError_Error
  (NODE_ENV : option string) (e : JsError) (instance : option string) (log : stderr) :
  let r := fst (handleApiError NODE_ENV (IsError e) instance log) in
  (NODE_ENV = Some "production"%string ->
   r.(init_status) = 500 /\ r.(body).(title) = "Internal Server Error"%string /\
   r.(body).(detail) = None)
  /\ (NODE_ENV <> Some "production"%string ->
      (r.(init_status) = 401 <-> substring_of "Unauthorized" (error_message e)) /\
      (r.(init_status) = 403 <->
       ~ substring_of "Unauthorized" (error_message e) /\
       substring_of "Forbidden" (error_message e)) /\
      (r.(init_status) = 500 <->
       ~ substring_of "Unauthorized" (error_message e) /\
       ~ substring_of "Forbidden" (error_message e)) /\
      (error_message e <> EmptyString -> r.(body).(detail) = Some (error_message e)) /\
      (error_message e = EmptyString ->
       r.(body).(detail) = None /\ r.(init_status) = 500))
  /\ r.(body).(status) = r.(init_status)
  /\ r.(body).(type) = "about:blank"%string.
Proof.
  intros r. unfold r, handleApiError. split; [|split].
  - intros ->. cbn. repeat split.
  - intros N.
    assert (P : (match NODE_ENV with Some v => (v =? "production")%string | None => false end)
                = false).
    { destruct NODE_ENV as [v|]; [|reflexivity]. apply String.eqb_neq. congruence. }
    rewrite P. rewrite <- !includes_iff.
    destruct (error_message e) as [|a s] eqn:M.
    + cbn [includes prefix orb fst problemResponse body init_status detail spread_if_truthy].
      repeat split; intros; try reflexivity; try discriminate; try congruence;
        try (exfalso; revert H; number_neq); try (destruct H; discriminate).
    + destruct (includes (String a s) "Unauthorized");
        destruct (includes (String a s) "Forbidden");
        cbn [fst problemResponse body init_status detail spread_if_truthy];
        repeat split; intros; try reflexivity; try discriminate; try tauto;
        try (exfalso; revert H; number_neq);
        try (destruct H; discriminate); try (destruct H; congruence).
  - destruct (match NODE_ENV with Some v => (v =? "production")%string | None => false end);
      [split; reflexivity|].
    destruct (includes (error_message e) "Unauthorized"); [split; reflexivity|].
    destruct (includes (error_message e) "Forbidden"); split; reflexivity.
Qed.

Lemma handleApiError_Error_witness :
  let r := fst (handleApiError (Some "production"%string)
                  (IsError (Error "Forbidden: no access")) None []) in
  let d := fst (handleApiError (Some "development"%string)
                  (IsError (Error "Forbidden: no access")) None []) in
  let n := fst (handleApiError (Some "development"%string)
                  (IsError (Error EmptyString)) None []) in
  (r.(init_status) = 500 /\ r.(body).(detail) = None) /\
  (d.(init_status) = 403 /\ d.(body).(detail) = Some "Forbidden: no access"%string) /\
  (n.(init_status) = 500 /\ n.(body).(detail) = None).
Proof.
  split; [|split].
  - destruct (handleApiError_Error (Some "production"%string)
                (Error "Forbidden: no access") None []) as (P & _ & _).
    destruct (P eq_refl) as (A & _ & B). split; [exact A | exact B].
  - destruct (handleApiError_Error (Some "development"%string)
                (Error "Forbidden: no access") None []) as (_ & D & _).
    destruct (D ltac:(discriminate)) as (_ & F & _ & E & _).
    split; [|apply E; discriminate]. apply F. split.
    + rewrite <- includes_iff. discriminate.
    + rewrite <- includes_iff. reflexivity.
  - destruct (handleApiError_Error (Some "development"%string)
                (Error EmptyString) None []) as (_ & D & _).
    destruct (D ltac:(discriminate)) as (_ & _ & _ & _ & E).
    destruct (E eq_refl) as [A B]. split; [exact B | exact A].
Defined.

(** X12. A [ZodError] is answered 400 "Validation Error" in every
    environment, production included, and its detail is never left out: it
    starts with "Validation failed: " and lists every issue as
    [path: message], the path joined with dots. *)
Theorem handleApiError_ZodError
  (NODE_ENV : option string) (errors : list ZodIssue) (instance : option string)
  (log : stderr) :
  let r := fst (handleApiError NODE_ENV (IsZodError errors) instance log) in
  r.(init_status) = 400 /\
  r.(body).(title) = "Validation Error"%string /\
  exists d : string,
    r.(body).(detail) = Some d /\
    prefix "Validation failed: " d = true /\
    forall issue : ZodIssue,
      In issue errors ->
      substring_of (join "." issue.(path) ++ ": " ++ issue.(issue_message)) d.
Proof.
  intros r. unfold r, handleApiError, handleValidationError, problemResponse.
  cbn [fst body init_status title detail]. split; [reflexivity|]. split; [reflexivity|].
  eexists. split; [reflexivity|]. split; [apply prefix_iff; eexists; reflexivity|].
  intros issue H. rewrite map_map. cbn [fst snd].
  destruct (join_includes ", " (join "." issue.(path) ++ ": " ++ issue.(issue_message))%string
              (map (fun err => (join "." err.(path) ++ ": " ++ err.(issue_message))%string)
                   errors)) as (a & b & E).
  { apply (in_map (fun err => (join "." err.(path) ++ ": " ++ err.(issue_message))%string)).
    exact H. }
  exists ("Validation failed: " ++ a)%string, b. rewrite E. reflexivity.
Qed.

(** X13. An error thrown by [calculateRoiScenarios] and handed to
    [handleApiError], as the catch clause of the route does, is answered 500
    "Internal Server Error" in every environment, never a 4xx; outside
    production the detail is the message of the error. *)
Theorem calculateRoiScenarios_error_is_500
  (inputs : RoiInputsType) (c : console) (e : JsError)
  (NODE_ENV : option string) (instance : option string) (log : stderr) :
  result_of (calculateRoiScenarios inputs) c = Thrown e ->
  let r := fst (handleApiError NODE_ENV (IsError e) instance log) in
  r.(init_status) = 500 /\
  r.(body).(title) = "Internal Server Error"%string /\
  (NODE_ENV <> Some "production"%string -> r.(body).(detail) = Some (error_message e)).
Proof.
  intros R r. unfold result_of in R. rewrite calculateRoiScenarios_run in R.
  unfold r, handleApiError.
  destruct (match NODE_ENV with Some v => (v =? "production")%string | None => false end) eqn:P.
  - split; [reflexivity|]. split; [reflexivity|]. intros N. exfalso. apply N.
    destruct NODE_ENV as [v|]; [|discriminate P]. apply String.eqb_eq in P. congruence.
  - destruct (inputs.(nPeople) <=? 0).
    + injection R as <-. repeat split.
    + destruct (inputs.(costPerHour) <? 0); [|discriminate R].
      injection R as <-. repeat split.
Qed.

Lemma calculateRoiScenarios_error_is_500_witness :
  let r := fst (handleApiError None
                  (IsError (Error "Number of people must be greater than 0")) None []) in
  r.(init_status) = 500 /\
  r.(body).(detail) = Some "Number of people must be greater than 0"%string.
Proof.
  destruct (calculateRoiScenarios_error_is_500 (with_nPeople 0 example_inputs) []
              (Error "Number of people must be greater than 0") None None [] eq_refl)
    as (A & _ & B).
  split; [exact A|]. apply B. discriminate.
Defined.

(** * Further properties: stored scenarios *)

(** X14. What the route stores of a scenario and reads back: a field that is
    a finite number comes back as an equal number, and a field that is not
    finite comes back as [null].  So the [Infinity] sentinel of
    [paybackMonths] does not survive: for every scenario [calculateScenario]
    computes from a monthly benefit that is not positive, the stored payback
    reads back as [null]. *)
Theorem stored_scenario_read_back :
  (forall s : RoiScenarioType,
      exists text : Json,
        JSON_stringify (scenario_object s) = Some text /\
        read_back_of s.(totalBenefit) (get (JSON_parse text) "totalBenefit") /\
        read_back_of s.(year1Net) (get (JSON_parse text) "year1Net") /\
        read_back_of s.(roiPct) (get (JSON_parse text) "roiPct") /\
        read_back_of s.(paybackMonths) (get (JSON_parse text) "paybackMonths"))
  /\ (forall (inputs : RoiInputsType) (c : console) (s : RoiScenarioType),
        result_of (calculateScenario inputs) c = Returned s ->
        (0 <? Scenario.monthlyBenefit inputs) = false ->
        exists text : Json,
          JSON_stringify (scenario_object s) = Some text /\
          get (JSON_parse text) "paybackMonths" = VNull).
Proof.
  split.
  - intros s. eexists. split; [reflexivity|].
    cbn [JSON_parse map fst snd get lookup String.eqb Ascii.eqb Bool.eqb flat_map app
         JSON_stringify scenario_object].
    repeat split; apply read_back_stringify.
  - intros inputs c s R P.
    change (Returned (scenario_value inputs) = Returned s) in R. injection R as <-.
    eexists. split; [reflexivity|].
    unfold scenario_value. cbn [scenario_object paybackMonths totalBenefit year1Net roiPct].
    unfold Scenario.paybackMonths. rewrite P.
    cbn [JSON_parse map fst snd get lookup String.eqb Ascii.eqb Bool.eqb flat_map app
         JSON_stringify].
    reflexivity.
Qed.

Lemma stored_scenario_read_back_witness :
  exists text : Json,
    JSON_stringify (scenario_object (scenario_value no_benefit_inputs)) = Some text /\
    get (JSON_parse text) "paybackMonths" = VNull.
Proof.
  apply (proj2 stored_scenario_read_back no_benefit_inputs []); reflexivity.
Defined.

(** X15. On plain data, that is, [undefined], [null], booleans, numbers,
    strings, and arrays and plain objects of these, [deepClone] throws
    exactly when its argument is [undefined] itself; and a clone is a fixed
    point: cloning it again returns it unchanged. *)
Theorem deepClone_idempotent :
  (forall obj : JsValue, deepClone obj = None <-> obj = VUndefined)
  /\ (forall obj clone : JsValue,
        deepClone obj = Some clone -> deepClone clone = Some clone).
Proof.
  split.
  - intros obj. unfold deepClone. split.
    + destruct obj; cbn [JSON_stringify]; try discriminate. reflexivity.
    + intros ->. reflexivity.
  - intros obj clone. unfold deepClone.
    destruct (JSON_stringify obj) as [text|] eqn:E; [|discriminate].
    intros H. injection H as <-.
    rewrite (stringify_parse obj text E). reflexivity.
Qed.

Lemma deepClone_idempotent_witness :
  deepClone (VArray [VNull; VNumber 1]) = Some (VArray [VNull; VNumber 1]).
Proof.
  apply (proj2 deepClone_idempotent (VArray [VUndefined; VNumber 1])). reflexivity.
Defined.

(** * Further properties: consumers of the ROI output *)

(** X16. The completeness score is a whole number between 0 and 100.  It is
    100 exactly when there are at least five evidence items, three pains, an
    ROI output, three stakeholders and one outreach asset, and 0 exactly when
    there is nothing at all. *)
Theorem calculateCompleteness_range
  {ProjectType EvidenceItem PainType StakeholderType OutreachAssetType : Type}
  (data : ExportData ProjectType EvidenceItem PainType StakeholderType OutreachAssetType) :
  (0 <=? calculateCompleteness data) = true /\
  (calculateCompleteness data <=? 100) = true /\
  Number_isInteger (calculateCompleteness data) = true /\
  (calculateCompleteness data = 100 <->
   (5 <= List.length data.(evidence))%nat /\ (3 <= List.length data.(pains))%nat /\
   data.(roiOutput) <> None /\
   (3 <= List.length data.(stakeholders))%nat /\
   (1 <= List.length data.(outreachAssets))%nat) /\
  (calculateCompleteness data = 0 <->
   data.(evidence) = [] /\ data.(pains) = [] /\ data.(roiOutput) = None /\
   data.(stakeholders) = [] /\ data.(outreachAssets) = []).
Proof.
  pose proof (points_range data) as R.
  split; [|split; [|split; [|split]]].
  - rewrite calculateCompleteness_points.
    change 0 with (Z2number 0). apply Z2number_mono; [lia|]. change (2 ^ 53)%Z with 9007199254740992%Z. lia.
  - rewrite calculateCompleteness_points.
    change 100 with (Z2number 100). apply Z2number_mono; [lia|]. reflexivity.
  - unfold calculateCompleteness.
    destruct (1 <=? List.length data.(evidence))%nat, (3 <=? List.length data.(evidence))%nat,
      (5 <=? List.length data.(evidence))%nat, (1 <=? List.length data.(pains))%nat,
      (3 <=? List.length data.(pains))%nat, data.(roiOutput),
      (1 <=? List.length data.(stakeholders))%nat, (3 <=? List.length data.(stakeholders))%nat,
      (1 <=? List.length data.(outreachAssets))%nat; reflexivity.
  - rewrite calculateCompleteness_points. change 100 with (Z2number 100).
    assert (E : points data = 100%Z <->
                (5 <= List.length data.(evidence))%nat /\ (3 <= List.length data.(pains))%nat /\
                data.(roiOutput) <> None /\
                (3 <= List.length data.(stakeholders))%nat /\
                (1 <= List.length data.(outreachAssets))%nat).
    { clear R. unfold points.
      destruct (Nat.leb_spec 1 (List.length data.(evidence))),
        (Nat.leb_spec 3 (List.length data.(evidence))),
        (Nat.leb_spec 5 (List.length data.(evidence))),
        (Nat.leb_spec 1 (List.length data.(pains))),
        (Nat.leb_spec 3 (List.length data.(pains))),
        (Nat.leb_spec 1 (List.length data.(stakeholders))),
        (Nat.leb_spec 3 (List.length data.(stakeholders))),
        (Nat.leb_spec 1 (List.length data.(outreachAssets)));
        destruct data.(roiOutput);
        split; try lia; try (intros _; repeat split; try lia; discriminate);
        try (intros (? & ? & ? & ? & ?); try lia; congruence). }
    rewrite <- E. split.
    + apply Z2number_inj; change (2 ^ 53)%Z with 9007199254740992%Z; lia.
    + intros ->. reflexivity.
  - rewrite calculateCompleteness_points. change 0 with (Z2number 0).
    assert (E : points data = 0%Z <->
                data.(evidence) = [] /\ data.(pains) = [] /\ data.(roiOutput) = None /\
                data.(stakeholders) = [] /\ data.(outreachAssets) = []).
    { clear R. unfold points.
      rewrite <- !length_zero_iff_nil.
      destruct (Nat.leb_spec 1 (List.length data.(evidence))),
        (Nat.leb_spec 3 (List.length data.(evidence))),
        (Nat.leb_spec 5 (List.length data.(evidence))),
        (Nat.leb_spec 1 (List.length data.(pains))),
        (Nat.leb_spec 3 (List.length data.(pains))),
        (Nat.leb_spec 1 (List.length data.(stakeholders))),
        (Nat.leb_spec 3 (List.length data.(stakeholders))),
        (Nat.leb_spec 1 (List.length data.(outreachAssets)));
        destruct data.(roiOutput);
        split; try lia; try (intros _; repeat split; try lia; reflexivity);
        try (intros (? & ? & ? & ? & ?); try lia; congruence). }
    rewrite <- E. split.
    + apply Z2number_inj; change (2 ^ 53)%Z with 9007199254740992%Z; lia.
    + intros ->. reflexivity.
Qed.

(** X17. The completeness score never drops when there is more of
    everything: with at least as many evidence items, pains, stakeholders and
    outreach assets, and an ROI output if there was one, the score is at
    least what it was. *)
Theorem calculateCompleteness_monotone
  {ProjectType EvidenceItem PainType StakeholderType OutreachAssetType : Type}
  (before after : ExportData ProjectType EvidenceItem PainType StakeholderType
                    OutreachAssetType) :
  (List.length before.(evidence) <= List.length after.(evidence))%nat ->
  (List.length before.(pains) <= List.length after.(pains))%nat ->
  (List.length before.(stakeholders) <= List.length after.(stakeholders))%nat ->
  (List.length before.(outreachAssets) <= List.length after.(outreachAssets))%nat ->
  (before.(roiOutput) <> None -> after.(roiOutput) <> None) ->
  (calculateCompleteness before <=? calculateCompleteness after) = true.
Proof.
  intros Le Lp Ls Lo Lr.
  rewrite !calculateCompleteness_points.
  pose proof (points_range before) as Rb.
  pose proof (points_range after) as Ra.
  apply Z2number_mono; [|change (2 ^ 53)%Z with 9007199254740992%Z; lia].
  split; [lia|]. unfold points.
  pose proof (step_mono 1 _ _ 10 Le ltac:(lia)).
  pose proof (step_mono 3 _ _ 10 Le ltac:(lia)).
  pose proof (step_mono 5 _ _ 10 Le ltac:(lia)).
  pose proof (step_mono 1 _ _ 15 Lp ltac:(lia)).
  pose proof (step_mono 3 _ _ 10 Lp ltac:(lia)).
  pose proof (step_mono 1 _ _ 10 Ls ltac:(lia)).
  pose proof (step_mono 3 _ _ 5 Ls ltac:(lia)).
  pose proof (step_mono 1 _ _ 10 Lo ltac:(lia)).
  assert ((match before.(roiOutput) with Some _ => 20 | None => 0 end
           <= match after.(roiOutput) with Some _ => 20 | None => 0 end)%Z).
  { destruct before.(roiOutput), after.(roiOutput); try lia.
    exfalso. apply Lr; [discriminate | reflexivity]. }
  lia.
Qed.

Lemma calculateCompleteness_monotone_witness :
  (calculateCompleteness
     {| project := tt; evidence := [tt]; pains := @nil unit; stakeholders := @nil unit;
        outreachAssets := @nil unit; roiOutput := None |}
   <=? calculateCompleteness
     {| project := tt; evidence := [tt; tt; tt]; pains := [tt]; stakeholders := @nil unit;
        outreachAssets := @nil unit; roiOutput := Some (output_value example_inputs) |})
  = true.
Proof.
  apply (calculateCompleteness_monotone
           {| project := tt; evidence := [tt]; pains := @nil unit; stakeholders := @nil unit;
              outreachAssets := @nil unit; roiOutput := None |}
           {| project := tt; evidence := [tt; tt; tt]; pains := [tt];
              stakeholders := @nil unit; outreachAssets := @nil unit;
              roiOutput := Some (output_value example_inputs) |});
    simpl; try lia; discriminate.
Defined.

(** X18. [validateOutreachRequirements] returns no error exactly when there
    is at least one pain, at least one stakeholder and an ROI output; each of
    its three errors is returned exactly when its requirement is missing, and
    nothing else is ever returned. *)
Theorem validateOutreachRequirements_complete
  {PainType StakeholderType : Type}
  (projectData : OutreachRequirements PainType StakeholderType) :
  let errors := validateOutreachRequirements projectData in
  (errors = [] <->
   projectData.(req_pains) <> [] /\ projectData.(req_stakeholders) <> [] /\
   projectData.(req_roiOutput) <> None) /\
  (In "At least one pain point is required for outreach generation"%string errors
   <-> projectData.(req_pains) = []) /\
  (In "At least one stakeholder is required for outreach generation"%string errors
   <-> projectData.(req_stakeholders) = []) /\
  (In "ROI calculation is required for economic outreach generation"%string errors
   <-> projectData.(req_roiOutput) = None) /\
  (forall e : string,
      In e errors ->
      In e ["At least one pain point is required for outreach generation";
            "At least one stakeholder is required for outreach generation";
            "ROI calculation is required for economic outreach generation"]%string).
Proof.
  intros errors. unfold errors, validateOutreachRequirements, push.
  destruct projectData as [p s r]. cbn [req_pains req_stakeholders req_roiOutput].
  destruct p as [|p0 p], s as [|s0 s], r as [r|]; cbn [List.length Nat.eqb app In];
    repeat split; intros; try reflexivity; try discriminate; try congruence;
    try tauto;
    try (repeat match goal with H : _ \/ _ |- _ => destruct H as [H|H] end;
         try discriminate; try contradiction; auto 10).
Qed.

(** * Further properties: outreach generation *)

(** X19. When [generateOutreachAsset] returns.  It returns an asset exactly
    when the kind is one [getAvailableOutreachTypes] lists for the persona of
    the stakeholder and the ROI output is absent or holds numbers where
    [toFixed] is called; only three pairs of a kind and a persona have a
    template.  The asset it returns carries all the sources it was given, not
    the five the body shows, and the three fixed assumptions followed by at
    most two goals, and the two lines are logged.  Without a template it
    throws a "No template" error after the first line. *)
Theorem generateOutreachAsset_returns
  (toFixed : number -> string) (format : JsValue -> string)
  (replace : string -> string -> string -> string) (message : JsValue -> string -> string)
  (kind : OutreachKind) (stakeholder : Stakeholder.t) (projectData : ProjectData.t)
  (senderName : option string) (c : list outreach_line) :
  let r := generateOutreachAsset toFixed format replace message
             kind stakeholder projectData senderName c in
  let persona := stakeholder.(Stakeholder.persona) in
  let available := In kind (getAvailableOutreachTypes persona) in
  let generating := LogGenerating kind persona projectData.(ProjectData.companyName) in
  ((exists asset, fst r = Returned asset)
   <-> available /\ roiOutput_readable projectData.(ProjectData.roiOutput) = true)
  /\ (available <-> has_template kind persona)
  /\ (forall asset, fst r = Returned asset ->
        asset.(Generated.sources) = projectData.(ProjectData.sources) /\
        (exists goals, asset.(Generated.assumptions)
                       = [(projectData.(ProjectData.companyName) ++ " is actively investing in "
                           ++ projectData.(ProjectData.productCategory) ++ " solutions")%string;
                          "Current manual processes are creating inefficiencies"%string;
                          "ROI calculations based on industry benchmarks and public information"%string]
                         ++ goals /\
                       goals = firstn 2 stakeholder.(Stakeholder.goals) /\
                       (List.length goals <= 2)%nat) /\
        snd r = c ++ [generating; LogGenerated kind stakeholder.(Stakeholder.name)])
  /\ (~ available ->
      snd r = c ++ [generating] /\
      exists m, fst r = Thrown (Error m) /\ prefix "No template" m = true).
Proof.
  intros r persona available generating.
  assert (A : available <-> has_template kind persona)
    by (symmetry; apply has_template_available).
  pose proof (generateOutreachAsset_returns_iff toFixed format replace message
                kind stakeholder projectData senderName c) as I.
  fold r persona in I.
  split; [|split; [exact A|split]].
  - split.
    + intros Q. apply I in Q. destruct Q as [H R]. split; [apply A, H | exact R].
    + intros [H R]. apply I. split; [apply A, H | exact R].
  - unfold r, generateOutreachAsset. fold persona.
    destruct (templates_of kind OUTREACH_TEMPLATES) as [templates|];
      [destruct (template_of persona templates) as [template|]|];
      try (cbn [fst]; intros asset Q; discriminate Q).
    destruct (templateVars toFixed format message stakeholder projectData _) as [vars|e];
      [|cbn [fst]; intros asset Q; discriminate Q].
    destruct (fold_left _ vars _) as [subject body]. cbn [fst snd].
    intros asset Q. injection Q as <-. cbn [Generated.sources Generated.assumptions].
    split; [reflexivity|]. split.
    + eexists. split; [reflexivity|]. split; [reflexivity|]. apply firstn_le_length.
    + rewrite <- app_assoc. reflexivity.
  - intros N.
    assert (H : ~ has_template kind persona) by (intros H; apply N, A, H).
    pose proof (has_template_lookup kind persona) as L.
    unfold r, generateOutreachAsset. fold persona.
    destruct (templates_of kind OUTREACH_TEMPLATES) as [templates|] eqn:E1;
      [destruct (template_of persona templates) as [template|] eqn:E2|].
    + exfalso. apply H, L. eauto.
    + cbn [fst snd]. split; [reflexivity|]. eexists. split; reflexivity.
    + cbn [fst snd]. split; [reflexivity|]. eexists. split; reflexivity.
Qed.

(** X20. The ROI output the outreach route passes is the one the ROI route
    stored as JSON.  With it, [generateOutreachAsset] returns exactly when the
    pair has a template and [roiPct] of the low and most-likely scenarios and
    [paybackMonths] of the most-likely scenario were finite when stored: a
    value that is not finite reads back as [null], and [toFixed] on it throws.
    So for inputs whose monthly benefit is not positive, whose payback is the
    [Infinity] sentinel, the call throws whatever the kind and the
    stakeholder. *)
Theorem generateOutreachAsset_stored_roiOutput
  (toFixed : number -> string) (format : JsValue -> string)
  (replace : string -> string -> string -> string) (message : JsValue -> string -> string)
  (kind : OutreachKind) (stakeholder : Stakeholder.t) (projectData : ProjectData.t)
  (senderName : option string) (c : list outreach_line)
  (out : RoiOutputType) (lowScenario mostLikelyScenario highScenario : Json) :
  JSON_stringify (scenario_object out.(low)) = Some lowScenario ->
  JSON_stringify (scenario_object out.(mostLikely)) = Some mostLikelyScenario ->
  JSON_stringify (scenario_object out.(high)) = Some highScenario ->
  projectData.(ProjectData.roiOutput)
  = parsed_roiOutput lowScenario mostLikelyScenario highScenario ->
  let r := generateOutreachAsset toFixed format replace message
             kind stakeholder projectData senderName c in
  ((exists asset, fst r = Returned asset)
   <-> has_template kind stakeholder.(Stakeholder.persona) /\
       Number_isFinite out.(mostLikely).(roiPct) = true /\
       Number_isFinite out.(low).(roiPct) = true /\
       Number_isFinite out.(mostLikely).(paybackMonths) = true)
  /\ (forall (inputs : RoiInputsType) (c0 c0' : console),
        calculateRoiScenarios inputs c0 = (Returned out, c0') ->
        (0 <? Scenario.monthlyBenefit inputs) = false ->
        exists e, fst r = Thrown e).
Proof.
  intros SL SM SH P r.
  pose proof (parsed_roiOutput_readable _ _ _ _ _ _ SL SM SH) as R. rewrite <- P in R.
  assert (A : (exists asset, fst r = Returned asset)
              <-> has_template kind stakeholder.(Stakeholder.persona) /\
                  Number_isFinite out.(mostLikely).(roiPct) = true /\
                  Number_isFinite out.(low).(roiPct) = true /\
                  Number_isFinite out.(mostLikely).(paybackMonths) = true).
  { pose proof (generateOutreachAsset_returns_iff toFixed format replace message
                  kind stakeholder projectData senderName c) as I.
    fold r in I. rewrite R, !andb_true_iff in I. tauto. }
  split; [exact A|].
  intros inputs c0 c0' C M.
  assert (F : Number_isFinite out.(mostLikely).(paybackMonths) = false).
  { rewrite calculateRoiScenarios_run in C.
    destruct (inputs.(nPeople) <=? 0); [discriminate C|].
    destruct (inputs.(costPerHour) <? 0); [discriminate C|].
    injection C as <- _.
    unfold output_value, scenario_value. cbn [mostLikely paybackMonths].
    unfold Scenario.paybackMonths. rewrite M. reflexivity. }
  destruct (fst r) as [asset|e] eqn:Q; [|eexists; reflexivity].
  exfalso.
  assert (X : exists asset' : Generated.t, Returned asset = Returned asset')
    by (eexists; reflexivity).
  apply A in X. destruct X as (_ & _ & _ & X). rewrite F in X. discriminate X.
Qed.

Lemma generateOutreachAsset_stored_roiOutput_witness :
  exists e,
    fst (generateOutreachAsset (fun _ => EmptyString) (fun _ => EmptyString)
           (fun s _ _ => s) (fun _ _ => EmptyString)
           email_economic example_stakeholder no_benefit_projectData None []) = Thrown e.
Proof.
  apply (proj2 (generateOutreachAsset_stored_roiOutput
                  (fun _ => EmptyString) (fun _ => EmptyString)
                  (fun s _ _ => s) (fun _ _ => EmptyString)
                  email_economic example_stakeholder no_benefit_projectData None []
                  (output_value no_benefit_inputs)
                  no_benefit_text no_benefit_text no_benefit_text
                  eq_refl eq_refl eq_refl eq_refl)
           no_benefit_inputs [] (success_lines no_benefit_inputs));
    reflexivity.
Defined.

(** X21. The outreach route accepts the four kinds, and hands what
    [generateOutreachAsset] throws to [handleApiError].  For each of the
    thirteen pairs of a kind and a persona without a template, the answer is
    500 "Internal Server Error" in every environment, never a 4xx; outside
    production the detail is the "No template" message. *)
Theorem generateOutreachAsset_no_template_is_500
  (toFixed : number -> string) (format : JsValue -> string)
  (replace : string -> string -> string -> string) (message : JsValue -> string -> string)
  (kind : OutreachKind) (stakeholder : Stakeholder.t) (projectData : ProjectData.t)
  (senderName : option string) (c : list outreach_line) (e : JsError)
  (NODE_ENV : option string) (instance : option string) (log : stderr) :
  ~ has_template kind stakeholder.(Stakeholder.persona) ->
  fst (generateOutreachAsset toFixed format replace message
         kind stakeholder projectData senderName c) = Thrown e ->
  let r := fst (handleApiError NODE_ENV (IsError e) instance log) in
  r.(init_status) = 500 /\
  r.(body).(title) = "Internal Server Error"%string /\
  (NODE_ENV <> Some "production"%string -> r.(body).(detail) = Some (error_message e)) /\
  prefix "No template" (error_message e) = true.
Proof.
  intros H Q r. unfold r, handleApiError.
  assert (M : prefix "No template" (error_message e) = true /\
              includes (error_message e) "Unauthorized" = false /\
              includes (error_message e) "Forbidden" = false).
  { destruct stakeholder as [i p n t persona g o pp h ca ua].
    cbn [Stakeholder.persona] in H.
    destruct kind, persona;
      try (exfalso; apply H; unfold has_template; auto; fail);
      vm_compute in Q; injection Q as <-; vm_compute; auto. }
  destruct M as (M1 & M2 & M3). rewrite M2, M3.
  destruct (match NODE_ENV with Some v => (v =? "production")%string | None => false end) eqn:P.
  - split; [reflexivity|]. split; [reflexivity|]. split; [|exact M1].
    intros N. exfalso. apply N.
    destruct NODE_ENV as [v|]; [|discriminate P]. apply String.eqb_eq in P. congruence.
  - split; [reflexivity|]. split; [reflexivity|]. split; [|exact M1].
    intros _. unfold problemResponse. cbn [fst body detail].
    destruct (error_message e) as [|a s]; [discriminate M1 | reflexivity].
Qed.

Lemma generateOutreachAsset_no_template_is_500_witness :
  let r := fst (handleApiError None
                  (IsError (Error "No templates found for outreach kind: email_user"))
                  None []) in
  r.(init_status) = 500 /\
  r.(body).(detail) = Some "No templates found for outreach kind: email_user"%string.
Proof.
  destruct (generateOutreachAsset_no_template_is_500
              (fun _ => EmptyString) (fun _ => EmptyString)
              (fun s _ _ => s) (fun _ _ => EmptyString)
              email_user example_stakeholder no_benefit_projectData None []
              (Error "No templates found for outreach kind: email_user") None None [])
    as (A & _ & B & _).
  - unfold has_template. intros [[K _]|[K _]]; discriminate K.
  - reflexivity.
  - split; [exact A|]. apply B. discriminate.
Defined.
